(** * hugoreleaser: the archive writer, the archive command and the release command

    A shallow embedding of
      - internal/archives/targz/targz.go  (module [Targz]),
      - cmd/archivecmd/archive.go         (module [Archivecmd]),
      - cmd/releasecmd/release.go         (module [Releasecmd]),
    followed by the properties of the pipeline that are stated about them. *)

From Stdlib Require Import Ascii String List Bool Arith ZArith Lia Permutation DecimalString.
Import ListNotations.
Open Scope list_scope.
Open Scope string_scope.

(** ** Go values shared by the three packages *)

(** A non-nil Go [error]: its message, and whether [os.IsNotExist] holds of it. *)
Record error := mkError { errMsg : string; errNotExist : bool }.

(** A Go [error] value; [None] is [nil]. *)
Definition goerror := option error.

Definition isNil (e : goerror) : bool :=
  match e with None => true | Some _ => false end.

(** [os.IsNotExist(err)]; false on [nil]. *)
Definition os_IsNotExist (e : goerror) : bool :=
  match e with None => false | Some x => errNotExist x end.

(** [errors.New] / [fmt.Errorf] without [%w]: a fresh error that wraps nothing. *)
Definition errorsNew (msg : string) : error := mkError msg false.

(** ** internal/archives/targz *)

Module Targz.

(** *** The standard-library objects the package drives *)

(** The file-type bits of an [fs.FileMode]. *)
Inductive FileType :=
| ModeRegular | ModeDir | ModeSymlink | ModeCharDevice | ModeBlockDevice
| ModeNamedPipe | ModeSocket | ModeIrregular.

(** What [f.Stat()] reports: an [fs.FileInfo]. *)
Record FileInfo := mkFileInfo {
  fi_Name : string;      (* base name of the file on disk *)
  fi_Size : Z;
  fi_Type : FileType;
  fi_Perm : Z;
  fi_ModTime : Z
}.

Inductive Typeflag :=
| TypeReg | TypeDir | TypeSymlink | TypeChar | TypeBlock | TypeFifo.

(** [tar.Header], the fields [FileInfoHeader] fills in. *)
Record Header := mkHeader {
  h_Typeflag : Typeflag;
  h_Name : string;
  h_Linkname : string;
  h_Size : Z;
  h_Mode : Z;
  h_ModTime : Z
}.

Definition setName (h : Header) (n : string) : Header :=
  mkHeader (h_Typeflag h) n (h_Linkname h) (h_Size h) (h_Mode h) (h_ModTime h).

(** [tar.FileInfoHeader(fi, link)]: name, mode and modification time are
    taken from [fi]; only a regular file gets a size; sockets and unknown
    modes are refused. *)
Definition FileInfoHeader (fi : FileInfo) (link : string) : error + Header :=
  let h tf name size :=
    mkHeader tf name "" size (fi_Perm fi) (fi_ModTime fi) in
  match fi_Type fi with
  | ModeRegular => inr (h TypeReg (fi_Name fi) (fi_Size fi))
  | ModeDir => inr (h TypeDir (fi_Name fi ++ "/") 0%Z)
  | ModeSymlink =>
      inr (mkHeader TypeSymlink (fi_Name fi) link 0%Z (fi_Perm fi) (fi_ModTime fi))
  | ModeCharDevice => inr (h TypeChar (fi_Name fi) 0%Z)
  | ModeBlockDevice => inr (h TypeBlock (fi_Name fi) 0%Z)
  | ModeNamedPipe => inr (h TypeFifo (fi_Name fi) 0%Z)
  | ModeSocket => inl (errorsNew "archive/tar: sockets not supported")
  | ModeIrregular => inl (errorsNew "archive/tar: unknown file mode")
  end.

(** One member of the archive: its header and the body bytes written so far. *)
Record Entry := mkEntry { e_header : Header; e_body : list Byte.byte }.

(** The calls made on a source file, in order. *)
Inductive FileOp := OpStat | OpRead | OpClose.

(** An [ioh.File]: an open handle on a source file.  The handle is an
    interface value, so what its methods answer is part of the value:
    [f_statResult] is what [Stat] returns, [f_data] the bytes [Read] delivers
    and [f_readErr] the error (other than [io.EOF]) that ends the reading,
    [nil] when the data ends with [io.EOF]. *)
Record File := mkFile {
  f_statResult : error + FileInfo;
  f_data : list Byte.byte;
  f_readErr : goerror;
  f_closed : bool;
  f_ops : list FileOp
}.

Definition logOp (f : File) (op : FileOp) : File :=
  mkFile (f_statResult f) (f_data f) (f_readErr f) (f_closed f) (f_ops f ++ [op]).

Definition File_Stat (f : File) : (error + FileInfo) * File :=
  (f_statResult f, logOp f OpStat).

(** Reads the handle to its end: the bytes delivered and the error that
    stopped the reading ([nil] for [io.EOF]). *)
Definition File_ReadAll (f : File) : (list Byte.byte * goerror) * File :=
  ((f_data f, f_readErr f), logOp f OpRead).

Definition File_Close (f : File) : File :=
  mkFile (f_statResult f) (f_data f) (f_readErr f) true (f_ops f ++ [OpClose]).

(** The closes performed on the three layers of an archive, in order. *)
Inductive Layer := LayerTar | LayerGzip | LayerOut.

(** What the tar writer writes to the stream below it: the zeroes that pad
    the entry before to a multiple of 512 bytes ([n] of them, possibly none),
    the encoded header of an entry (one block in the USTAR format, more in
    the others), bytes of the body of an entry, and one of the two zero
    blocks that end the archive. *)
Inductive Block :=
| BlockPadding (n : Z)
| BlockHeader (h : Header)
| BlockData (b : list Byte.byte)
| BlockTrailer.

(** The output sink, an [io.WriteCloser].  The gzip writer compresses and
    buffers, so which bytes reach the sink, and when, is its business; what
    the sink answers is part of the value.  [out_writeErr received] is the
    answer to the writes that reach the sink while the gzip writer takes in
    the last block of [received], nil when they succeed or when none is made;
    [out_flushErr] the answer to the writes made when the gzip writer is
    closed; [out_closeErr] what [Close] returns. *)
Record Sink := mkSink {
  out_writeErr : list Block -> goerror;
  out_flushErr : goerror;
  out_closeErr : goerror;
  out_closed : bool
}.

(** [*gzip.Writer] on the sink [gw_w]: the blocks it has taken in, and its
    sticky error [z.err]. *)
Record GzipWriter := mkGzipWriter {
  gw_w : Sink;
  gw_received : list Block;
  gw_err : goerror;
  gw_closed : bool
}.

Definition errWriterClosed : error := errorsNew "flate: closed writer".

Definition gw_setErr (g : GzipWriter) (e : goerror) : GzipWriter :=
  mkGzipWriter (gw_w g) (gw_received g) e (gw_closed g).

(** [gw.Write(p)]: an earlier error is returned again; a write that fails
    takes nothing in, and its error stays. *)
Definition gw_Write (g : GzipWriter) (blk : Block) : goerror * GzipWriter :=
  match gw_err g with
  | Some e => (Some e, g)
  | None =>
      if gw_closed g then (Some errWriterClosed, gw_setErr g (Some errWriterClosed))
      else match out_writeErr (gw_w g) (gw_received g ++ [blk]) with
           | Some e => (Some e, gw_setErr g (Some e))
           | None =>
               (None, mkGzipWriter (gw_w g) (gw_received g ++ [blk]) None (gw_closed g))
           end
  end.

(** [gw.Close()]: an earlier error is returned again and nothing is closed;
    a second close does nothing; otherwise what is buffered is flushed to the
    sink, which is not closed. *)
Definition GzipWriter_Close (g : GzipWriter) : goerror * GzipWriter :=
  match gw_err g with
  | Some e => (Some e, g)
  | None =>
      if gw_closed g then (None, g)
      else (out_flushErr (gw_w g),
            mkGzipWriter (gw_w g) (gw_received g) (out_flushErr (gw_w g)) true)
  end.

(** What [gw.Close()] returns. *)
Definition gw_closeErr (g : GzipWriter) : goerror := fst (GzipWriter_Close g).

(** The sticky [tw.err] of a tar writer: nil, the sentinel
    [ErrWriteAfterClose] that [Close] leaves, or the error of a failed write. *)
Inductive TwState := TwOpen | TwClosed | TwFailed (e : error).

(** [*tar.Writer] on the gzip writer [tw_w].  [tw_entries] is the content
    written so far, [tw_pad] the padding the last entry still needs.
    [tw_refuses] is what the encoding of a header refuses, beside the two
    checks written out in [allowedFormats]. *)
Record TarWriter := mkTarWriter {
  tw_w : GzipWriter;
  tw_entries : list Entry;
  tw_pad : Z;
  tw_state : TwState;
  tw_refuses : Header -> goerror
}.

Definition ErrWriteTooLong : error := errorsNew "archive/tar: write too long".
Definition ErrWriteAfterClose : error := errorsNew "archive/tar: write after close".

(** [fmt.Errorf("archive/tar: missed writing %d bytes", nb)]. *)
Definition errMissedWriting (nb : Z) : error :=
  errorsNew ("archive/tar: missed writing " ++ NilZero.string_of_int (Z.to_int nb)
             ++ " bytes").

Definition headerError (why : string) : error :=
  errorsNew ("archive/tar: cannot encode header: " ++ why).

(** [tw.err]. *)
Definition tw_err (t : TarWriter) : goerror :=
  match tw_state t with
  | TwOpen => None
  | TwClosed => Some ErrWriteAfterClose
  | TwFailed e => Some e
  end.

Definition tw_closed (t : TarWriter) : bool :=
  match tw_state t with TwClosed => true | _ => false end.

Definition len (b : list Byte.byte) : Z := Z.of_nat (length b).

(** An entry of a header-only type has no body, whatever its header says. *)
Definition isHeaderOnlyType (tf : Typeflag) : bool :=
  match tf with TypeReg => false | _ => true end.

Definition bodySize (h : Header) : Z :=
  if isHeaderOnlyType (h_Typeflag h) then 0%Z else h_Size h.

(** Bytes still owed to the entry being written. *)
Definition remaining (es : list Entry) : Z :=
  match rev es with
  | [] => 0%Z
  | e :: _ => (bodySize (e_header e) - len (e_body e))%Z
  end.

Definition appendBody (es : list Entry) (b : list Byte.byte) : list Entry :=
  match rev es with
  | [] => []
  | e :: r => rev r ++ [mkEntry (e_header e) (e_body e ++ b)]
  end.

Definition blockPadding (size : Z) : Z := ((- size) mod 512)%Z.

Fixpoint endsWithSlash (s : string) : bool :=
  match s with
  | EmptyString => false
  | String c EmptyString => Ascii.eqb c "/"%char
  | String _ r => endsWithSlash r
  end.

(** The error of [h.allowedFormats()]: the name of a file may not end with a
    slash, an entry with a body may not have a negative size, and the header
    must fit one of the formats. *)
Definition allowedFormats (t : TarWriter) (h : Header) : goerror :=
  if match h_Typeflag h with
     | TypeReg | TypeChar | TypeBlock | TypeFifo => endsWithSlash (h_Name h)
     | _ => false
     end
  then Some (headerError "filename may not have trailing slash")
  else if negb (isHeaderOnlyType (h_Typeflag h)) && (h_Size h <? 0)%Z
  then Some (headerError "negative size on header-only type")
  else tw_refuses t h.

Definition tw_set (t : TarWriter) (g : GzipWriter) (es : list Entry) (pad : Z)
    (st : TwState) : TarWriter :=
  mkTarWriter g es pad st (tw_refuses t).

(** [tw.Flush()]: refused while the writer holds an error or the entry in
    progress still misses bytes; otherwise the padding of that entry is
    written, and a failure of the stream stays in the writer. *)
Definition tw_Flush (t : TarWriter) : goerror * TarWriter :=
  match tw_err t with
  | Some e => (Some e, t)
  | None =>
      if (0 <? remaining (tw_entries t))%Z
      then (Some (errMissedWriting (remaining (tw_entries t))), t)
      else
        let '(err, g) := gw_Write (tw_w t) (BlockPadding (tw_pad t)) in
        match err with
        | Some e => (Some e, tw_set t g (tw_entries t) (tw_pad t) (TwFailed e))
        | None => (None, tw_set t g (tw_entries t) 0%Z TwOpen)
        end
  end.

(** [tw.writeRawHeader]: flushes once more, writes the header block, and
    begins an entry with an empty body. *)
Definition writeRawHeader (t : TarWriter) (h : Header) : goerror * TarWriter :=
  let '(err, t1) := tw_Flush t in
  match err with
  | Some e => (Some e, tw_set t1 (tw_w t1) (tw_entries t1) (tw_pad t1) (TwFailed e))
  | None =>
      let '(err, g) := gw_Write (tw_w t1) (BlockHeader h) in
      match err with
      | Some e => (Some e, tw_set t1 g (tw_entries t1) (tw_pad t1) (TwFailed e))
      | None =>
          (None, tw_set t1 g (tw_entries t1 ++ [mkEntry h []])
                   (blockPadding (bodySize h)) TwOpen)
      end
  end.

(** [tw.WriteHeader(h)]: flushes the entry before, checks that the header
    can be encoded (a refusal is not kept in the writer), and writes it. *)
Definition tw_WriteHeader (t : TarWriter) (h : Header) : goerror * TarWriter :=
  let '(err, t1) := tw_Flush t in
  match err with
  | Some e => (Some e, t1)
  | None =>
      match allowedFormats t1 h with
      | Some e => (Some e, t1)
      | None => writeRawHeader t1 h
      end
  end.

(** [tw.Write(b)]: appends to the body of the current entry, at most the
    bytes its header still allows; asking for more is [ErrWriteTooLong],
    which is not kept in the writer, unlike a failure of the stream. *)
Definition tw_Write (t : TarWriter) (b : list Byte.byte) : (Z * goerror) * TarWriter :=
  match tw_err t with
  | Some e => ((0%Z, Some e), t)
  | None =>
      let r := remaining (tw_entries t) in
      let overwrite := (r <? len b)%Z in
      let b' := if overwrite then firstn (Z.to_nat r) b else b in
      let tooLong := if overwrite then Some ErrWriteTooLong else None in
      match b' with
      | [] => ((0%Z, tooLong), t)
      | _ =>
          let '(err, g) := gw_Write (tw_w t) (BlockData b') in
          match err with
          | Some e =>
              ((0%Z, Some e), tw_set t g (tw_entries t) (tw_pad t) (TwFailed e))
          | None =>
              ((len b', tooLong),
               tw_set t g (appendBody (tw_entries t) b') (tw_pad t) TwOpen)
          end
      end
  end.

(** The two zero blocks of the trailer, the second only after the first. *)
Definition writeTrailer (g : GzipWriter) : goerror * GzipWriter :=
  let '(err, g1) := gw_Write g BlockTrailer in
  match err with
  | Some e => (Some e, g1)
  | None => gw_Write g1 BlockTrailer
  end.

(** [tw.Close()]: nil on a writer already closed; the error of a writer
    that holds one, which stays as it is; otherwise the last entry is
    flushed and the trailer written, and the writer is closed whatever that
    gave. *)
Definition TarWriter_Close (t : TarWriter) : goerror * TarWriter :=
  match tw_state t with
  | TwClosed => (None, t)
  | TwFailed e => (Some e, t)
  | TwOpen =>
      let '(err, t1) := tw_Flush t in
      let '(err, g) :=
        match err with
        | Some e => (Some e, tw_w t1)
        | None => writeTrailer (tw_w t1)
        end in
      (err, tw_set t1 g (tw_entries t1) (tw_pad t1) TwClosed)
  end.

(** What [tw.Close()] returns. *)
Definition tw_closeErr (t : TarWriter) : goerror := fst (TarWriter_Close t).

(** [io.Copy(tw, f)]: every byte read is written before the read error, if
    any, is looked at; a write error stops the copy first; nothing is written
    when nothing is read. *)
Definition io_Copy (t : TarWriter) (f : File) : (Z * goerror) * TarWriter * File :=
  let '((data, rerr), f1) := File_ReadAll f in
  match data with
  | [] => ((0%Z, rerr), t, f1)
  | _ =>
      let '((n, werr), t1) := tw_Write t data in
      match werr with
      | Some e => ((n, Some e), t1, f1)
      | None => ((n, rerr), t1, f1)
      end
  end.

(** *** targz.go *)

(** [type Archive struct { out io.WriteCloser; gw *gzip.Writer; tw *tar.Writer }],
    with the order in which its layers were closed kept beside it.  The three
    fields point into one chain: [a.gw] is the stream of [a.tw], and [a.out]
    the sink of [a.gw]. *)
Record Archive := mkArchive {
  tw : TarWriter;
  closeLog : list Layer
}.

Definition gw (a : Archive) : GzipWriter := tw_w (tw a).

Definition out (a : Archive) : Sink := gw_w (gw a).

Definition setTw (a : Archive) (t : TarWriter) : Archive :=
  mkArchive t (closeLog a).

Definition setGw (a : Archive) (g : GzipWriter) : Archive :=
  setTw a (tw_set (tw a) g (tw_entries (tw a)) (tw_pad (tw a)) (tw_state (tw a))).

Definition setOut (a : Archive) (o : Sink) : Archive :=
  setGw a (mkGzipWriter o (gw_received (gw a)) (gw_err (gw a)) (gw_closed (gw a))).

Definition logClose (a : Archive) (l : Layer) : Archive :=
  mkArchive (tw a) (closeLog a ++ [l]).

Definition tw_Close (a : Archive) : goerror * Archive :=
  let '(err, t1) := TarWriter_Close (tw a) in
  (err, logClose (setTw a t1) LayerTar).

Definition gw_Close (a : Archive) : goerror * Archive :=
  let '(err, g1) := GzipWriter_Close (gw a) in
  (err, logClose (setGw a g1) LayerGzip).

Definition out_Close (a : Archive) : goerror * Archive :=
  let o := out a in
  (out_closeErr o,
   logClose (setOut a (mkSink (out_writeErr o) (out_flushErr o) (out_closeErr o) true))
     LayerOut).

(** The body of [AddAndClose], lines 34-55: everything but the deferred close. *)
Definition addBody (a : Archive) (targetPath : string) (f : File)
  : goerror * Archive * File :=
  let '(st, f1) := File_Stat f in
  match st with
  | inl err => (Some err, a, f1)
  | inr info =>
      match FileInfoHeader info "" with
      | inl err => (Some err, a, f1)
      | inr header =>
          let header := setName header targetPath in
          let '(err, tw1) := tw_WriteHeader (tw a) header in
          match err with
          | Some e => (Some e, setTw a tw1, f1)
          | None =>
              let '((_, err), tw2, f2) := io_Copy tw1 f1 in
              match err with
              | Some e => (Some e, setTw a tw2, f2)
              | None => (None, setTw a tw2, f2)
              end
          end
      end
  end.

(** [func (a *Archive) AddAndClose(targetPath string, f ioh.File) error]:
    [defer f.Close()] runs when the body returns, whatever it returns. *)
Definition AddAndClose (a : Archive) (targetPath : string) (f : File)
  : goerror * Archive * File :=
  let '(err, a1, f1) := addBody a targetPath f in
  (err, a1, File_Close f1).

(** [func (a *Archive) Finalize() error]. *)
Definition Finalize (a : Archive) : goerror * Archive :=
  let '(err, a1) := tw_Close a in
  match err with
  | Some e => (Some e, a1)
  | None =>
      let '(err, a2) := gw_Close a1 in
      match err with
      | Some e => (Some e, a2)
      | None => out_Close a2
      end
  end.

(** [func New(out io.WriteCloser) *Archive]: a gzip writer on [out] and a tar
    writer on the gzip writer, both fresh; [refuses] is what the tar encoding
    refuses. *)
Definition New (o : Sink) (refuses : Header -> goerror) : Archive :=
  mkArchive (mkTarWriter (mkGzipWriter o [] None false) [] 0%Z TwOpen refuses) [].

(** A gzip writer that takes every write: it is open and holds no error,
    and its sink refuses nothing. *)
Definition takesAll (g : GzipWriter) : Prop :=
  gw_err g = None
  /\ gw_closed g = false
  /\ forall received, out_writeErr (gw_w g) received = None.

(** The stream below the tar writer takes every write. *)
Definition sound (a : Archive) : Prop := takesAll (gw a).

(** An open gzip writer after it has taken in [blocks]. *)
Definition receive (g : GzipWriter) (blocks : list Block) : GzipWriter :=
  mkGzipWriter (gw_w g) (gw_received g ++ blocks) None false.

(** The stream below the tar writer has only taken in more blocks: it is
    on the same sink, and nothing was closed. *)
Definition grows (g g1 : GzipWriter) : Prop :=
  gw_w g1 = gw_w g
  /\ gw_closed g1 = gw_closed g
  /\ exists blocks, gw_received g1 = (gw_received g ++ blocks)%list.

(** The headers among the blocks of a stream, and the bytes of its data
    blocks, in order. *)
Definition headersOf (blocks : list Block) : list Header :=
  flat_map (fun blk => match blk with BlockHeader h => [h] | _ => [] end) blocks.

Definition dataOf (blocks : list Block) : list Byte.byte :=
  flat_map (fun blk => match blk with BlockData b => b | _ => [] end) blocks.

(** The tar writer can take a new entry: it is open, and the entry before is
    complete. *)
Definition ready (a : Archive) : Prop :=
  tw_state (tw a) = TwOpen
  /\ (remaining (tw_entries (tw a)) <= 0)%Z.

End Targz.

(** ** Effects

    Both commands are sequences of calls on the operating system and on
    packages outside the three files.  A command runs on a [State]: the outside
    [world], about which nothing is assumed, and the [trace] of the calls made
    so far.  [M A] is the body of a Go function that returns [(A, error)]:
    [inl e] is [return ..., e] with [e] non-nil, and [;;] goes on only after
    a nil error. *)

(** [*workers.Workforce], as far as a runner shows it: among [n] waiting
    tasks, [pick results n] is the index of the one that starts next, and
    [cancels results] tells whether the waiting tasks are dropped, once a task
    has failed; [results] is what the tasks run so far returned. *)
Record Workforce := mkWorkforce {
  pick : list goerror -> nat -> nat;
  cancels : list goerror -> bool
}.

(** A pool that lets every task run, whatever the others returned. *)
Definition neverCancels (pool : Workforce) : Prop :=
  forall results, cancels pool results = false.

Section Effects.

Context {World Event : Type}.

Record State := mkState { world : World; trace : list Event }.

Definition M (A : Type) : Type := State -> (error + A) * State.

Definition ret {A} (a : A) : M A := fun s => (inr a, s).

Definition throw {A} (e : error) : M A := fun s => (inl e, s).

Definition bind {A B} (m : M A) (k : A -> M B) : M B :=
  fun s =>
    match m s with
    | (inl e, s1) => (inl e, s1)
    | (inr a, s1) => k a s1
    end.

(** One call on the outside: it is recorded, and the world answers. *)
Definition call {A} (ev : Event) (op : World -> A * World) : M A :=
  fun s =>
    let '(a, w) := op (world s) in
    (inr a, mkState w (trace s ++ [ev])).

(** [if err != nil { return err }]. *)
Definition check (err : goerror) : M unit :=
  match err with
  | Some e => throw e
  | None => ret tt
  end.

(** Calling a function that returns [error] and keeping what it returns. *)
Definition asError (m : M unit) : M goerror :=
  fun s =>
    match m s with
    | (inl e, s1) => (inr (Some e), s1)
    | (inr _, s1) => (inr None, s1)
    end.

(** [defer d] in front of [body]: [d] runs when [body] returns, with an
    error or without, and what [d] returns is dropped. *)
Definition defer {A B} (d : M A) (body : M B) : M B :=
  fun s =>
    let '(r, s1) := body s in
    let '(_, s2) := d s1 in
    (r, s2).

(** [for _, x := range l { body }], left by the first [return err]. *)
Fixpoint forEach {A} (l : list A) (body : A -> M unit) : M unit :=
  match l with
  | [] => ret tt
  | x :: r => bind (body x) (fun _ => forEach r body)
  end.

(** The tasks of a list, run one after the other, each to its end; the result
    lists what they returned, in that order. *)
Fixpoint runInOrder (tasks : list (M unit)) : State -> list goerror * State :=
  fun s =>
    match tasks with
    | [] => ([], s)
    | t :: r =>
        let '(e, s1) :=
          match t s with
          | (inl e, s1) => (Some e, s1)
          | (inr _, s1) => (None, s1)
          end in
        let '(es, s2) := runInOrder r s1 in
        (e :: es, s2)
    end.

(** What [Wait] returns: the first non-nil error. *)
Fixpoint firstError (es : list goerror) : goerror :=
  match es with
  | [] => None
  | Some e :: _ => Some e
  | None :: r => firstError r
  end.

(** Takes one task out of the waiting tasks [x :: l]: the one at index [i],
    the last one when [i] is too large. *)
Fixpoint extract {A} (i : nat) (x : A) (l : list A) : A * list A :=
  match i, l with
  | 0, _ => (x, l)
  | S _, [] => (x, [])
  | S i', y :: l' =>
      let '(t, r) := extract i' y l' in
      (t, x :: r)
  end.

(** The pool at work: as long as tasks are waiting, and unless a task has
    failed and the pool cancels what is left, the pool picks one of the
    waiting tasks and runs it to its end.  [results] is what the tasks run so
    far returned, in the order in which they ended. *)
Fixpoint poolLoop (pool : Workforce) (fuel : nat) (waiting : list (M unit))
    (results : list goerror) (s : State) : list goerror * State :=
  match fuel, waiting with
  | S fuel', x :: l =>
      if negb (isNil (firstError results)) && cancels pool results
      then (results, s)
      else
        let '(t, rest) := extract (pick pool results (length waiting)) x l in
        let '(e, s1) :=
          match t s with
          | (inl e, s1) => (Some e, s1)
          | (inr _, s1) => (None, s1)
          end in
        poolLoop pool fuel' rest (results ++ [e]) s1
  | _, _ => (results, s)
  end.

(** Modelled from the spec: the worker pool behind [Workforce.Start],
    [Runner.Run] and [Runner.Wait], which is not among the sources (section
    4.1: no order may be assumed between the tasks of a runner; a pool may
    let every task run to its end, or cancel the tasks that are left after a
    first error; [Wait] returns once the tasks are done, with the first error
    if there is one).  The pool decides the order and the cancellation; a
    task that is started runs to its end before the next one starts.  The
    result lists what the tasks that were run returned, in the order in which
    they ended. *)
Definition Workforce_run (pool : Workforce) (tasks : list (M unit))
  : State -> list goerror * State :=
  poolLoop pool (length tasks) tasks [].

(** Every call that [m] makes satisfies [P]: whatever the state [m] starts
    in, it only adds calls to the trace, and each of them satisfies [P]. *)
Definition emits {A} (P : Event -> Prop) (m : M A) : Prop :=
  forall s, exists evs,
    trace (snd (m s)) = (trace s ++ evs)%list /\ Forall P evs.

(** [s1] is [s] after some more calls. *)
Definition extends (s s1 : State) : Prop :=
  exists evs, trace s1 = (trace s ++ evs)%list.

End Effects.

Arguments State : clear implicits.
Arguments M : clear implicits.

Declare Scope go_scope.
Delimit Scope go_scope with go.
Notation "x <- c ;; k" := (bind c (fun x => k))
  (at level 61, c at next level, right associativity) : go_scope.
Notation "c ;; k" := (bind c (fun _ => k))
  (at level 61, right associativity) : go_scope.

(** ** The configuration values the commands read (package config) *)

Module Config.

(** [matchers.Matcher]: its [Match] method. *)
Definition Matcher := string -> bool.

Record Os := mkOs { Goos : string }.
Record BuildSettings := mkBuildSettings { Binary : string }.

Record BuildArch := mkBuildArch {
  arch_Os : Os;
  Goarch : string;
  arch_BuildSettings : BuildSettings
}.

Record BuildArchPath := mkBuildArchPath {
  Arch : BuildArch;
  bap_Path : string;
  bap_Name : string
}.

Record ArchiveType := mkArchiveType { Extension : string }.

Record ArchiveFileInfo := mkArchiveFileInfo {
  ef_SourcePath : string;
  ef_TargetPath : string
}.

Record ArchiveSettings := mkArchiveSettings {
  NameTemplate : string;
  ReplacementsCompiled : string -> string;   (* its [Replace] method *)
  as_Type : ArchiveType;
  BinaryDir : string;
  ExtraFiles : list ArchiveFileInfo
}.

Record Archive := mkArchive {
  ArchsCompiled : list BuildArchPath;
  archive_ArchiveSettings : ArchiveSettings
}.

Record ReleaseNotesGroup := mkReleaseNotesGroup {
  RegexpCompiled : Matcher;
  Title : string;
  Ignore : bool
}.

Record ReleaseNotesSettings := mkReleaseNotesSettings {
  Generate : bool;
  Filename : string;
  Groups : list ReleaseNotesGroup
}.

Definition ReleaseType := nat.

Record ReleaseSettings := mkReleaseSettings {
  rs_Type : string;
  TypeParsed : ReleaseType;
  rs_ReleaseNotesSettings : ReleaseNotesSettings
}.

Record Release := mkRelease {
  r_Path : string;
  r_PathsCompiled : Matcher;
  r_ReleaseSettings : ReleaseSettings
}.

Record Config := mkConfig {
  Project : string;
  Archives : list Archive;
  Releases : list Release
}.

(** [corecmd.Core], the fields the two commands read. *)
Record Core := mkCore {
  DistDir : string;
  ProjectDir : string;
  Tag : string;
  DistRootArchives : string;
  DistRootBuilds : string;
  DistRootReleases : string;
  Try : bool;
  Paths : list string;
  PathsReleasesCompiled : Matcher;
  core_Config : Config;
  core_Workforce : Workforce
}.

(** Modelled from the spec: [Config.ForEachArchiveArch], which is not among
    the sources (section 4.3: every configured archive group and every
    matching architecture path).  It visits the pairs in configuration
    order, the iteration release.go writes out at lines 133-137; the result
    lists the pairs on which the callback is called. *)
Definition ForEachArchiveArch (c : Config) (inFilter : Matcher)
  : list (Archive * BuildArchPath) :=
  flat_map
    (fun archive =>
       map (fun archPath => (archive, archPath))
         (filter (fun archPath => inFilter (bap_Path archPath))
            (ArchsCompiled archive)))
    (Archives c).

End Config.

(** ** cmd/archivecmd *)

Module Archivecmd.
Import Config.

Definition commandName : string := "archive".

(** [model.BuildContext], embedded in [ArchiveTemplateContext]. *)
Record BuildContext := mkBuildContext {
  bc_Project : string;
  bc_Tag : string;
  bc_Goos : string;
  bc_Goarch : string
}.

Record ArchiveTemplateContext := mkArchiveTemplateContext {
  atc_BuildContext : BuildContext
}.

(** [archiveplugin.ArchiveFile] and [archiveplugin.Request]. *)
Record ArchiveFile := mkArchiveFile {
  SourcePathAbs : string;
  TargetPath : string
}.

Record Request := mkRequest {
  req_Settings : ArchiveSettings;
  OutFilename : string;
  Files : list ArchiveFile
}.

(** [buildcmd.BuildPaths]: the [-build-paths] flag. *)
Record BuildPaths := mkBuildPaths { bp_Paths : string }.

(** The calls the command makes on the outside. *)
Inductive Event :=
| EvRemoveAllMkdirAll (dir : string)
| EvStat (name : string)
| EvMkdirAll (dir : string)
| EvBuild (req : Request).

(** What the command takes from the standard library and from the packages
    that are not among the sources.  The pure ones are functions; the others
    act on the world. *)
Record Externals (World : Type) := mkExternals {
  filepath_Join : list string -> string;
  filepath_FromSlash : string -> string;
  filepath_Dir : string -> string;
  path_Join : list string -> string;
  fmt_q : string -> string;                       (* the [%q] verb *)
  templ_Sprintt : string -> ArchiveTemplateContext -> string;
  BinaryPath : BuildArch -> string;               (* [arch.BinaryPath()] *)
  BuildPaths_Init : BuildPaths -> error + Matcher; (* compiles [PathsCompiled] *)
  ioh_RemoveAllMkdirAll : string -> World -> goerror * World;
  os_Stat : string -> World -> goerror * World;
  os_MkdirAll : string -> World -> goerror * World;
  archives_Build : ArchiveSettings -> Request -> World -> goerror * World
}.

Arguments filepath_Join {World}.
Arguments filepath_FromSlash {World}.
Arguments filepath_Dir {World}.
Arguments path_Join {World}.
Arguments fmt_q {World}.
Arguments templ_Sprintt {World}.
Arguments BinaryPath {World}.
Arguments BuildPaths_Init {World}.
Arguments ioh_RemoveAllMkdirAll {World}.
Arguments os_Stat {World}.
Arguments os_MkdirAll {World}.
Arguments archives_Build {World}.

Record Archivist := mkArchivist {
  core : Core;
  buildPaths : BuildPaths
}.

Section Exec.

Context {World : Type} (X : Externals World) (b : Archivist).

Local Open Scope go_scope.

(** A Go function that returns [error], run on the world. *)
Definition Task : Type := M World Event unit.

(** Lines 104-109. *)
Definition archiveDistDir : string :=
  filepath_Join X
    [DistDir (core b); Project (core_Config (core b)); Tag (core b);
     DistRootArchives (core b)].

(** Lines 125-138: the name of the archive file of one target. *)
Definition outDirOf (archPath : BuildArchPath) : string :=
  filepath_Join X [archiveDistDir; filepath_FromSlash X (bap_Path archPath)].

Definition outFilenameOf (archive : Archive) (archPath : BuildArchPath) : string :=
  let archiveSettings := archive_ArchiveSettings archive in
  let arch := Arch archPath in
  let archiveTemplCtx :=
    mkArchiveTemplateContext
      (mkBuildContext (Project (core_Config (core b))) (Tag (core b))
         (Goos (arch_Os arch)) (Goarch arch)) in
  let name := templ_Sprintt X (NameTemplate (archive_ArchiveSettings archive)) archiveTemplCtx in
  let name := ReplacementsCompiled archiveSettings name in
  let outFilename := filepath_Join X [outDirOf archPath; name] in
  outFilename ++ Extension (as_Type archiveSettings).

(** Lines 142-148. *)
Definition binaryFilenameOf (archPath : BuildArchPath) : string :=
  filepath_Join X
    [DistDir (core b); Project (core_Config (core b)); Tag (core b);
     DistRootBuilds (core b); BinaryPath X (Arch archPath)].

(** Lines 159-175: the request handed to [archives.Build]. *)
Definition buildRequestOf (archive : Archive) (archPath : BuildArchPath) : Request :=
  let archiveSettings := archive_ArchiveSettings archive in
  let arch := Arch archPath in
  let files :=
    [mkArchiveFile (binaryFilenameOf archPath)
       (path_Join X [BinaryDir archiveSettings; Binary (arch_BuildSettings arch)])] in
  let files :=
    (files ++
     map (fun extraFile =>
            mkArchiveFile
              (filepath_Join X [ProjectDir (core b); ef_SourcePath extraFile])
              (ef_TargetPath extraFile))
       (ExtraFiles archiveSettings))%list in
  mkRequest archiveSettings (outFilenameOf archive archPath) files.

(** The error of line 152. *)
Definition binaryNotFound (binaryFilename : string) : error :=
  errorsNew (commandName ++ ": binary file not found: " ++ fmt_q X binaryFilename).

(** Lines 115-189: the function handed to [r.Run] for one target. *)
Definition archiveTask (archive : Archive) (archPath : BuildArchPath) : Task :=
  let archiveSettings := archive_ArchiveSettings archive in
  let outDir := outDirOf archPath in
  err <- call (EvRemoveAllMkdirAll outDir) (ioh_RemoveAllMkdirAll X outDir) ;;
  check err ;;
  let outFilename := outFilenameOf archive archPath in
  let binaryFilename := binaryFilenameOf archPath in
  err <- call (EvStat binaryFilename) (os_Stat X binaryFilename) ;;
  match err with
  | Some _ => throw (binaryNotFound binaryFilename)
  | None =>
      err <- call (EvMkdirAll (filepath_Dir X outFilename))
               (os_MkdirAll X (filepath_Dir X outFilename)) ;;
      check err ;;
      let buildRequest := buildRequestOf archive archPath in
      err <- call (EvBuild buildRequest)
               (archives_Build X archiveSettings buildRequest) ;;
      check err ;;
      ret tt
  end.

(** Line 111: the pairs the callback is called on. *)
Definition targets (pathsCompiled : Matcher) : list (Archive * BuildArchPath) :=
  ForEachArchiveArch (core_Config (core b)) pathsCompiled.

(** [func (b *Archivist) Exec(ctx context.Context, args []string) error]:
    [Init], then one task per pair that [ForEachArchiveArch] visits, then
    [Wait].  The callback of line 111 returns nil on every pair, so [err] of
    line 196 is nil and [Exec] returns [errWait]. *)
Definition Exec : Task :=
  match BuildPaths_Init X (buildPaths b) with
  | inl e => throw e
  | inr pathsCompiled =>
      fun s =>
        let tasks :=
          map (fun t => archiveTask (fst t) (snd t)) (targets pathsCompiled) in
        let '(errs, s1) := Workforce_run (core_Workforce (core b)) tasks s in
        let errWait := firstError errs in
        check errWait s1
  end.

End Exec.

(** *** Reading a trace, and the state of the disk *)

(** A call that belongs to the construction of an archive: the directory of
    the output file, or the build itself. *)
Definition isConstruction (ev : Event) : bool :=
  match ev with
  | EvMkdirAll _ | EvBuild _ => true
  | _ => false
  end.

(** The requests handed to [archives.Build], in the order of the calls. *)
Definition builds (t : list Event) : list Request :=
  flat_map (fun ev => match ev with EvBuild req => [req] | _ => [] end) t.

(** The binary of a target is absent from disk: [os.Stat] on its path fails. *)
Definition binaryMissing {World : Type} (X : Externals World) (b : Archivist)
    (archPath : BuildArchPath) : Prop :=
  forall w, fst (os_Stat X (binaryFilenameOf X b archPath) w) <> None.

(** Nothing fails for a target: its binary exists, its directories can be
    made and its archive can be built. *)
Definition healthy {World : Type} (X : Externals World) (b : Archivist)
    (archive : Archive) (archPath : BuildArchPath) : Prop :=
  forall w,
    fst (ioh_RemoveAllMkdirAll X (outDirOf X b archPath) w) = None
    /\ fst (os_Stat X (binaryFilenameOf X b archPath) w) = None
    /\ fst (os_MkdirAll X (filepath_Dir X (outFilenameOf X b archive archPath)) w) = None
    /\ fst (archives_Build X (archive_ArchiveSettings archive)
              (buildRequestOf X b archive archPath) w) = None.

End Archivecmd.

(** ** cmd/releasecmd *)

Module Releasecmd.
Import Config.

Definition commandName : string := "release".

(** [releases.ReleaseInfo]. *)
Record ReleaseInfo := mkReleaseInfo {
  ri_Tag : string;
  ri_Commitish : string;
  Settings : ReleaseSettings
}.

(** [info.Settings.ReleaseNotesSettings.Filename = name]. *)
Definition setFilename (info : ReleaseInfo) (name : string) : ReleaseInfo :=
  let rs := Settings info in
  let rns := rs_ReleaseNotesSettings rs in
  mkReleaseInfo (ri_Tag info) (ri_Commitish info)
    (mkReleaseSettings (rs_Type rs) (TypeParsed rs)
       (mkReleaseNotesSettings (Generate rns) name (Groups rns))).

(** [changelog.Change] and [changelog.TitleChanges]. *)
Record Change := mkChange {
  Commit : string;
  Subject : string;
  Author : string;
  Username : string
}.

Record TitleChanges := mkTitleChanges {
  tc_Title : string;
  Changes : list Change
}.

(** A [releases.Client]: what [releases.NewClient] built for a provider, or
    [&releases.FakeClient{}]. *)
Inductive Client :=
| ProviderClient (id : nat)
| FakeClient.

Definition ReleaseID := Z.

(** [changelog.Options]; [ResolveUserName] is nil or the closure of lines
    213-215, which holds the client and the release info. *)
Record Options := mkOptions {
  o_Tag : string;
  o_Commitish : string;
  RepoPath : string;
  ResolveUserName : option (Client * ReleaseInfo)
}.

(** The context the release-notes template is executed on. *)
Record ReleaseNotesContext := mkReleaseNotesContext {
  ChangeGroups : list TitleChanges
}.

(** The calls the command makes on the outside. *)
Inductive Event :=
| EvStat (name : string)
| EvRemoveAll (dir : string)
| EvMkdirAll (dir : string)
| EvCreateChecksumLines (filenames : list string)
| EvCreate (name : string)
| EvWriteString (name line : string)
| EvTemplateExecute (name : string) (rnc : ReleaseNotesContext)
| EvFileClose (name : string)
| EvNewClient (typ : ReleaseType)
| EvGetenv (key : string)
| EvCollectChanges (opts : Options)
| EvRelease (client : Client) (info : ReleaseInfo)
| EvUpload (client : Client) (info : ReleaseInfo) (releaseID : ReleaseID)
    (filename : string).

(** What the command takes from the standard library and from the packages
    that are not among the sources.  An open file is named by the path it was
    created with. *)
Record Externals (World : Type) := mkExternals {
  filepath_Join : list string -> string;
  filepath_FromSlash : string -> string;
  fmt_q : string -> string;                       (* the [%q] verb *)
  FindReleases : Config -> Matcher -> list Release;
  releases_Validate : ReleaseType -> goerror;
  implementsUsernameResolver : Client -> bool;    (* [client.(releases.UsernameResolver)] *)
  os_Stat : string -> World -> goerror * World;
  os_RemoveAll : string -> World -> goerror * World;
  os_MkdirAll : string -> World -> goerror * World;
  os_Create : string -> World -> goerror * World;
  File_WriteString : string -> string -> World -> goerror * World;
  File_Close : string -> World -> goerror * World;
  os_Getenv : string -> World -> string * World;
  releases_CreateChecksumLines : list string -> World -> (error + list string) * World;
  releases_NewClient : ReleaseType -> World -> (error + Client) * World;
  changelog_CollectChanges : Options -> World -> (error + list Change) * World;
  GroupByFunc_err : list Change -> (Change -> string * bool) -> goerror;
                                    (* the error [changelog.GroupByFunc] returns *)
  ReleaseNotesTemplate_Execute :
    string -> ReleaseNotesContext -> World -> goerror * World;
  Client_Release : Client -> ReleaseInfo -> World -> (error + ReleaseID) * World;
  releases_UploadAssetsFileWithRetries :
    Client -> ReleaseInfo -> ReleaseID -> string -> World -> goerror * World
}.

Arguments filepath_Join {World}.
Arguments filepath_FromSlash {World}.
Arguments fmt_q {World}.
Arguments FindReleases {World}.
Arguments releases_Validate {World}.
Arguments implementsUsernameResolver {World}.
Arguments os_Stat {World}.
Arguments os_RemoveAll {World}.
Arguments os_MkdirAll {World}.
Arguments os_Create {World}.
Arguments File_WriteString {World}.
Arguments File_Close {World}.
Arguments os_Getenv {World}.
Arguments releases_CreateChecksumLines {World}.
Arguments releases_NewClient {World}.
Arguments changelog_CollectChanges {World}.
Arguments GroupByFunc_err {World}.
Arguments ReleaseNotesTemplate_Execute {World}.
Arguments Client_Release {World}.
Arguments releases_UploadAssetsFileWithRetries {World}.

(** A line feed, and [fmt]'s [%v] of a slice of strings. *)
Definition newline : string := String (Ascii.ascii_of_nat 10) EmptyString.

Definition fmt_v (l : list string) : string := "[" ++ String.concat " " l ++ "]".

(** *** Grouping the changes *)

(** Lines 230-240: the function handed to [changelog.GroupByFunc]. *)
Fixpoint groupOf (groups : list ReleaseNotesGroup) (change : Change) : string * bool :=
  match groups with
  | [] => ("", false)
  | g :: rest =>
      if RegexpCompiled g (Subject change)
      then (if Ignore g then ("", false) else (Title g, true))
      else groupOf rest change
  end.

(** Puts [change] at the end of the group titled [title], a new last group
    when there is none yet. *)
Fixpoint addChange (title : string) (change : Change) (g : list TitleChanges)
  : list TitleChanges :=
  match g with
  | [] => [mkTitleChanges title [change]]
  | tc :: rest =>
      if String.eqb (tc_Title tc) title
      then mkTitleChanges (tc_Title tc) (Changes tc ++ [change]) :: rest
      else tc :: addChange title change rest
  end.

(** Modelled from the spec: [changelog.GroupByFunc], which is not among the
    sources (section 4.5: a change goes to the group its title names and to
    no group when the function answers false; the groups come in the order in
    which they were first met, each with its changes in commit order).  The
    error that the function returns beside the groups is [GroupByFunc_err] of
    the outside. *)
Definition groupStep (f : Change -> string * bool) (g : list TitleChanges)
    (change : Change) : list TitleChanges :=
  match f change with
  | (title, true) => addChange title change g
  | (_, false) => g
  end.

Definition GroupByFunc (infos : list Change) (f : Change -> string * bool)
  : list TitleChanges :=
  fold_left (groupStep f) infos [].

(** Every member of a group was sent to it by [f]. *)
Definition groupsSound (f : Change -> string * bool) (g : list TitleChanges) : Prop :=
  forall tc c, In tc g -> In c (Changes tc) -> f c = (tc_Title tc, true).

Section Exec.

Context {World : Type} (X : Externals World) (core : Core) (commitish : string).

Local Open Scope go_scope.

(** A Go function that returns [(A, error)], run on the world. *)
Definition Run (A : Type) : Type := M World Event A.

(** [func (b *Releaser) Init() error]. *)
Fixpoint validateAll (releaseMatches : list Release) : goerror :=
  match releaseMatches with
  | [] => None
  | r :: rest =>
      match releases_Validate X (TypeParsed (r_ReleaseSettings r)) with
      | Some err => Some err
      | None => validateAll rest
      end
  end.

Definition Init : goerror :=
  if String.eqb commitish ""
  then Some (errorsNew (commandName ++ ": flag -commitish is required"))
  else
    let releaseMatches := FindReleases X (core_Config core) (PathsReleasesCompiled core) in
    if Nat.eqb (length releaseMatches) 0
    then Some (errorsNew (commandName ++ ": no releases found matching -paths "
                          ++ fmt_v (Paths core)))
    else validateAll releaseMatches.

(** Lines 108-114. *)
Definition releaseDirOf (release : Release) : string :=
  filepath_Join X
    [DistDir core; Project (core_Config core); Tag core; DistRootReleases core;
     filepath_FromSlash X (r_Path release)].

(** Lines 116-127. *)
Definition prepareReleaseDir (releaseDir : string) : Run unit :=
  err <- call (EvStat releaseDir) (os_Stat X releaseDir) ;;
  if isNil err || os_IsNotExist err then
    (if negb (os_IsNotExist err) then
       (* Start fresh. *)
       err <- call (EvRemoveAll releaseDir) (os_RemoveAll X releaseDir) ;;
       match err with
       | Some err =>
           throw (errorsNew (commandName ++ ": failed to remove release directory "
                             ++ fmt_q X releaseDir ++ ": " ++ errMsg err))
       | None => ret tt
       end
     else ret tt) ;;
    err <- call (EvMkdirAll releaseDir) (os_MkdirAll X releaseDir) ;;
    match err with
    | Some err =>
        throw (errorsNew (commandName ++ ": failed to create release directory "
                          ++ fmt_q X releaseDir ++ ": " ++ errMsg err))
    | None => ret tt
    end
  else ret tt.

(** Lines 129-147: the archive files the release's filter matches. *)
Definition archiveFilenamesOf (release : Release) : list string :=
  let filter := r_PathsCompiled release in
  flat_map
    (fun archive =>
       flat_map
         (fun archPath =>
            if negb (filter (bap_Path archPath)) then []
            else
              let archiveDir :=
                filepath_Join X
                  [DistDir core; Project (core_Config core); Tag core;
                   DistRootArchives core; filepath_FromSlash X (bap_Path archPath)] in
              [filepath_Join X [archiveDir; bap_Name archPath]])
         (ArchsCompiled archive))
    (Archives (core_Config core)).

(** The error of line 150. *)
Definition noFilesFound (release : Release) : error :=
  errorsNew (commandName ++ ": no files found for release " ++ fmt_q X (r_Path release)).

Definition checksumFilenameOf (releaseDir : string) : string :=
  filepath_Join X [releaseDir; "checksum.txt"].

(** Lines 163-178: the function that writes the checksum file. *)
Definition writeChecksumFile (checksumFilename : string) (checksumLines : list string)
  : Run unit :=
  err <- call (EvCreate checksumFilename) (os_Create X checksumFilename) ;;
  check err ;;
  defer (call (EvFileClose checksumFilename) (File_Close X checksumFilename))
    (forEach checksumLines
       (fun line =>
          err <- call (EvWriteString checksumFilename (line ++ newline))
                   (File_WriteString X checksumFilename (line ++ newline)) ;;
          check err)).

(** Lines 157-186: the checksum file is written and joins the files to
    upload. *)
Definition createChecksumFile (releaseDir : string) (archiveFilenames : list string)
  : Run (list string) :=
  res <- call (EvCreateChecksumLines archiveFilenames)
           (releases_CreateChecksumLines X archiveFilenames) ;;
  match res with
  | inl err => throw err
  | inr checksumLines =>
      let checksumFilename := checksumFilenameOf releaseDir in
      err <- asError (writeChecksumFile checksumFilename checksumLines) ;;
      match err with
      | Some err =>
          throw (errorsNew (commandName ++ ": failed to create checksum file "
                            ++ fmt_q X checksumFilename ++ ": " ++ errMsg err))
      | None => ret (archiveFilenames ++ [checksumFilename])%list
      end
  end.

(** Lines 190-196. *)
Definition newClient (release : Release) : Run Client :=
  res <- call (EvNewClient (TypeParsed (r_ReleaseSettings release)))
           (releases_NewClient X (TypeParsed (r_ReleaseSettings release))) ;;
  match res with
  | inl err =>
      throw (errorsNew (commandName ++ ": failed to create release client: " ++ errMsg err))
  | inr client =>
      ret (if Try core then FakeClient else client)
  end.

(** Lines 198-202. *)
Definition releaseInfoOf (release : Release) : ReleaseInfo :=
  mkReleaseInfo (Tag core) commitish (r_ReleaseSettings release).

Definition releaseNotesFilenameOf (releaseDir : string) : string :=
  filepath_Join X [releaseDir; "release-notes.md"].

(** The error of line 208. *)
Definition bothSet (release : Release) : error :=
  errorsNew (commandName
             ++ ": both GenerateReleaseNotes and ReleaseNotesFilename are set for release type "
             ++ fmt_q X (rs_Type (r_ReleaseSettings release))).

(** Lines 256-268: the function that writes the release notes. *)
Definition writeReleaseNotesFile (releaseNotesFilename : string)
    (rnc : ReleaseNotesContext) : Run unit :=
  err <- call (EvCreate releaseNotesFilename) (os_Create X releaseNotesFilename) ;;
  check err ;;
  defer (call (EvFileClose releaseNotesFilename) (File_Close X releaseNotesFilename))
    (err <- call (EvTemplateExecute releaseNotesFilename rnc)
              (ReleaseNotesTemplate_Execute X releaseNotesFilename rnc) ;;
     check err ;;
     ret tt).

(** Lines 204-276: the release notes, when they are to be generated; the
    result is [info] as it stands at line 278. *)
Definition generateReleaseNotes (releaseDir : string) (release : Release)
    (client : Client) (info : ReleaseInfo) : Run ReleaseInfo :=
  if Generate (rs_ReleaseNotesSettings (Settings info)) then
    if negb (String.eqb (Filename (rs_ReleaseNotesSettings (Settings info))) "")
    then throw (bothSet release)
    else
      let resolveUsername :=
        if implementsUsernameResolver X client then Some (client, info) else None in
      repoPath <- call (EvGetenv "HUGORELEASER_CHANGELOG_GITREPO")
                    (os_Getenv X "HUGORELEASER_CHANGELOG_GITREPO") ;;
      let opts := mkOptions (Tag core) commitish repoPath resolveUsername in
      res <- call (EvCollectChanges opts) (changelog_CollectChanges X opts) ;;
      match res with
      | inl err => throw err
      | inr infos =>
          let title := groupOf (Groups (rs_ReleaseNotesSettings (Settings info))) in
          let infosGrouped := GroupByFunc infos title in
          check (GroupByFunc_err X infos title) ;;
          let rnc := mkReleaseNotesContext infosGrouped in
          let releaseNotesFilename := releaseNotesFilenameOf releaseDir in
          let info := setFilename info releaseNotesFilename in
          err <- asError (writeReleaseNotesFile releaseNotesFilename rnc) ;;
          match err with
          | Some err =>
              throw (errorsNew (commandName ++ ": failed to create release notes file "
                                ++ fmt_q X releaseNotesFilename ++ ": " ++ errMsg err))
          | None => ret info
          end
      end
  else ret info.

(** Lines 288-298: the function handed to [r.Run] for one file. *)
Definition uploadTask (client : Client) (info : ReleaseInfo) (releaseID : ReleaseID)
    (archiveFilename : string) : Run unit :=
  err <- call (EvUpload client info releaseID archiveFilename)
           (releases_UploadAssetsFileWithRetries X client info releaseID archiveFilename) ;;
  check err ;;
  ret tt.

(** Lines 278-303: the release is created, then every file is uploaded. *)
Definition releaseAndUpload (client : Client) (info : ReleaseInfo)
    (archiveFilenames : list string) : Run unit :=
  res <- call (EvRelease client info) (Client_Release X client info) ;;
  match res with
  | inl err =>
      throw (errorsNew (commandName ++ ": failed to create release: " ++ errMsg err))
  | inr releaseID =>
      fun s =>
        let '(errs, s1) :=
          Workforce_run (core_Workforce core)
            (map (uploadTask client info releaseID) archiveFilenames) s in
        match firstError errs with
        | Some err =>
            (inl (errorsNew (commandName ++ ": failed to upload files: " ++ errMsg err)), s1)
        | None => (inr tt, s1)
        end
  end.

(** Lines 129-196 of the loop body: from the archive files to the client.
    [None] is the [continue] of line 154; otherwise the files to upload and
    the client. *)
Definition prepareFiles (release : Release) : Run (option (list string * Client)) :=
  let releaseDir := releaseDirOf release in
  let archiveFilenames := archiveFilenamesOf release in
  if Nat.eqb (length archiveFilenames) 0 then throw (noFilesFound release)
  else if Try core then ret None
  else
    archiveFilenames <- createChecksumFile releaseDir archiveFilenames ;;
    client <- newClient release ;;
    ret (Some (archiveFilenames, client)).

(** Lines 108-196: the release directory, then [prepareFiles]. *)
Definition prepareRelease (release : Release) : Run (option (list string * Client)) :=
  prepareReleaseDir (releaseDirOf release) ;;
  prepareFiles release.

(** Lines 198-303: the release notes, the release and the uploads, unless
    line 154 left the iteration. *)
Definition publish (release : Release) (prepared : option (list string * Client))
  : Run unit :=
  match prepared with
  | None => ret tt
  | Some (archiveFilenames, client) =>
      info <- generateReleaseNotes (releaseDirOf release) release client
                (releaseInfoOf release) ;;
      releaseAndUpload client info archiveFilenames
  end.

(** Lines 107-305: the body of the loop over [releaseMatches]. *)
Definition handleRelease (release : Release) : Run unit :=
  prepared <- prepareRelease release ;;
  publish release prepared.

(** [func (b *Releaser) Exec(ctx context.Context, args []string) error]. *)
Definition Exec : Run unit :=
  check Init ;;
  if Nat.eqb (length (Releases (core_Config core))) 0
  then throw (errorsNew (commandName ++ ": no releases defined in config"))
  else
    let releaseMatches := FindReleases X (core_Config core) (PathsReleasesCompiled core) in
    forEach releaseMatches handleRelease.

End Exec.

(** *** Reading a trace *)

(** The files created, the files uploaded and the clients a release was
    created with, in the order of the calls. *)
Definition createdFiles (t : list Event) : list string :=
  flat_map (fun ev => match ev with EvCreate name => [name] | _ => [] end) t.

Definition uploadedFiles (t : list Event) : list string :=
  flat_map (fun ev => match ev with EvUpload _ _ _ name => [name] | _ => [] end) t.

Definition releaseCalls (t : list Event) : list (Client * ReleaseInfo) :=
  flat_map (fun ev => match ev with EvRelease c i => [(c, i)] | _ => [] end) t.

(** A call that only looks at, removes or creates a directory. *)
Definition isDirEvent (ev : Event) : bool :=
  match ev with
  | EvStat _ | EvRemoveAll _ | EvMkdirAll _ => true
  | _ => false
  end.

(** A call that looks at, removes or creates the directory [dir]. *)
Definition onDir (dir : string) (ev : Event) : Prop :=
  match ev with
  | EvStat d | EvRemoveAll d | EvMkdirAll d => d = dir
  | _ => False
  end.

(** A call made before the release notes are looked at, where the only
    file touched is [checksumFilename]. *)
Definition beforeNotes (checksumFilename : string) (ev : Event) : Prop :=
  match ev with
  | EvStat _ | EvRemoveAll _ | EvMkdirAll _ | EvCreateChecksumLines _
  | EvNewClient _ => True
  | EvCreate name | EvWriteString name _ | EvFileClose name =>
      name = checksumFilename
  | _ => False
  end.

(** A call made after the directory is prepared and before the release
    notes are looked at. *)
Definition checksumOnly (checksumFilename : string) (ev : Event) : Prop :=
  beforeNotes checksumFilename ev /\ isDirEvent ev = false.

(** The call that creates the release, or an upload. *)
Definition isPublishEvent (ev : Event) : bool :=
  match ev with
  | EvRelease _ _ | EvUpload _ _ _ _ => true
  | _ => false
  end.

(** A call of the release-notes step on the notes file [name]: the
    environment, the changes, and the file itself. *)
Definition isNotesEvent (name : string) (ev : Event) : Prop :=
  match ev with
  | EvGetenv _ | EvCollectChanges _ => True
  | EvCreate n | EvTemplateExecute n _ | EvFileClose n => n = name
  | _ => False
  end.

(** A call that reaches the release provider. *)
Definition isRemoteEvent (ev : Event) : bool :=
  match ev with
  | EvNewClient _ | EvRelease _ _ | EvUpload _ _ _ _ => true
  | _ => false
  end.

(** The world after [lines] were written to the file [name], each with its
    line feed, one after the other from [w]. *)
Fixpoint afterWrites {World : Type} (X : Externals World) (name : string)
    (lines : list string) (w : World) : World :=
  match lines with
  | [] => w
  | line :: rest =>
      afterWrites X name rest (snd (File_WriteString X name (line ++ newline) w))
  end.

(** What the write of line [i] of [lines] answers, when the lines before it
    were written from [w]. *)
Definition writeAnswer {World : Type} (X : Externals World) (name : string)
    (lines : list string) (w : World) (i : nat) : goerror :=
  fst (File_WriteString X name (nth i lines "" ++ newline)
         (afterWrites X name (firstn i lines) w)).

End Releasecmd.

(** ** Concrete inputs

    Small archives, configurations and outside worlds on which the commands
    can be run; the examples below are stated on them. *)

Module Sim.
Import Config.

Definition dquote : string := String (Ascii.ascii_of_nat 34) EmptyString.

(** [filepath.Join] on clean, non-empty elements, and [%q] on text that needs
    no escape. *)
Definition join (elems : list string) : string := String.concat "/" elems.
Definition quote (s : string) : string := dquote ++ s ++ dquote.

(** *** An archive and source files *)

Definition hello : list Byte.byte := [Byte.x68; Byte.x65; Byte.x6c; Byte.x6c; Byte.x6f].

Definition helloInfo : Targz.FileInfo :=
  Targz.mkFileInfo "hugo" 5%Z Targz.ModeRegular 493%Z 1660000000%Z.

(** A regular file of five bytes, named [hugo] on disk. *)
Definition helloFile : Targz.File :=
  Targz.mkFile (inr helloInfo) hello None false [].

Definition healthySink : Targz.Sink := Targz.mkSink (fun _ => None) None None false.

Definition healthyArchive : Targz.Archive := Targz.New healthySink (fun _ => None).

(** A unix socket: [tar.FileInfoHeader] refuses it. *)
Definition socketFile : Targz.File :=
  Targz.mkFile (inr (Targz.mkFileInfo "hugo.sock" 0%Z Targz.ModeSocket 493%Z 1660000000%Z))
    [] None false [].

(** An archive whose tar writer cannot write its trailer: the sink refuses
    the writes that the first zero block brings. *)
Definition trailerFails (received : list Targz.Block) : goerror :=
  match rev received with
  | Targz.BlockTrailer :: _ => Some (errorsNew "tar: short write")
  | _ => None
  end.

Definition tarCloseFails : Targz.Archive :=
  Targz.New (Targz.mkSink trailerFails None None false) (fun _ => None).

(** *** The archive command: two targets, the binary of the second is absent *)

Definition linuxAmd64 : BuildArchPath :=
  mkBuildArchPath (mkBuildArch (mkOs "linux") "amd64" (mkBuildSettings "hugo"))
    "builds/linux/amd64" "hugo_linux_amd64.tar.gz".

Definition darwinArm64 : BuildArchPath :=
  mkBuildArchPath (mkBuildArch (mkOs "darwin") "arm64" (mkBuildSettings "hugo"))
    "builds/darwin/arm64" "hugo_darwin_arm64.tar.gz".

Definition tarGz : ArchiveSettings :=
  mkArchiveSettings "hugo" (fun name => name) (mkArchiveType ".tar.gz") "bin"
    [mkArchiveFileInfo "README.md" "README.md"].

Definition theArchive : Archive := mkArchive [linuxAmd64; darwinArm64] tarGz.

Definition theConfig (releases : list Release) : Config :=
  mkConfig "hugo" [theArchive] releases.

(** A pool that starts the tasks in the order of their submission and lets
    every one of them run, and a pool that starts the last submitted task
    first and cancels what is left after a failure. *)
Definition inOrder : Workforce := mkWorkforce (fun _ _ => 0) (fun _ => false).
Definition lastFirstCancelling : Workforce :=
  mkWorkforce (fun _ n => n) (fun _ => true).

Definition theCoreWith (pool : Workforce) (try : bool) (releases : list Release) : Core :=
  mkCore "dist" "/src/hugo" "v1.2.0" "archives" "builds" "releases" try []
    (fun _ => true) (theConfig releases) pool.

Definition theCore (try : bool) (releases : list Release) : Core :=
  theCoreWith inOrder try releases.

Definition archivistWith (pool : Workforce) : Archivecmd.Archivist :=
  Archivecmd.mkArchivist (theCoreWith pool false []) (Archivecmd.mkBuildPaths "/builds/**").

Definition archivist : Archivecmd.Archivist := archivistWith inOrder.

Definition permissionDenied : error := mkError "permission denied" false.

Definition noSuchFile : error := mkError "no such file or directory" true.

(** An outside on which every call succeeds, except [os.Stat] on the paths
    listed in [absent] and [ioh.RemoveAllMkdirAll] on the directories listed
    in [unwritable]. *)
Definition archiveXWith (absent unwritable : list string) : Archivecmd.Externals unit :=
  Archivecmd.mkExternals unit
    join (fun p => p) (fun p => p ++ "/..") join quote
    (fun template ctx =>
       template ++ "_" ++ Archivecmd.bc_Goos (Archivecmd.atc_BuildContext ctx)
       ++ "_" ++ Archivecmd.bc_Goarch (Archivecmd.atc_BuildContext ctx))
    (fun arch => Goos (arch_Os arch) ++ "_" ++ Goarch arch ++ "/"
                 ++ Binary (arch_BuildSettings arch))
    (fun _ => inr (fun _ => true))
    (fun dir w =>
       (if existsb (String.eqb dir) unwritable then Some permissionDenied else None, w))
    (fun name w =>
       (if existsb (String.eqb name) absent then Some noSuchFile else None, w))
    (fun _ w => (None, w))
    (fun _ _ w => (None, w)).

Definition archiveX (absent : list string) : Archivecmd.Externals unit :=
  archiveXWith absent [].

Definition darwinBinary : string := "dist/hugo/v1.2.0/builds/darwin_arm64/hugo".
Definition darwinOutDir : string := "dist/hugo/v1.2.0/archives/builds/darwin/arm64".

Definition start {Event : Type} : State unit Event := mkState tt [].

(** *** The release command: one release over the two archives *)

(** The pattern [^p]. *)
Definition hasPrefix (p : string) : Matcher :=
  fun s => String.eqb (String.substring 0 (String.length p) s) p.

Definition groups : list ReleaseNotesGroup :=
  [mkReleaseNotesGroup (hasPrefix "Merge") "Merges" true;
   mkReleaseNotesGroup (hasPrefix "fix") "Bug fixes" false;
   mkReleaseNotesGroup (fun _ => true) "Other changes" false].

Definition theRelease (generate : bool) (filename : string) (paths : Matcher) : Release :=
  mkRelease "main" paths
    (mkReleaseSettings "github" 1 (mkReleaseNotesSettings generate filename groups)).

Definition fixCrash : Releasecmd.Change :=
  Releasecmd.mkChange "a1b2c3" "fix: crash on empty config" "bep" "".
Definition mergeMain : Releasecmd.Change :=
  Releasecmd.mkChange "d4e5f6" "Merge branch main" "bep" "".
Definition fixTypo : Releasecmd.Change :=
  Releasecmd.mkChange "0a9b8c" "fix typo in a fix for Merge" "jmooring" "".
Definition addDocs : Releasecmd.Change :=
  Releasecmd.mkChange "778899" "docs: describe the archive settings" "jmooring" "".

Definition changes : list Releasecmd.Change := [fixCrash; mergeMain; fixTypo; addDocs].

(** An outside on which every call succeeds, except that [os.Stat] answers
    what [statErr] says. *)
Definition releaseX (statErr : string -> goerror) : Releasecmd.Externals unit :=
  Releasecmd.mkExternals unit
    join (fun p => p) quote
    (fun c filter => List.filter (fun r => filter (r_Path r)) (Releases c))
    (fun _ => None)
    (fun _ => false)
    (fun name w => (statErr name, w))
    (fun _ w => (None, w))
    (fun _ w => (None, w))
    (fun _ w => (None, w))
    (fun _ _ w => (None, w))
    (fun _ w => (None, w))
    (fun _ w => ("", w))
    (fun filenames w => (inr (map (fun name => "0f1e2d  " ++ name) filenames), w))
    (fun typ w => (inr (Releasecmd.ProviderClient typ), w))
    (fun _ w => (inr changes, w))
    (fun _ _ => None)
    (fun _ _ w => (None, w))
    (fun _ _ w => (inr 42%Z, w))
    (fun _ _ _ _ w => (None, w)).

(** A release of an unknown type, and an outside whose [releases.Validate]
    refuses it. *)
Definition strangeRelease : Release :=
  mkRelease "nightly" (fun _ => true)
    (mkReleaseSettings "gitlab" 7 (mkReleaseNotesSettings false "" [])).

Definition unknownType : error := errorsNew "release: unsupported release type".

Definition strictX : Releasecmd.Externals unit :=
  let X := releaseX (fun _ => None) in
  Releasecmd.mkExternals unit
    (Releasecmd.filepath_Join X) (Releasecmd.filepath_FromSlash X) (Releasecmd.fmt_q X)
    (Releasecmd.FindReleases X)
    (fun typ => if Nat.eqb typ 1 then None else Some unknownType)
    (Releasecmd.implementsUsernameResolver X)
    (Releasecmd.os_Stat X) (Releasecmd.os_RemoveAll X) (Releasecmd.os_MkdirAll X)
    (Releasecmd.os_Create X) (Releasecmd.File_WriteString X) (Releasecmd.File_Close X)
    (Releasecmd.os_Getenv X) (Releasecmd.releases_CreateChecksumLines X)
    (Releasecmd.releases_NewClient X) (Releasecmd.changelog_CollectChanges X)
    (Releasecmd.GroupByFunc_err X)
    (Releasecmd.ReleaseNotesTemplate_Execute X) (Releasecmd.Client_Release X)
    (Releasecmd.releases_UploadAssetsFileWithRetries X).

Definition releaseDir : string := "dist/hugo/v1.2.0/releases/main".
Definition linuxArchive : string :=
  "dist/hugo/v1.2.0/archives/builds/linux/amd64/hugo_linux_amd64.tar.gz".
Definition darwinArchive : string :=
  "dist/hugo/v1.2.0/archives/builds/darwin/arm64/hugo_darwin_arm64.tar.gz".

End Sim.

(** * Properties *)

(** ** The archive writer *)

Section TargzFacts.
Import Targz.

Lemma rev_snoc_entries (es : list Entry) (e : Entry) :
  rev (es ++ [e]) = e :: rev es.
Proof. now rewrite rev_app_distr. Qed.

Lemma appendBody_snoc (es : list Entry) (e : Entry) (b : list Byte.byte) :
  appendBody (es ++ [e]) b = (es ++ [mkEntry (e_header e) (e_body e ++ b)])%list.
Proof.
  unfold appendBody. rewrite rev_snoc_entries. now rewrite rev_involutive.
Qed.

Lemma grows_refl (g : GzipWriter) : grows g g.
Proof. repeat split. exists []. now rewrite app_nil_r. Qed.

Lemma grows_trans (g g1 g2 : GzipWriter) : grows g g1 -> grows g1 g2 -> grows g g2.
Proof.
  intros (Hw & Hc & b1 & Hr) (Hw2 & Hc2 & b2 & Hr2).
  split; [congruence|]. split; [congruence|].
  exists (b1 ++ b2)%list. now rewrite Hr2, Hr, app_assoc.
Qed.

(** A write that the gzip writer accepts: it was open and without error,
    and the block is the last one it has taken in. *)
Lemma gw_Write_ok (g g1 : GzipWriter) (blk : Block) :
  gw_Write g blk = (None, g1) ->
  gw_err g = None /\ gw_closed g = false
  /\ out_writeErr (gw_w g) (gw_received g ++ [blk]) = None
  /\ g1 = mkGzipWriter (gw_w g) (gw_received g ++ [blk]) None false.
Proof.
  unfold gw_Write.
  destruct (gw_err g); [discriminate|].
  destruct (gw_closed g); [discriminate|].
  destruct (out_writeErr (gw_w g) (gw_received g ++ [blk])); [discriminate|].
  intros H; inversion H; auto.
Qed.

Lemma gw_Write_grows (g : GzipWriter) (blk : Block) : grows g (snd (gw_Write g blk)).
Proof.
  assert (Hset : forall e, grows g (gw_setErr g e)).
  { intros e. repeat split. exists []. cbn. now rewrite app_nil_r. }
  unfold gw_Write.
  destruct (gw_err g); [apply grows_refl|].
  destruct (gw_closed g) eqn:Hc; [apply Hset|].
  destruct (out_writeErr (gw_w g) (gw_received g ++ [blk])); [apply Hset|].
  cbn. split; [reflexivity|]. split; [now rewrite Hc|]. now exists [blk].
Qed.

(** Whatever [Flush] returns, the entries are as they were. *)
Lemma tw_Flush_shape (t : TarWriter) :
  tw_entries (snd (tw_Flush t)) = tw_entries t
  /\ tw_refuses (snd (tw_Flush t)) = tw_refuses t
  /\ grows (tw_w t) (tw_w (snd (tw_Flush t))).
Proof.
  unfold tw_Flush. destruct (tw_err t); [cbn; auto using grows_refl|].
  destruct (0 <? remaining (tw_entries t))%Z; [cbn; auto using grows_refl|].
  pose proof (gw_Write_grows (tw_w t) (BlockPadding (tw_pad t))) as Hg.
  destruct (gw_Write (tw_w t) (BlockPadding (tw_pad t))) as [[e|] g]; cbn in *; auto.
Qed.

(** A flush that succeeds: the writer was open with its last entry
    complete, and the padding went to the stream. *)
Lemma tw_Flush_ok (t t1 : TarWriter) :
  tw_Flush t = (None, t1) ->
  tw_state t = TwOpen
  /\ (remaining (tw_entries t) <= 0)%Z
  /\ gw_Write (tw_w t) (BlockPadding (tw_pad t)) = (None, tw_w t1)
  /\ t1 = tw_set t (tw_w t1) (tw_entries t) 0%Z TwOpen.
Proof.
  unfold tw_Flush, tw_err. destruct (tw_state t); [|discriminate|discriminate].
  destruct (0 <? remaining (tw_entries t))%Z eqn:Hr; [discriminate|].
  apply Z.ltb_ge in Hr.
  destruct (gw_Write (tw_w t) (BlockPadding (tw_pad t))) as [[e|] g]; [discriminate|].
  intros H; inversion H; subst; cbn. auto.
Qed.

(** A header that [WriteHeader] accepts begins an entry with an empty body,
    on an open writer. *)
Lemma tw_WriteHeader_ok (t t1 : TarWriter) (h : Header) :
  tw_WriteHeader t h = (None, t1) ->
  tw_entries t1 = (tw_entries t ++ [mkEntry h []])%list
  /\ tw_state t1 = TwOpen
  /\ allowedFormats t h = None.
Proof.
  unfold tw_WriteHeader.
  pose proof (tw_Flush_shape t) as (He & Hrf & _).
  destruct (tw_Flush t) as [[e|] t0]; [discriminate|]. cbn in He, Hrf.
  assert (Ha : allowedFormats t0 h = allowedFormats t h).
  { unfold allowedFormats. now rewrite Hrf. }
  rewrite Ha. destruct (allowedFormats t h); [discriminate|].
  unfold writeRawHeader.
  pose proof (tw_Flush_shape t0) as (He0 & _ & _).
  destruct (tw_Flush t0) as [[e|] t2]; [discriminate|]. cbn in He0.
  destruct (gw_Write (tw_w t2) (BlockHeader h)) as [[e|] g]; [discriminate|].
  intros H; inversion H; subst; cbn. rewrite He0, He. auto.
Qed.

(** Whatever [WriteHeader] returns, the entries are as they were or one
    entry with an empty body was begun, and the stream only grew. *)
Lemma tw_WriteHeader_shape (t : TarWriter) (h : Header) :
  (tw_entries (snd (tw_WriteHeader t h)) = tw_entries t
   \/ fst (tw_WriteHeader t h) = None)
  /\ grows (tw_w t) (tw_w (snd (tw_WriteHeader t h))).
Proof.
  unfold tw_WriteHeader.
  pose proof (tw_Flush_shape t) as (He & _ & Hg).
  destruct (tw_Flush t) as [[e|] t0]; cbn in *; [auto|].
  destruct (allowedFormats t0 h); cbn; [auto|].
  unfold writeRawHeader.
  pose proof (tw_Flush_shape t0) as (He0 & _ & Hg0).
  destruct (tw_Flush t0) as [[e|] t2]; cbn in *.
  { split; [left; congruence|]. eapply grows_trans; eauto. }
  pose proof (gw_Write_grows (tw_w t2) (BlockHeader h)) as Hg2.
  destruct (gw_Write (tw_w t2) (BlockHeader h)) as [[e|] g]; cbn in *.
  - split; [left; congruence|]. eauto using grows_trans.
  - split; [now right|]. eauto using grows_trans.
Qed.

(** Writing to an entry just begun puts a prefix of the bytes in its body. *)
Lemma tw_Write_fresh (t : TarWriter) (es : list Entry) (h : Header) (b : list Byte.byte) :
  tw_entries t = (es ++ [mkEntry h []])%list ->
  (exists k, tw_entries (snd (tw_Write t b)) = (es ++ [mkEntry h (firstn k b)])%list)
  /\ grows (tw_w t) (tw_w (snd (tw_Write t b))).
Proof.
  intros Hes. unfold tw_Write.
  destruct (tw_err t); [cbn; split; [now exists 0|apply grows_refl]|].
  cbv zeta.
  assert (Hb' : exists k, (if (remaining (tw_entries t) <? len b)%Z
                           then firstn (Z.to_nat (remaining (tw_entries t))) b else b)
                          = firstn k b).
  { destruct (remaining (tw_entries t) <? len b)%Z; [eauto|].
    exists (length b). now rewrite firstn_all. }
  destruct Hb' as (k & Hk). rewrite Hk.
  destruct (firstn k b) as [|x c] eqn:Hb; [cbn; split; [now exists 0|apply grows_refl]|].
  pose proof (gw_Write_grows (tw_w t) (BlockData (x :: c))) as Hg.
  destruct (gw_Write (tw_w t) (BlockData (x :: c))) as [[e|] g]; cbn in *.
  - split; [now exists 0|exact Hg].
  - split; [|exact Hg]. exists k. rewrite Hes, appendBody_snoc. cbn. now rewrite Hb.
Qed.

(** A write that reports no error has put every byte in the entry in
    progress. *)
Lemma tw_Write_ok (t t1 : TarWriter) (b : list Byte.byte) (n : Z) :
  tw_Write t b = ((n, None), t1) ->
  tw_entries t1 = appendBody (tw_entries t) b \/ (b = [] /\ t1 = t).
Proof.
  unfold tw_Write. destruct (tw_err t); [discriminate|].
  destruct (remaining (tw_entries t) <? len b)%Z.
  - destruct (firstn (Z.to_nat (remaining (tw_entries t))) b); [discriminate|].
    destruct (gw_Write _ _) as [[e|] g]; discriminate.
  - destruct b as [|x b]; [intros H; inversion H; auto|].
    destruct (gw_Write _ _) as [[e|] g]; [discriminate|].
    intros H; inversion H; subst; cbn. auto.
Qed.

(** A copy that reports no error has written every byte of the file to the
    entry in progress. *)
Lemma io_Copy_ok (t t2 : TarWriter) (f f2 : File) (es : list Entry) (e : Entry) (n : Z) :
  tw_entries t = (es ++ [e])%list ->
  io_Copy t f = ((n, None), t2, f2) ->
  tw_entries t2 = (es ++ [mkEntry (e_header e) (e_body e ++ f_data f)])%list
  /\ f2 = logOp f OpRead.
Proof.
  intros Hes. unfold io_Copy, File_ReadAll.
  destruct (f_data f) as [|x d] eqn:Hd.
  - intros H; inversion H; subst. rewrite Hes, app_nil_r. now destruct e.
  - destruct (tw_Write t (x :: d)) as [[n' [err|]] t1] eqn:Hw; [discriminate|].
    destruct (f_readErr f); [discriminate|].
    intros H; inversion H; subst.
    apply tw_Write_ok in Hw. destruct Hw as [Hw|[Hw _]]; [|discriminate].
    rewrite Hw, Hes, appendBody_snoc. auto.
Qed.

(** The copy reads the file once, whatever it returns. *)
Lemma io_Copy_file (t : TarWriter) (f : File) :
  snd (io_Copy t f) = logOp f OpRead.
Proof.
  unfold io_Copy, File_ReadAll. destruct (f_data f); [reflexivity|].
  now destruct (tw_Write t _) as [[n [e|]] t1].
Qed.

(** A close of the tar writer that reports no error leaves the gzip writer
    on its sink, open or closed as it was, with the answer it had for its own
    close. *)
Lemma TarWriter_Close_ok (t t1 : TarWriter) :
  TarWriter_Close t = (None, t1) ->
  gw_w (tw_w t1) = gw_w (tw_w t)
  /\ gw_closeErr (tw_w t1) = gw_closeErr (tw_w t).
Proof.
  unfold TarWriter_Close. destruct (tw_state t) eqn:Hst.
  - destruct (tw_Flush t) as [[e|] t0] eqn:Hf.
    { intros H; inversion H. }
    apply tw_Flush_ok in Hf. destruct Hf as (_ & _ & Hp & _).
    apply gw_Write_ok in Hp. destruct Hp as (He & Hc & _ & Hg). rewrite Hg.
    unfold writeTrailer.
    destruct (gw_Write _ BlockTrailer) as [[e|] g1] eqn:H1; [intros H; inversion H|].
    destruct (gw_Write g1 BlockTrailer) as [err g2] eqn:H2.
    intros H; inversion H; subst; cbn.
    apply gw_Write_ok in H1. destruct H1 as (_ & _ & _ & ->).
    apply gw_Write_ok in H2. destruct H2 as (_ & _ & _ & ->). cbn.
    unfold gw_closeErr, GzipWriter_Close. cbn. now rewrite He, Hc.
  - intros H; inversion H; auto.
  - discriminate.
Qed.

End TargzFacts.

(** C8. When [AddAndClose(targetPath, f)] returns nil, exactly one entry has
    been added to the archive: its header is the one [tar.FileInfoHeader]
    builds from the file's metadata with [targetPath] as its name, whatever
    the name of the file on disk, and its body is the content of the file,
    byte for byte. *)
Theorem AddAndClose_entry (a a1 : Targz.Archive) (targetPath : string) (f f1 : Targz.File) :
  Targz.AddAndClose a targetPath f = (None, a1, f1) ->
  exists info header,
    Targz.f_statResult f = inr info
    /\ Targz.FileInfoHeader info "" = inr header
    /\ Targz.tw_entries (Targz.tw a1)
       = (Targz.tw_entries (Targz.tw a)
          ++ [Targz.mkEntry (Targz.setName header targetPath) (Targz.f_data f)])%list
    /\ Targz.h_Name (Targz.setName header targetPath) = targetPath.
Proof.
  unfold Targz.AddAndClose, Targz.addBody, Targz.File_Stat.
  destruct (Targz.f_statResult f) as [e|info] eqn:Hst; [discriminate|].
  destruct (Targz.FileInfoHeader info "") as [e|header] eqn:Hh; [discriminate|].
  destruct (Targz.tw_WriteHeader (Targz.tw a) (Targz.setName header targetPath))
    as [[e|] t1] eqn:Hwh; [discriminate|].
  destruct (Targz.io_Copy t1 (Targz.logOp f Targz.OpStat)) as [[[n [e|]] t2] f2] eqn:Hcp;
    [discriminate|].
  intros H; inversion H; subst; clear H.
  apply tw_WriteHeader_ok in Hwh. destruct Hwh as (Hes & _ & _).
  eapply io_Copy_ok in Hcp; [|exact Hes]. destruct Hcp as (Hes2 & _).
  exists info, header. cbn in *. rewrite Hes2. auto.
Qed.

(** Adding the five-byte file [hugo] under the name [bin/hugo-linux] to an
    empty archive. *)
Lemma AddAndClose_entry_witness :
  exists info header,
    Targz.f_statResult Sim.helloFile = inr info
    /\ Targz.FileInfoHeader info "" = inr header
    /\ Targz.tw_entries (Targz.tw (snd (fst (Targz.AddAndClose Sim.healthyArchive "bin/hugo-linux" Sim.helloFile))))
       = (Targz.tw_entries (Targz.tw Sim.healthyArchive)
          ++ [Targz.mkEntry (Targz.setName header "bin/hugo-linux") (Targz.f_data Sim.helloFile)])%list
    /\ Targz.h_Name (Targz.setName header "bin/hugo-linux") = "bin/hugo-linux".
Proof.
  apply (AddAndClose_entry Sim.healthyArchive _ "bin/hugo-linux" Sim.helloFile
           (snd (Targz.AddAndClose Sim.healthyArchive "bin/hugo-linux" Sim.helloFile))).
  reflexivity.
Defined.

(** C9. Whatever [AddAndClose(targetPath, f)] returns, and wherever its body
    stopped (at [Stat], at the header, at [WriteHeader], in the copy, or at
    its end), the source file has been closed when the call returns: [Close]
    is the last call made on the handle, and the only close. *)
Theorem AddAndClose_closes_file (a : Targz.Archive) (targetPath : string) (f : Targz.File) :
  let f1 := snd (Targz.AddAndClose a targetPath f) in
  Targz.f_closed f1 = true
  /\ exists ops,
       Targz.f_ops f1 = (Targz.f_ops f ++ ops ++ [Targz.OpClose])%list
       /\ ~ In Targz.OpClose ops.
Proof.
  assert (Hstop : forall f0 : Targz.File,
             Targz.f_closed (Targz.File_Close (Targz.logOp f0 Targz.OpStat)) = true
             /\ exists ops,
                  Targz.f_ops (Targz.File_Close (Targz.logOp f0 Targz.OpStat))
                  = (Targz.f_ops f0 ++ ops ++ [Targz.OpClose])%list
                  /\ ~ In Targz.OpClose ops).
  { intros f0. split; [reflexivity|]. exists [Targz.OpStat]. cbn. rewrite <- app_assoc.
    split; [reflexivity|]. intros [H|[]]; discriminate. }
  unfold Targz.AddAndClose, Targz.addBody, Targz.File_Stat.
  destruct (Targz.f_statResult f) as [e|info]; [apply Hstop|].
  destruct (Targz.FileInfoHeader info "") as [e|header]; [apply Hstop|].
  destruct (Targz.tw_WriteHeader (Targz.tw a) (Targz.setName header targetPath))
    as [[e|] t1]; [apply Hstop|].
  pose proof (io_Copy_file t1 (Targz.logOp f Targz.OpStat)) as Hf.
  destruct (Targz.io_Copy t1 (Targz.logOp f Targz.OpStat)) as [[[n err] t2] f2].
  cbn in Hf. subst f2.
  destruct err as [e|]; cbn.
  all: split; [reflexivity|]; exists [Targz.OpStat; Targz.OpRead];
    rewrite <- !app_assoc; cbn;
    (split; [reflexivity|]; intros [H|[H|[]]]; discriminate).
Qed.

(** C2, as the code has it.  [Finalize] closes the tar writer, then the gzip
    writer, then the output sink, and stops at the first close that fails:
    the closes after a failed one are not attempted.  The error returned is
    that of the first close that failed, nil when the three succeeded. *)
Theorem Finalize_stops_at_first_failure (a : Targz.Archive) :
  fst (Targz.Finalize a)
  = firstError [Targz.tw_closeErr (Targz.tw a); Targz.gw_closeErr (Targz.gw a);
                Targz.out_closeErr (Targz.out a)]
  /\ Targz.closeLog (snd (Targz.Finalize a))
     = (Targz.closeLog a
        ++ match Targz.tw_closeErr (Targz.tw a), Targz.gw_closeErr (Targz.gw a) with
           | Some _, _ => [Targz.LayerTar]
           | None, Some _ => [Targz.LayerTar; Targz.LayerGzip]
           | None, None => [Targz.LayerTar; Targz.LayerGzip; Targz.LayerOut]
           end)%list.
Proof.
  unfold Targz.Finalize, Targz.tw_Close, Targz.tw_closeErr.
  destruct (Targz.TarWriter_Close (Targz.tw a)) as [[e|] t1] eqn:Hclose; cbn [fst];
    [cbn; auto|].
  apply TarWriter_Close_ok in Hclose. destruct Hclose as (Hw & Hg).
  unfold Targz.gw_Close.
  change (Targz.gw (Targz.logClose (Targz.setTw a t1) Targz.LayerTar))
    with (Targz.tw_w t1).
  fold (Targz.gw a) in Hw, Hg. rewrite <- Hg. unfold Targz.gw_closeErr.
  assert (Hsink : Targz.gw_w (snd (Targz.GzipWriter_Close (Targz.tw_w t1)))
                  = Targz.gw_w (Targz.tw_w t1)).
  { unfold Targz.GzipWriter_Close. destruct (Targz.gw_err (Targz.tw_w t1)); [reflexivity|].
    now destruct (Targz.gw_closed (Targz.tw_w t1)). }
  destruct (Targz.GzipWriter_Close (Targz.tw_w t1)) as [[e|] g1]; cbn [fst snd] in *.
  - cbn. now rewrite <- app_assoc.
  - unfold Targz.out_Close.
    change (Targz.out (Targz.logClose
                         (Targz.setGw (Targz.logClose (Targz.setTw a t1) Targz.LayerTar) g1)
                         Targz.LayerGzip))
      with (Targz.gw_w g1).
    rewrite Hsink, Hw. fold (Targz.out a).
    destruct (Targz.out_closeErr (Targz.out a)); cbn; now rewrite <- !app_assoc.
Qed.

(** C2, as it is worded, fails: when the close of the tar writer fails,
    [Finalize] returns at once; the gzip writer and the output sink are left
    open, so the three closes have not all been attempted. *)
Lemma Finalize_leaves_layers_open :
  fst (Targz.Finalize Sim.tarCloseFails) = Some (errorsNew "tar: short write")
  /\ Targz.closeLog (snd (Targz.Finalize Sim.tarCloseFails)) = [Targz.LayerTar]
  /\ ~ In Targz.LayerGzip (Targz.closeLog (snd (Targz.Finalize Sim.tarCloseFails)))
  /\ ~ In Targz.LayerOut (Targz.closeLog (snd (Targz.Finalize Sim.tarCloseFails)))
  /\ Targz.gw_closed (Targz.gw (snd (Targz.Finalize Sim.tarCloseFails))) = false
  /\ Targz.out_closed (Targz.out (snd (Targz.Finalize Sim.tarCloseFails))) = false.
Proof.
  cbn. repeat split; try reflexivity; intros [H|[]]; discriminate.
Qed.


(** ** The worker pool *)

Section PoolFacts.

Context {World Event : Type}.

Lemma extends_refl (s : State World Event) : extends s s.
Proof. exists []. now rewrite app_nil_r. Qed.

Lemma extends_trans (s s1 s2 : State World Event) :
  extends s s1 -> extends s1 s2 -> extends s s2.
Proof.
  intros [e1 H1] [e2 H2]. exists (e1 ++ e2)%list.
  now rewrite H2, H1, app_assoc.
Qed.

Lemma extends_In (s s1 : State World Event) (ev : Event) :
  extends s s1 -> In ev (trace s) -> In ev (trace s1).
Proof. intros [e H] Hin. rewrite H. apply in_or_app. now left. Qed.

Lemma runInOrder_cons (t : M World Event unit) (r : list (M World Event unit)) (s : State World Event) :
  runInOrder (t :: r) s
  = (match fst (t s) with inl e => Some e | inr _ => None end
       :: fst (runInOrder r (snd (t s))),
     snd (runInOrder r (snd (t s)))).
Proof.
  cbn. destruct (t s) as [[e|u] s1]; cbn;
    now destruct (runInOrder r s1).
Qed.

(** The pool runs every task and only adds to the trace. *)
Lemma runInOrder_extends (tasks : list (M World Event unit)) :
  (forall t, In t tasks -> forall s, extends s (snd (t s))) ->
  forall s, extends s (snd (runInOrder tasks s)).
Proof.
  induction tasks as [|t r IH]; intros Hmono s.
  - apply extends_refl.
  - rewrite runInOrder_cons; cbn [snd].
    eapply extends_trans; [apply Hmono; now left|].
    apply IH. intros t' Hin. apply Hmono. now right.
Qed.

(** A call that a task always makes is in the trace of the pool, whatever
    the other tasks returned. *)
Lemma runInOrder_emits (tasks : list (M World Event unit)) (t : M World Event unit) (ev : Event) :
  (forall t', In t' tasks -> forall s, extends s (snd (t' s))) ->
  In t tasks ->
  (forall s, In ev (trace (snd (t s)))) ->
  forall s, In ev (trace (snd (runInOrder tasks s))).
Proof.
  induction tasks as [|t0 r IH]; intros Hmono Hin Hev s; [destruct Hin|].
  rewrite runInOrder_cons; cbn [snd].
  destruct Hin as [->|Hin].
  - eapply extends_In; [|apply Hev].
    apply runInOrder_extends. intros t' Hin. apply Hmono. now right.
  - apply IH; auto. intros t' Hin'. apply Hmono. now right.
Qed.

(** If one task always fails, [Wait] returns an error. *)
Lemma runInOrder_fails (tasks : list (M World Event unit)) (t : M World Event unit) :
  In t tasks ->
  (forall s, exists e, fst (t s) = inl e) ->
  forall s, firstError (fst (runInOrder tasks s)) <> None.
Proof.
  induction tasks as [|t0 r IH]; intros Hin Hfail s; [destruct Hin|].
  rewrite runInOrder_cons; cbn [fst firstError].
  destruct (fst (t0 s)) as [e|u] eqn:Ht0; [discriminate|].
  destruct Hin as [->|Hin].
  - destruct (Hfail s) as [e He]. congruence.
  - now apply IH.
Qed.

(** If every task returns nil, so does [Wait]. *)
Lemma runInOrder_all_nil (tasks : list (M World Event unit)) :
  (forall t, In t tasks -> forall s, fst (t s) = inr tt) ->
  forall s, firstError (fst (runInOrder tasks s)) = None.
Proof.
  induction tasks as [|t r IH]; intros Hok s; [reflexivity|].
  rewrite runInOrder_cons; cbn [fst firstError].
  rewrite (Hok t (or_introl eq_refl) s). apply IH.
  intros t' Hin. apply Hok. now right.
Qed.

Lemma extract_perm {A : Type} (i : nat) (x : A) (l : list A) :
  Permutation (x :: l) (fst (extract i x l) :: snd (extract i x l)).
Proof.
  revert x l. induction i as [|i IH]; intros x l; [reflexivity|].
  destruct l as [|y l']; [reflexivity|]. cbn.
  specialize (IH y l'). destruct (extract i y l') as [t r]. cbn in *.
  transitivity (x :: t :: r); [now apply perm_skip|apply perm_swap].
Qed.

Lemma extract_length {A : Type} (i : nat) (x : A) (l : list A) :
  length (snd (extract i x l)) = length l.
Proof.
  revert x l. induction i as [|i IH]; intros x l; [reflexivity|].
  destruct l as [|y l']; [reflexivity|]. cbn.
  specialize (IH y l'). destruct (extract i y l') as [t r]. cbn in *. now rewrite IH.
Qed.

(** What the pool does is to run some of the tasks one after the other, in
    an order of its own; tasks are dropped only after a failure, and never by
    a pool that never cancels. *)
Lemma poolLoop_schedule (pool : Workforce) (fuel : nat) :
  forall (waiting : list (M World Event unit)) (results : list goerror)
         (s : State World Event),
    length waiting <= fuel ->
    exists ran dropped,
      Permutation waiting (ran ++ dropped)
      /\ poolLoop pool fuel waiting results s
         = ((results ++ fst (runInOrder ran s))%list, snd (runInOrder ran s))
      /\ (dropped <> [] -> firstError (results ++ fst (runInOrder ran s)) <> None)
      /\ (neverCancels pool -> dropped = []).
Proof.
  induction fuel as [|fuel IH]; intros waiting results s Hlen.
  - destruct waiting as [|x l]; [|cbn in Hlen; lia].
    exists [], []. cbn. rewrite app_nil_r.
    split; [reflexivity|]. split; [reflexivity|]. split; [congruence|auto].
  - destruct waiting as [|x l].
    + exists [], []. cbn. rewrite app_nil_r.
      split; [reflexivity|]. split; [reflexivity|]. split; [congruence|auto].
    + cbn [poolLoop].
      destruct (negb (isNil (firstError results)) && cancels pool results) eqn:Hc.
      * exists [], (x :: l). cbn. rewrite app_nil_r.
        apply andb_prop in Hc. destruct Hc as (Hf & Hcan).
        split; [reflexivity|]. split; [reflexivity|]. split.
        -- intros _ Hn. rewrite Hn in Hf. discriminate.
        -- intros Hnever. rewrite Hnever in Hcan. discriminate.
      * pose proof (extract_perm (pick pool results (length (x :: l))) x l) as Hp.
        pose proof (extract_length (pick pool results (length (x :: l))) x l) as Hl.
        destruct (extract (pick pool results (length (x :: l))) x l) as [t rest].
        cbn [fst snd] in *.
        destruct (IH rest
                    (results ++ [match fst (t s) with inl e => Some e | inr _ => None end])%list
                    (snd (t s))) as (ran & dropped & Hperm & Hrun & Hdrop & Hnever).
        { cbn in Hlen. lia. }
        exists (t :: ran), dropped.
        rewrite runInOrder_cons. cbn [fst snd].
        rewrite <- app_assoc in Hrun, Hdrop. cbn [app] in Hrun, Hdrop.
        split; [|split; [|split]]; auto.
        -- rewrite Hp. cbn. now apply perm_skip.
        -- destruct (t s) as [[e|u] s1]; cbn [fst snd] in *; exact Hrun.
Qed.

Lemma Workforce_run_schedule (pool : Workforce) (tasks : list (M World Event unit))
    (s : State World Event) :
  exists ran dropped,
    Permutation tasks (ran ++ dropped)
    /\ Workforce_run pool tasks s = runInOrder ran s
    /\ (dropped <> [] -> firstError (fst (runInOrder ran s)) <> None)
    /\ (neverCancels pool -> dropped = []).
Proof.
  destruct (poolLoop_schedule pool (length tasks) tasks [] s (le_n _))
    as (ran & dropped & Hperm & Hrun & Hdrop & Hnever).
  exists ran, dropped. cbn [app] in *. split; [exact Hperm|]. split; [|auto].
  unfold Workforce_run. rewrite Hrun. now destruct (runInOrder ran s).
Qed.

(** When [Wait] returns nil, every task was run. *)
Lemma Workforce_run_nil (pool : Workforce) (tasks : list (M World Event unit))
    (s : State World Event) :
  firstError (fst (Workforce_run pool tasks s)) = None ->
  exists ran, Permutation tasks ran /\ Workforce_run pool tasks s = runInOrder ran s.
Proof.
  intros Hnil.
  destruct (Workforce_run_schedule pool tasks s) as (ran & dropped & Hperm & Hrun & Hdrop & _).
  rewrite Hrun in Hnil. destruct dropped as [|d dropped].
  - rewrite app_nil_r in Hperm. eauto.
  - exfalso. apply Hdrop; [discriminate|exact Hnil].
Qed.

(** A task that always fails makes [Wait] return an error, with any pool. *)
Lemma Workforce_run_fails (pool : Workforce) (tasks : list (M World Event unit))
    (t : M World Event unit) :
  In t tasks ->
  (forall s, exists e, fst (t s) = inl e) ->
  forall s, firstError (fst (Workforce_run pool tasks s)) <> None.
Proof.
  intros Hin Hfail s.
  destruct (Workforce_run_schedule pool tasks s) as (ran & dropped & Hperm & Hrun & Hdrop & _).
  rewrite Hrun.
  assert (Hin' : In t (ran ++ dropped)) by (eapply Permutation_in; eauto).
  apply in_app_or in Hin'. destruct Hin' as [Hr|Hd].
  - now apply (runInOrder_fails ran t).
  - apply Hdrop. intros Hn. rewrite Hn in Hd. destruct Hd.
Qed.

(** If every task always returns nil, so does [Wait], with any pool. *)
Lemma Workforce_run_all_nil (pool : Workforce) (tasks : list (M World Event unit)) :
  (forall t, In t tasks -> forall s, fst (t s) = inr tt) ->
  forall s, firstError (fst (Workforce_run pool tasks s)) = None.
Proof.
  intros Hok s.
  destruct (Workforce_run_schedule pool tasks s) as (ran & dropped & Hperm & Hrun & _ & _).
  rewrite Hrun. apply runInOrder_all_nil. intros t Hin. apply Hok.
  eapply Permutation_in; [symmetry; exact Hperm|]. apply in_or_app. now left.
Qed.

(** With a pool that never cancels, a call that a task always makes is in
    the trace, whatever the other tasks returned and whatever the order. *)
Lemma Workforce_run_emits (pool : Workforce) (tasks : list (M World Event unit))
    (t : M World Event unit) (ev : Event) :
  neverCancels pool ->
  (forall t', In t' tasks -> forall s, extends s (snd (t' s))) ->
  In t tasks ->
  (forall s, In ev (trace (snd (t s)))) ->
  forall s, In ev (trace (snd (Workforce_run pool tasks s))).
Proof.
  intros Hnever Hmono Hin Hev s.
  destruct (Workforce_run_schedule pool tasks s) as (ran & dropped & Hperm & Hrun & _ & Hd).
  rewrite (Hd Hnever), app_nil_r in Hperm. rewrite Hrun.
  apply (runInOrder_emits ran t ev); auto.
  - intros t' Hin'. apply Hmono. eapply Permutation_in; [symmetry; exact Hperm|exact Hin'].
  - eapply Permutation_in; eauto.
Qed.

End PoolFacts.

(** ** The archive command *)

Section ArchivecmdFacts.
Import Config Archivecmd.

Context {World : Type} (X : Externals World) (b : Archivist).

(** The task of a target only adds to the trace. *)
Lemma archiveTask_extends (archive : Archive) (archPath : BuildArchPath)
    (s : State World Event) :
  extends s (snd (archiveTask X b archive archPath s)).
Proof.
  unfold archiveTask, bind, call, check, throw, ret.
  destruct (ioh_RemoveAllMkdirAll X _ (world s)) as [[e|] w1]; cbn;
    [now exists [EvRemoveAllMkdirAll (outDirOf X b archPath)]|].
  destruct (os_Stat X _ w1) as [[e|] w2]; cbn;
    [eexists; now rewrite <- app_assoc|].
  destruct (os_MkdirAll X _ w2) as [[e|] w3]; cbn;
    [eexists; now rewrite <- !app_assoc|].
  destruct (archives_Build X _ _ w3) as [[e|] w4]; cbn;
    eexists; now rewrite <- !app_assoc.
Qed.

(** With its binary absent, the task of a target stops at [os.Stat]. *)
Lemma archiveTask_missing (archive : Archive) (archPath : BuildArchPath)
    (s : State World Event) :
  binaryMissing X b archPath ->
  let r := archiveTask X b archive archPath s in
  (exists e, fst r = inl e)
  /\ (exists evs, trace (snd r) = (trace s ++ evs)%list
                  /\ Forall (fun ev => isConstruction ev = false) evs)
  /\ (fst (ioh_RemoveAllMkdirAll X (outDirOf X b archPath) (world s)) = None ->
      fst r = inl (binaryNotFound X (binaryFilenameOf X b archPath))
      /\ trace (snd r)
         = (trace s ++ [EvRemoveAllMkdirAll (outDirOf X b archPath);
                        EvStat (binaryFilenameOf X b archPath)])%list).
Proof.
  intros Hmiss. unfold archiveTask, bind, call, check, throw, ret.
  destruct (ioh_RemoveAllMkdirAll X _ (world s)) as [[e|] w1]; cbn.
  { split; [eauto|]. split; [|discriminate].
    eexists; split; [reflexivity|]. repeat constructor. }
  specialize (Hmiss w1).
  destruct (os_Stat X _ w1) as [[e|] w2]; cbn in *; [|congruence].
  split; [eauto|]. split.
  - eexists; split; [now rewrite <- app_assoc|]. repeat constructor.
  - intros _. now rewrite <- app_assoc.
Qed.

(** When nothing fails for a target, its task builds the archive and
    returns nil. *)
Lemma archiveTask_healthy (archive : Archive) (archPath : BuildArchPath)
    (s : State World Event) :
  healthy X b archive archPath ->
  fst (archiveTask X b archive archPath s) = inr tt
  /\ In (EvBuild (buildRequestOf X b archive archPath))
       (trace (snd (archiveTask X b archive archPath s))).
Proof.
  intros Hok. unfold archiveTask, bind, call, check, throw, ret.
  pose proof (Hok (world s)) as (A1 & _).
  destruct (ioh_RemoveAllMkdirAll X _ (world s)) as [e1 w1].
  cbn in A1; subst e1; cbn.
  pose proof (Hok w1) as (_ & A2 & _).
  destruct (os_Stat X _ w1) as [e2 w2].
  cbn in A2; subst e2; cbn.
  pose proof (Hok w2) as (_ & _ & A3 & _).
  destruct (os_MkdirAll X _ w2) as [e3 w3].
  cbn in A3; subst e3; cbn.
  pose proof (Hok w3) as (_ & _ & _ & A4).
  destruct (archives_Build X _ _ w3) as [e4 w4].
  cbn in A4; subst e4; cbn.
  split; [reflexivity|]. apply in_or_app. right. now left.
Qed.

End ArchivecmdFacts.

(** C4, as the code has it.  A target whose binary is absent from disk:
    its task returns an error and makes no call that belongs to the
    construction of its archive; once its output directory has been
    recreated, the only other call is the [os.Stat] of the binary, and the
    error is [archive: binary file not found: %q] of the expected binary
    path.  [Exec] then returns an error, with any pool.  Whether the other
    targets are still handled is up to the pool: with a pool that never
    cancels, every other target for which nothing fails has its archive built
    in the same run, its task returning nil. *)
Theorem missing_binary_fails_alone {World : Type}
    (X : Archivecmd.Externals World) (b : Archivecmd.Archivist)
    (pathsCompiled : Config.Matcher)
    (archive : Config.Archive) (archPath : Config.BuildArchPath) :
  Archivecmd.BuildPaths_Init X (Archivecmd.buildPaths b) = inr pathsCompiled ->
  In (archive, archPath) (Archivecmd.targets b pathsCompiled) ->
  Archivecmd.binaryMissing X b archPath ->
  (forall s,
     let r := Archivecmd.archiveTask X b archive archPath s in
     (exists e, fst r = inl e)
     /\ (exists evs, trace (snd r) = (trace s ++ evs)%list
                     /\ Forall (fun ev => Archivecmd.isConstruction ev = false) evs)
     /\ (fst (Archivecmd.ioh_RemoveAllMkdirAll X (Archivecmd.outDirOf X b archPath) (world s))
         = None ->
         fst r = inl (errorsNew ("archive: binary file not found: "
                                 ++ Archivecmd.fmt_q X (Archivecmd.binaryFilenameOf X b archPath)))
         /\ trace (snd r)
            = (trace s ++ [Archivecmd.EvRemoveAllMkdirAll (Archivecmd.outDirOf X b archPath);
                           Archivecmd.EvStat (Archivecmd.binaryFilenameOf X b archPath)])%list))
  /\ (forall s, exists e, fst (Archivecmd.Exec X b s) = inl e)
  /\ (neverCancels (Config.core_Workforce (Archivecmd.core b)) ->
      forall s archive' archPath',
        In (archive', archPath') (Archivecmd.targets b pathsCompiled) ->
        Archivecmd.healthy X b archive' archPath' ->
        (forall s', fst (Archivecmd.archiveTask X b archive' archPath' s') = inr tt)
        /\ In (Archivecmd.EvBuild (Archivecmd.buildRequestOf X b archive' archPath'))
             (trace (snd (Archivecmd.Exec X b s)))).
Proof.
  intros Hinit Hin Hmiss.
  assert (Hmono : forall t,
             In t (map (fun t => Archivecmd.archiveTask X b (fst t) (snd t))
                     (Archivecmd.targets b pathsCompiled)) ->
             forall s, extends s (snd (t s))).
  { intros t Ht s. apply in_map_iff in Ht. destruct Ht as ([a p] & <- & _).
    apply archiveTask_extends. }
  split; [|split].
  - intros s. apply archiveTask_missing. exact Hmiss.
  - intros s. unfold Archivecmd.Exec. rewrite Hinit.
    pose proof (Workforce_run_fails (Config.core_Workforce (Archivecmd.core b))
                  (map (fun t => Archivecmd.archiveTask X b (fst t) (snd t))
                     (Archivecmd.targets b pathsCompiled))
                  (Archivecmd.archiveTask X b archive archPath)) as Hf.
    specialize (Hf (in_map (fun t => Archivecmd.archiveTask X b (fst t) (snd t)) _ _ Hin)).
    specialize (Hf (fun s0 => proj1 (archiveTask_missing X b archive archPath s0 Hmiss)) s).
    destruct (Workforce_run _ _ s) as [errs s1]. cbn in Hf.
    destruct (firstError errs) as [e|]; [|congruence].
    exists e. reflexivity.
  - intros Hnever s archive' archPath' Hin' Hok. split.
    + intros s'. apply archiveTask_healthy. exact Hok.
    + unfold Archivecmd.Exec. rewrite Hinit.
      pose proof (Workforce_run_emits (Config.core_Workforce (Archivecmd.core b))
                    (map (fun t => Archivecmd.archiveTask X b (fst t) (snd t))
                       (Archivecmd.targets b pathsCompiled))
                    (Archivecmd.archiveTask X b archive' archPath')
                    (Archivecmd.EvBuild (Archivecmd.buildRequestOf X b archive' archPath'))
                    Hnever Hmono
                    (in_map (fun t => Archivecmd.archiveTask X b (fst t) (snd t)) _ _ Hin')
                    (fun s0 => proj2 (archiveTask_healthy X b archive' archPath' s0 Hok))
                    s) as Hs1.
      destruct (Workforce_run _ _ s) as [errs s1]. cbn in Hs1.
      unfold check. destruct (firstError errs); exact Hs1.
Qed.

(** Two targets, the binary of [darwin/arm64] absent, and a pool that runs
    every task: its task reports the path, and the archive of [linux/amd64]
    is built all the same. *)
Lemma missing_binary_fails_alone_witness :
  fst (Archivecmd.archiveTask (Sim.archiveX [Sim.darwinBinary]) Sim.archivist
         Sim.theArchive Sim.darwinArm64 Sim.start)
  = inl (errorsNew ("archive: binary file not found: " ++ Sim.quote Sim.darwinBinary))
  /\ (exists e, fst (Archivecmd.Exec (Sim.archiveX [Sim.darwinBinary]) Sim.archivist Sim.start)
                = inl e)
  /\ In (Archivecmd.EvBuild
           (Archivecmd.buildRequestOf (Sim.archiveX [Sim.darwinBinary]) Sim.archivist
              Sim.theArchive Sim.linuxAmd64))
       (trace (snd (Archivecmd.Exec (Sim.archiveX [Sim.darwinBinary]) Sim.archivist Sim.start))).
Proof.
  destruct (missing_binary_fails_alone (Sim.archiveX [Sim.darwinBinary]) Sim.archivist
              (fun _ => true) Sim.theArchive Sim.darwinArm64) as (Htask & Hexec & Hsib).
  - reflexivity.
  - vm_compute. right. left. reflexivity.
  - intros w. vm_compute. discriminate.
  - split; [|split].
    + destruct (Htask Sim.start) as (_ & _ & H). apply H. reflexivity.
    + apply Hexec.
    + apply (Hsib (fun _ => eq_refl) Sim.start Sim.theArchive Sim.linuxAmd64).
      * vm_compute. left. reflexivity.
      * intros w. vm_compute. repeat split; reflexivity.
Defined.

(** C4, as it is worded, fails in two ways.  With a pool that cancels the
    waiting tasks after a first error, as section 4.1 allows, and that starts
    [darwin/arm64], whose binary is absent, first: the command fails and the
    archive of [linux/amd64], whose binary is on disk, is never built.  And
    when the output directory of [darwin/arm64] cannot be recreated, its task
    returns that error, not the error about the binary, although the binary
    is absent. *)
Lemma missing_binary_can_stop_siblings :
  (let run := Archivecmd.Exec (Sim.archiveX [Sim.darwinBinary])
                (Sim.archivistWith Sim.lastFirstCancelling) Sim.start in
   (exists e, fst run = inl e)
   /\ Archivecmd.healthy (Sim.archiveX [Sim.darwinBinary])
        (Sim.archivistWith Sim.lastFirstCancelling) Sim.theArchive Sim.linuxAmd64
   /\ Archivecmd.builds (trace (snd run)) = []
   /\ ~ In (Archivecmd.EvBuild
              (Archivecmd.buildRequestOf (Sim.archiveX [Sim.darwinBinary])
                 (Sim.archivistWith Sim.lastFirstCancelling) Sim.theArchive Sim.linuxAmd64))
          (trace (snd run)))
  /\ (let X := Sim.archiveXWith [Sim.darwinBinary] [Sim.darwinOutDir] in
      Archivecmd.binaryMissing X Sim.archivist Sim.darwinArm64
      /\ fst (Archivecmd.archiveTask X Sim.archivist Sim.theArchive Sim.darwinArm64 Sim.start)
         = inl Sim.permissionDenied
      /\ inl Sim.permissionDenied
         <> (inl (Archivecmd.binaryNotFound X
                    (Archivecmd.binaryFilenameOf X Sim.archivist Sim.darwinArm64))
             : error + unit)).
Proof.
  split.
  - cbv zeta. split; [eexists; vm_compute; reflexivity|].
    split; [intros w; vm_compute; repeat split; reflexivity|].
    split; [vm_compute; reflexivity|].
    vm_compute. intros [H|[H|[]]]; discriminate.
  - cbv zeta. split; [intros w; vm_compute; discriminate|].
    split; [vm_compute; reflexivity|].
    vm_compute. discriminate.
Qed.


(** ** Traces *)

Section TraceFacts.

Context {World Event : Type}.

Variable P : Event -> Prop.

Lemma emits_ret {A} (a : A) : emits P (ret a : M World Event A).
Proof. intros s. exists []. cbn. now rewrite app_nil_r. Qed.

Lemma emits_throw {A} (e : error) : emits P (throw e : M World Event A).
Proof. intros s. exists []. cbn. now rewrite app_nil_r. Qed.

Lemma emits_call {A} (ev : Event) (op : World -> A * World) :
  P ev -> emits P (call ev op).
Proof.
  intros Hev s. exists [ev]. unfold call.
  destruct (op (world s)); cbn. auto.
Qed.

Lemma emits_bind {A B} (m : M World Event A) (k : A -> M World Event B) :
  emits P m -> (forall a, emits P (k a)) -> emits P (bind m k).
Proof.
  intros Hm Hk s. unfold bind.
  destruct (Hm s) as (e1 & H1 & F1).
  destruct (m s) as [[e|a] s1]; cbn in *; [eauto|].
  destruct (Hk a s1) as (e2 & H2 & F2).
  exists (e1 ++ e2)%list. rewrite H2, H1, app_assoc.
  split; [reflexivity|]. apply Forall_app; auto.
Qed.

Lemma emits_check (err : goerror) : emits P (check err : M World Event unit).
Proof. destruct err; [apply emits_throw|apply emits_ret]. Qed.

Lemma emits_asError (m : M World Event unit) : emits P m -> emits P (asError m).
Proof.
  intros Hm s. unfold asError. destruct (Hm s) as (evs & H & F).
  destruct (m s) as [[e|u] s1]; cbn in *; eauto.
Qed.

Lemma emits_defer {A B} (d : M World Event A) (body : M World Event B) :
  emits P d -> emits P body -> emits P (defer d body).
Proof.
  intros Hd Hb s. unfold defer.
  destruct (Hb s) as (e1 & H1 & F1).
  destruct (body s) as [r s1]; cbn in *.
  destruct (Hd s1) as (e2 & H2 & F2).
  destruct (d s1) as [r2 s2]; cbn in *.
  exists (e1 ++ e2)%list. rewrite H2, H1, app_assoc.
  split; [reflexivity|]. apply Forall_app; auto.
Qed.

Lemma emits_forEach {A} (l : list A) (body : A -> M World Event unit) :
  (forall x, emits P (body x)) -> emits P (forEach l body).
Proof.
  intros Hb. induction l as [|x r IH]; cbn.
  - apply emits_ret.
  - apply emits_bind; auto.
Qed.

End TraceFacts.

Lemma emits_weaken {World Event A : Type} (P Q : Event -> Prop) (m : M World Event A) :
  (forall ev, P ev -> Q ev) -> emits P m -> emits Q m.
Proof.
  intros HPQ Hm s. destruct (Hm s) as (evs & H & F).
  exists evs. split; [exact H|]. eapply Forall_impl; eauto.
Qed.


Create HintDb emits.
#[export] Hint Resolve emits_ret emits_throw emits_check emits_asError emits_defer
  emits_forEach emits_bind emits_call : emits.


(** ** The release command *)

Section ReleasecmdFacts.
Import Config Releasecmd.

Context {World : Type} (X : Externals World) (core : Core) (commitish : string).

(** Preparing the release directory only touches that directory. *)
Lemma prepareReleaseDir_emits (dir : string) :
  emits (onDir dir) (prepareReleaseDir X dir).
Proof.
  unfold prepareReleaseDir.
  apply emits_bind; [apply emits_call; reflexivity|]. intros err.
  destruct (isNil err || os_IsNotExist err); [|apply emits_ret].
  apply emits_bind.
  - destruct (negb (os_IsNotExist err)); [|apply emits_ret].
    apply emits_bind; [apply emits_call; reflexivity|].
    intros [e|]; auto with emits.
  - intros _. apply emits_bind; [apply emits_call; reflexivity|].
    intros [e|]; auto with emits.
Qed.

Lemma onDir_local (dir : string) (evs : list Event) :
  Forall (onDir dir) evs ->
  createdFiles evs = [] /\ uploadedFiles evs = [] /\ releaseCalls evs = []
  /\ Forall (fun ev => isRemoteEvent ev = false) evs.
Proof.
  induction 1 as [|ev evs Hev _ IH]; [cbn; auto|].
  destruct IH as (A & B & C & D).
  destruct ev; cbn in *; try contradiction; auto.
Qed.


(** In dry-run mode, and when no archive file is matched, the loop body is
    over after the directory and the test of line 149. *)
Lemma handleRelease_short (release : Release) (s : State World Event) :
  Try core = true \/ archiveFilenamesOf X core release = [] ->
  handleRelease X core commitish release s
  = match prepareReleaseDir X (releaseDirOf X core release) s with
    | (inl e, s1) => (inl e, s1)
    | (inr _, s1) =>
        (if Nat.eqb (length (archiveFilenamesOf X core release)) 0
         then inl (noFilesFound X release) else inr tt, s1)
    end.
Proof.
  intros H. unfold handleRelease, prepareRelease, prepareFiles, bind.
  destruct (prepareReleaseDir X _ s) as [[e|u] s1]; [reflexivity|].
  destruct (Nat.eqb (length (archiveFilenamesOf X core release)) 0) eqn:Hlen;
    [reflexivity|].
  destruct H as [Htry|Hnil].
  - rewrite Htry. reflexivity.
  - rewrite Hnil in Hlen. discriminate.
Qed.

Lemma handleRelease_short_emits (release : Release) :
  Try core = true \/ archiveFilenamesOf X core release = [] ->
  emits (onDir (releaseDirOf X core release)) (handleRelease X core commitish release).
Proof.
  intros H s. rewrite handleRelease_short by exact H.
  destruct (prepareReleaseDir_emits (releaseDirOf X core release) s) as (evs & Ht & F).
  exists evs. destruct (prepareReleaseDir X _ s) as [[e|u] s1]; cbn in *; auto.
Qed.

(** A failing iteration ends the loop with its error. *)
Lemma forEach_fails {A : Type} (l : list A) (body : A -> M World Event unit) (x : A) :
  In x l ->
  (forall s, exists e, fst (body x s) = inl e) ->
  forall s, exists e, fst (forEach l body s) = inl e.
Proof.
  induction l as [|y r IH]; intros Hin Hfail s; [destruct Hin|].
  cbn. unfold bind.
  destruct Hin as [->|Hin].
  - destruct (Hfail s) as [e He]. destruct (body x s) as [[e'|u] s1]; cbn in *; eauto.
    discriminate.
  - destruct (body y s) as [[e'|u] s1]; cbn; eauto.
Qed.

End ReleasecmdFacts.

(** C1, as the code has it.  In dry-run mode the loop body prepares the
    release directory, checks that the release matches at least one archive
    file, and leaves the iteration at line 154: every call it makes is on the
    release directory, so no file is created (no [checksum.txt], no
    [release-notes.md]), no client is made, real or fake, and there is no
    call to [Release] or upload.  Once the directory is prepared, the
    iteration ends well exactly when an archive file is matched. *)
Theorem dry_run_only_prepares_directory {World : Type}
    (X : Releasecmd.Externals World) (core : Config.Core) (commitish : string)
    (release : Config.Release) :
  Config.Try core = true ->
  forall s,
    let r := Releasecmd.handleRelease X core commitish release s in
    (exists evs,
        trace (snd r) = (trace s ++ evs)%list
        /\ Forall (Releasecmd.onDir (Releasecmd.releaseDirOf X core release)) evs
        /\ Releasecmd.createdFiles evs = []
        /\ Releasecmd.uploadedFiles evs = []
        /\ Releasecmd.releaseCalls evs = []
        /\ Forall (fun ev => Releasecmd.isRemoteEvent ev = false) evs)
    /\ (fst (Releasecmd.prepareReleaseDir X (Releasecmd.releaseDirOf X core release) s)
        = inr tt ->
        fst r = if Nat.eqb (length (Releasecmd.archiveFilenamesOf X core release)) 0
                then inl (Releasecmd.noFilesFound X release)
                else inr tt).
Proof.
  intros Htry s r. split.
  - destruct (handleRelease_short_emits X core commitish release (or_introl Htry) s)
      as (evs & Ht & F).
    exists evs. destruct (onDir_local _ _ F) as (A & B & C & D). auto 10.
  - subst r. rewrite handleRelease_short by (left; exact Htry).
    destruct (Releasecmd.prepareReleaseDir X _ s) as [[e|u] s1]; cbn;
      [discriminate|auto].
Qed.

(** A dry run of one release over the two archives. *)
Lemma dry_run_only_prepares_directory_witness :
  fst (Releasecmd.handleRelease (Sim.releaseX (fun _ => None))
         (Sim.theCore true [Sim.theRelease true "" (fun _ => true)]) "main"
         (Sim.theRelease true "" (fun _ => true)) Sim.start)
  = inr tt.
Proof.
  destruct (dry_run_only_prepares_directory (Sim.releaseX (fun _ => None))
              (Sim.theCore true [Sim.theRelease true "" (fun _ => true)]) "main"
              (Sim.theRelease true "" (fun _ => true)) eq_refl Sim.start) as (_ & H).
  apply H. reflexivity.
Defined.

(** C1, as it is worded, fails: a dry run of the command over one release
    that matches the two archives, with release notes to generate, returns nil
    and has created no file at all: no [checksum.txt] and no
    [release-notes.md]; the fake client is never put to use either. *)
Lemma dry_run_writes_no_file :
  let run := Releasecmd.Exec (Sim.releaseX (fun _ => None))
               (Sim.theCore true [Sim.theRelease true "" (fun _ => true)]) "main"
               Sim.start in
  fst run = inr tt
  /\ Releasecmd.createdFiles (trace (snd run)) = []
  /\ ~ In (Sim.releaseDir ++ "/checksum.txt") (Releasecmd.createdFiles (trace (snd run)))
  /\ ~ In (Sim.releaseDir ++ "/release-notes.md") (Releasecmd.createdFiles (trace (snd run)))
  /\ Releasecmd.releaseCalls (trace (snd run)) = [].
Proof.
  vm_compute. repeat split; intros [].
Qed.

(** C6. A release whose filter matches no archive file: the loop body
    returns an error, every call it makes is on the release directory (no
    client is made, [Release] and the uploads are not called), and once the
    directory is prepared the error is [release: no files found for release
    %q] of the release's path.  [Exec] returns an error whenever such a
    release is among the matches. *)
Theorem no_files_no_release {World : Type}
    (X : Releasecmd.Externals World) (core : Config.Core) (commitish : string)
    (release : Config.Release) :
  Releasecmd.archiveFilenamesOf X core release = [] ->
  (forall s,
     let r := Releasecmd.handleRelease X core commitish release s in
     (exists e, fst r = inl e)
     /\ (exists evs,
           trace (snd r) = (trace s ++ evs)%list
           /\ Forall (Releasecmd.onDir (Releasecmd.releaseDirOf X core release)) evs
           /\ Releasecmd.releaseCalls evs = []
           /\ Releasecmd.uploadedFiles evs = []
           /\ Forall (fun ev => Releasecmd.isRemoteEvent ev = false) evs)
     /\ (fst (Releasecmd.prepareReleaseDir X (Releasecmd.releaseDirOf X core release) s)
         = inr tt ->
         fst r = inl (errorsNew ("release: no files found for release "
                                 ++ Releasecmd.fmt_q X (Config.r_Path release)))))
  /\ (In release (Releasecmd.FindReleases X (Config.core_Config core)
                    (Config.PathsReleasesCompiled core)) ->
      forall s, exists e, fst (Releasecmd.Exec X core commitish s) = inl e).
Proof.
  intros Hnil.
  assert (Hbody : forall s, exists e,
             fst (Releasecmd.handleRelease X core commitish release s) = inl e).
  { intros s. rewrite handleRelease_short by (right; exact Hnil).
    rewrite Hnil. cbn.
    destruct (Releasecmd.prepareReleaseDir X _ s) as [[e|u] s1]; cbn; eauto. }
  split.
  - intros s r. split; [apply Hbody|]. split.
    + destruct (handleRelease_short_emits X core commitish release (or_intror Hnil) s)
        as (evs & Ht & F).
      exists evs. destruct (onDir_local _ _ F) as (A & B & C & D). auto 10.
    + subst r. rewrite handleRelease_short by (right; exact Hnil).
      rewrite Hnil. cbn.
      destruct (Releasecmd.prepareReleaseDir X _ s) as [[e|u] s1]; cbn;
        [discriminate|reflexivity].
  - intros Hin s. unfold Releasecmd.Exec, bind, check.
    destruct (Releasecmd.Init X core commitish) as [e|]; cbn; [eauto|].
    destruct (Nat.eqb _ 0); cbn; [eauto|].
    apply forEach_fails with (x := release); auto.
Qed.

(** A release whose filter matches nothing. *)
Lemma no_files_no_release_witness :
  fst (Releasecmd.handleRelease (Sim.releaseX (fun _ => None))
         (Sim.theCore false [Sim.theRelease false "" (fun _ => false)]) "main"
         (Sim.theRelease false "" (fun _ => false)) Sim.start)
  = inl (errorsNew ("release: no files found for release " ++ Sim.quote "main"))
  /\ exists e,
       fst (Releasecmd.Exec (Sim.releaseX (fun _ => None))
              (Sim.theCore false [Sim.theRelease false "" (fun _ => false)]) "main"
              Sim.start) = inl e.
Proof.
  destruct (no_files_no_release (Sim.releaseX (fun _ => None))
              (Sim.theCore false [Sim.theRelease false "" (fun _ => false)]) "main"
              (Sim.theRelease false "" (fun _ => false)) eq_refl) as (Hbody & Hexec).
  split.
  - destruct (Hbody Sim.start) as (_ & _ & H). apply H. reflexivity.
  - apply Hexec. left. reflexivity.
Defined.

Section ReleasecmdSegments.
Import Config Releasecmd.

Context {World : Type} (X : Externals World) (core : Core) (commitish : string).

Lemma writeChecksumFile_emits (checksumFilename : string) (checksumLines : list string) :
  emits (checksumOnly checksumFilename)
    (writeChecksumFile X checksumFilename checksumLines).
Proof.
  unfold writeChecksumFile.
  apply emits_bind; [apply emits_call; split; reflexivity|]. intros err.
  apply emits_bind; [apply emits_check|]. intros _.
  apply emits_defer; [apply emits_call; split; reflexivity|].
  apply emits_forEach. intros line.
  apply emits_bind; [apply emits_call; split; reflexivity|]. intros err'.
  apply emits_check.
Qed.

Lemma createChecksumFile_emits (releaseDir : string) (archiveFilenames : list string) :
  emits (checksumOnly (checksumFilenameOf X releaseDir))
    (createChecksumFile X releaseDir archiveFilenames).
Proof.
  unfold createChecksumFile.
  apply emits_bind; [apply emits_call; split; reflexivity|]. intros [e|checksumLines];
    [apply emits_throw|].
  apply emits_bind; [apply emits_asError, writeChecksumFile_emits|].
  intros [e|]; auto with emits.
Qed.

Lemma newClient_emits (release : Release) (checksumFilename : string) :
  emits (checksumOnly checksumFilename) (newClient X core release).
Proof.
  unfold newClient.
  apply emits_bind; [apply emits_call; split; reflexivity|].
  intros [e|client]; auto with emits.
Qed.

Lemma prepareFiles_emits (release : Release) :
  emits (checksumOnly (checksumFilenameOf X (releaseDirOf X core release)))
    (prepareFiles X core release).
Proof.
  unfold prepareFiles.
  destruct (Nat.eqb _ 0); [apply emits_throw|].
  destruct (Try core); [apply emits_ret|].
  apply emits_bind; [apply createChecksumFile_emits|]. intros files.
  apply emits_bind; [apply newClient_emits|]. intros client.
  apply emits_ret.
Qed.

Lemma prepareRelease_emits (release : Release) :
  emits (beforeNotes (checksumFilenameOf X (releaseDirOf X core release)))
    (prepareRelease X core release).
Proof.
  unfold prepareRelease. apply emits_bind.
  - eapply emits_weaken; [|apply prepareReleaseDir_emits].
    intros [] H; cbn in *; try contradiction; auto.
  - intros _. eapply emits_weaken; [|apply prepareFiles_emits].
    intros ev [H _]. exact H.
Qed.

(** What [prepareFiles] hands over: the matched archive files followed by the
    checksum file, outside dry-run mode. *)
Lemma prepareFiles_files (release : Release) (s s1 : State World Event)
    (files : list string) (client : Client) :
  prepareFiles X core release s = (inr (Some (files, client)), s1) ->
  files = (archiveFilenamesOf X core release
           ++ [checksumFilenameOf X (releaseDirOf X core release)])%list
  /\ Try core = false.
Proof.
  unfold prepareFiles.
  destruct (Nat.eqb _ 0); [discriminate|].
  destruct (Try core); [discriminate|].
  unfold bind at 1.
  destruct (createChecksumFile X _ _ s) as [[e|files0] s0] eqn:Hc; [discriminate|].
  unfold bind. destruct (newClient X core release s0) as [[e|c] s2]; [discriminate|].
  cbn. intros H; inversion H; subst; clear H. split; [|reflexivity].
  revert Hc. unfold createChecksumFile, bind, call.
  destruct (releases_CreateChecksumLines X _ (world s)) as [[e|checksumLines] w];
    cbn; [discriminate|].
  destruct (asError _ _) as [[e|[e|]] s3]; cbn; try discriminate.
  intros H; now inversion H.
Qed.


(** What the release notes step hands over when it returns nil: [info] with
    the path of the generated notes as its [Filename] when notes are
    generated, [info] as it was otherwise. *)
Lemma generateReleaseNotes_info (releaseDir : string) (release : Release)
    (client : Client) (info info1 : ReleaseInfo) (s s1 : State World Event) :
  generateReleaseNotes X core commitish releaseDir release client info s = (inr info1, s1) ->
  info1 = if Generate (rs_ReleaseNotesSettings (Settings info))
          then setFilename info (releaseNotesFilenameOf X releaseDir)
          else info.
Proof.
  unfold generateReleaseNotes.
  destruct (Generate _); [|cbn; intros H; now inversion H].
  destruct (negb _); [discriminate|].
  unfold bind, call.
  destruct (os_Getenv X _ (world s)) as [repoPath w1]; cbn.
  destruct (changelog_CollectChanges X _ w1) as [[e|infos] w2]; cbn; [discriminate|].
  unfold check. destruct (GroupByFunc_err X infos _); cbn; [discriminate|].
  destruct (asError _ _) as [[e|[e|]] s3]; cbn; try discriminate.
  intros H; now inversion H.
Qed.

(** Uploads run one after the other: one call per file, in that order. *)
Lemma uploads_trace (client : Client) (info : ReleaseInfo) (releaseID : ReleaseID)
    (files : list string) (s : State World Event) :
  trace (snd (runInOrder (map (uploadTask X client info releaseID) files) s))
  = (trace s ++ map (EvUpload client info releaseID) files)%list.
Proof.
  revert s. induction files as [|f r IH]; intros s.
  - cbn. now rewrite app_nil_r.
  - cbn [map]. unfold Run in *. rewrite runInOrder_cons; cbn [snd]. rewrite IH.
    unfold uploadTask, bind, call, check.
    destruct (releases_UploadAssetsFileWithRetries X client info releaseID f (world s))
      as [[e|] w]; cbn; now rewrite <- app_assoc.
Qed.

(** The error of a run of uploads is the answer of one of them. *)
Lemma uploads_error (client : Client) (info : ReleaseInfo) (releaseID : ReleaseID)
    (files : list string) (s : State World Event) (e : error) :
  firstError (fst (runInOrder (map (uploadTask X client info releaseID) files) s)) = Some e ->
  exists name w,
    In name files
    /\ fst (releases_UploadAssetsFileWithRetries X client info releaseID name w) = Some e.
Proof.
  revert s. induction files as [|f r IH]; intros s; [discriminate|].
  cbn [map]. unfold Run in *. rewrite runInOrder_cons; cbn [fst firstError].
  unfold uploadTask at 1 3. unfold bind, call, check.
  destruct (releases_UploadAssetsFileWithRetries X client info releaseID f (world s))
    as [[e0|] w] eqn:Hup; cbn.
  - intros H; inversion H; subst. exists f, (world s). rewrite Hup. auto.
  - intros H. destruct (IH _ H) as (name & w' & Hin & Hn). exists name, w'. auto.
Qed.

(** What a run of uploads returns, upload by upload: the answers of
    [releases.UploadAssetsFileWithRetries] for the files, in their order. *)
Lemma uploads_answers (client : Client) (info : ReleaseInfo) (releaseID : ReleaseID)
    (files : list string) (s : State World Event) :
  Forall2 (fun name answer =>
             exists w,
               fst (releases_UploadAssetsFileWithRetries X client info releaseID name w)
               = answer)
    files (fst (runInOrder (map (uploadTask X client info releaseID) files) s)).
Proof.
  revert s. induction files as [|f r IH]; intros s; [constructor|].
  cbn [map]. unfold Run in *. rewrite runInOrder_cons; cbn [fst].
  constructor; [|apply IH].
  exists (world s). unfold uploadTask, bind, call, check.
  now destruct (releases_UploadAssetsFileWithRetries X client info releaseID f (world s))
    as [[e|] w].
Qed.

(** What the pool makes of the uploads: some of the files are uploaded, each
    once, in an order of the pool's; files are left out only after a failed
    upload, and never by a pool that never cancels. *)
Lemma uploads_schedule (client : Client) (info : ReleaseInfo) (releaseID : ReleaseID)
    (files : list string) (s : State World Event) :
  exists uploaded dropped,
    Permutation files (uploaded ++ dropped)
    /\ Workforce_run (core_Workforce core)
         (map (uploadTask X client info releaseID) files) s
       = runInOrder (map (uploadTask X client info releaseID) uploaded) s
    /\ (dropped <> [] ->
        firstError (fst (runInOrder (map (uploadTask X client info releaseID) uploaded) s))
        <> None)
    /\ (neverCancels (core_Workforce core) -> dropped = []).
Proof.
  unfold Run in *.
  destruct (Workforce_run_schedule (core_Workforce core)
              (map (uploadTask X client info releaseID) files) s)
    as (ran & dr & Hperm & Hrun & Hdrop & Hnever).
  symmetry in Hperm. apply Permutation_map_inv in Hperm.
  destruct Hperm as (l & Hl & Hperm).
  symmetry in Hl. apply map_eq_app in Hl.
  destruct Hl as (uploaded & dropped & -> & <- & <-).
  exists uploaded, dropped. split; [exact Hperm|]. split; [exact Hrun|]. split.
  - intros Hd. apply Hdrop. intros Hn. apply Hd.
    destruct dropped; [reflexivity|discriminate].
  - intros Hn. specialize (Hnever Hn). destruct dropped; [reflexivity|discriminate].
Qed.

(** Lines 278-303, call by call. *)
Lemma releaseAndUpload_shape (client : Client) (info : ReleaseInfo)
    (files : list string) (s : State World Event) :
  let r := releaseAndUpload X core client info files s in
  match fst (Client_Release X client info (world s)) with
  | inl err =>
      fst r = inl (errorsNew (commandName ++ ": failed to create release: " ++ errMsg err))
      /\ trace (snd r) = (trace s ++ [EvRelease client info])%list
  | inr releaseID =>
      exists uploaded dropped,
        Permutation files (uploaded ++ dropped)
        /\ trace (snd r)
           = (trace s ++ EvRelease client info
                :: map (EvUpload client info releaseID) uploaded)%list
        /\ (fst r = inr tt -> dropped = [])
        /\ (neverCancels (core_Workforce core) -> dropped = [])
        /\ (fst r = inr tt
            \/ exists e name w,
                 In name uploaded
                 /\ fst (releases_UploadAssetsFileWithRetries X client info releaseID name w)
                    = Some e
                 /\ fst r
                    = inl (errorsNew (commandName ++ ": failed to upload files: "
                                      ++ errMsg e)))
        /\ exists answers,
             Forall2 (fun name answer =>
                        exists w,
                          fst (releases_UploadAssetsFileWithRetries X client info releaseID
                                 name w)
                          = answer)
               uploaded answers
             /\ fst r
                = match firstError answers with
                  | Some e =>
                      inl (errorsNew (commandName ++ ": failed to upload files: "
                                      ++ errMsg e))
                  | None => inr tt
                  end
             /\ (dropped <> [] -> firstError answers <> None)
  end.
Proof.
  cbv zeta. unfold releaseAndUpload, bind, call.
  destruct (Client_Release X client info (world s)) as [[e|releaseID] w]; cbn [fst snd];
    [cbn; auto|].
  destruct (uploads_schedule client info releaseID files
              (mkState w (trace s ++ [EvRelease client info])))
    as (uploaded & dropped & Hperm & Hrun & Hdrop & Hnever).
  exists uploaded, dropped. split; [exact Hperm|].
  unfold Run in *. rewrite Hrun.
  pose proof (uploads_trace client info releaseID uploaded
                (mkState w (trace s ++ [EvRelease client info]))) as Ht.
  pose proof (uploads_error client info releaseID uploaded
                (mkState w (trace s ++ [EvRelease client info]))) as He.
  pose proof (uploads_answers client info releaseID uploaded
                (mkState w (trace s ++ [EvRelease client info]))) as Ha.
  unfold Run in *.
  destruct (runInOrder _ _) as [errs s1]. cbn [fst snd trace] in *.
  destruct (firstError errs) as [e|] eqn:Hfe; cbn [fst snd].
  - split; [rewrite Ht; now rewrite <- app_assoc|].
    split; [discriminate|]. split; [exact Hnever|]. split.
    + right. destruct (He e eq_refl) as (name & w' & Hin & Hn). exists e, name, w'. auto.
    + exists errs. rewrite Hfe. split; [exact Ha|]. split; [reflexivity|discriminate].
  - split; [rewrite Ht; now rewrite <- app_assoc|].
    split.
    + intros _. destruct dropped; [reflexivity|]. exfalso. apply Hdrop; [discriminate|auto].
    + split; [exact Hnever|]. split; [now left|].
      exists errs. rewrite Hfe. split; [exact Ha|]. split; [reflexivity|exact Hdrop].
Qed.


End ReleasecmdSegments.

Lemma uploadedFiles_uploads (client : Releasecmd.Client) (info : Releasecmd.ReleaseInfo)
    (releaseID : Releasecmd.ReleaseID) (files : list string) :
  Releasecmd.uploadedFiles (map (Releasecmd.EvUpload client info releaseID) files) = files.
Proof.
  unfold Releasecmd.uploadedFiles.
  induction files as [|f r IH]; cbn; [reflexivity|]. now rewrite IH.
Qed.

(** C7, as the code has it.  A release with release-notes generation enabled
    and a release-notes filename configured: the release-notes step (lines
    204-276) returns the error [release: both GenerateReleaseNotes and
    ReleaseNotesFilename are set for release type %q] of the release type
    without making any call; so a target that reaches that step (it is not
    skipped by the dry-run gate of line 153 and nothing failed before) fails
    with this error.  Whether the step is reached or not, the only file the
    loop body touches is the checksum file: no release-notes file is
    written, and [Release] is not called. *)
Theorem both_notes_options_is_error {World : Type}
    (X : Releasecmd.Externals World) (core : Config.Core) (commitish : string)
    (release : Config.Release) :
  Config.Generate (Config.rs_ReleaseNotesSettings (Config.r_ReleaseSettings release)) = true ->
  Config.Filename (Config.rs_ReleaseNotesSettings (Config.r_ReleaseSettings release)) <> "" ->
  (forall client s,
     Releasecmd.generateReleaseNotes X core commitish (Releasecmd.releaseDirOf X core release)
       release client (Releasecmd.releaseInfoOf core commitish release) s
     = (inl (errorsNew
               ("release: both GenerateReleaseNotes and ReleaseNotesFilename are set for release type "
                ++ Releasecmd.fmt_q X (Config.rs_Type (Config.r_ReleaseSettings release)))),
        s))
  /\ (forall s files client s1,
        Releasecmd.prepareRelease X core release s = (inr (Some (files, client)), s1) ->
        Releasecmd.handleRelease X core commitish release s
        = (inl (Releasecmd.bothSet X release), s1))
  /\ emits (Releasecmd.beforeNotes
              (Releasecmd.checksumFilenameOf X (Releasecmd.releaseDirOf X core release)))
       (Releasecmd.handleRelease X core commitish release).
Proof.
  intros Hgen Hname.
  assert (Hstep : forall client s,
             Releasecmd.generateReleaseNotes X core commitish
               (Releasecmd.releaseDirOf X core release) release client
               (Releasecmd.releaseInfoOf core commitish release) s
             = (inl (Releasecmd.bothSet X release), s)).
  { intros client s. unfold Releasecmd.generateReleaseNotes. cbn.
    rewrite Hgen. apply String.eqb_neq in Hname. rewrite Hname. reflexivity. }
  split; [exact Hstep|]. split.
  - intros s files client s1 Hprep.
    unfold Releasecmd.handleRelease, bind. rewrite Hprep.
    unfold Releasecmd.publish, bind. now rewrite Hstep.
  - unfold Releasecmd.handleRelease. apply emits_bind; [apply prepareRelease_emits|].
    intros [[files client]|]; [|apply emits_ret].
    intros s. unfold Releasecmd.publish, bind. rewrite Hstep.
    exists []. cbn. now rewrite app_nil_r.
Qed.

(** A release with notes to generate and [NOTES.md] as its notes file. *)
Lemma both_notes_options_is_error_witness :
  fst (Releasecmd.handleRelease (Sim.releaseX (fun _ => None))
         (Sim.theCore false [Sim.theRelease true "NOTES.md" (fun _ => true)]) "main"
         (Sim.theRelease true "NOTES.md" (fun _ => true)) Sim.start)
  = inl (errorsNew
           ("release: both GenerateReleaseNotes and ReleaseNotesFilename are set for release type "
            ++ Sim.quote "github")).
Proof.
  destruct (both_notes_options_is_error (Sim.releaseX (fun _ => None))
              (Sim.theCore false [Sim.theRelease true "NOTES.md" (fun _ => true)]) "main"
              (Sim.theRelease true "NOTES.md" (fun _ => true)))
    as (_ & Hreach & _).
  - reflexivity.
  - discriminate.
  - erewrite Hreach; [reflexivity|]. vm_compute. reflexivity.
Defined.

(** C7, as it is worded, fails: in dry-run mode the target is left at line
    153, before the two options are looked at, so the command returns nil for
    a release that has both of them set. *)
Lemma both_notes_options_pass_in_dry_run :
  Config.Generate
    (Config.rs_ReleaseNotesSettings
       (Config.r_ReleaseSettings (Sim.theRelease true "NOTES.md" (fun _ => true))))
  = true
  /\ Config.Filename
       (Config.rs_ReleaseNotesSettings
          (Config.r_ReleaseSettings (Sim.theRelease true "NOTES.md" (fun _ => true))))
     = "NOTES.md"
  /\ fst (Releasecmd.Exec (Sim.releaseX (fun _ => None))
            (Sim.theCore true [Sim.theRelease true "NOTES.md" (fun _ => true)]) "main"
            Sim.start)
     = inr tt
  /\ fst (Releasecmd.handleRelease (Sim.releaseX (fun _ => None))
            (Sim.theCore true [Sim.theRelease true "NOTES.md" (fun _ => true)]) "main"
            (Sim.theRelease true "NOTES.md" (fun _ => true)) Sim.start)
     = inr tt
  /\ Releasecmd.createdFiles
       (trace (snd (Releasecmd.Exec (Sim.releaseX (fun _ => None))
                      (Sim.theCore true [Sim.theRelease true "NOTES.md" (fun _ => true)])
                      "main" Sim.start)))
     = [].
Proof. repeat split. Qed.



(** C3, as the code has it.  For a target that reaches the upload phase
    (the files are prepared, the release-notes step returns nil, [Release]
    returns an identifier), the files to upload are the matched archive files
    and the checksum file, and nothing else: the release-notes file is not
    added to them.  Every upload is the upload of one of these files, each at
    most once, after the call to [Release]; all of them are uploaded when the
    handling of the target returns nil, and with a pool that never cancels.
    When notes are generated, their path is the [Filename] of the release
    info that [Release] and every upload receive. *)
Theorem uploads_are_archives_and_checksum {World : Type}
    (X : Releasecmd.Externals World) (core : Config.Core) (commitish : string)
    (release : Config.Release) (s s1 s2 : State World Releasecmd.Event)
    (files : list string) (client : Releasecmd.Client) (info : Releasecmd.ReleaseInfo)
    (releaseID : Releasecmd.ReleaseID) (w3 : World) :
  Releasecmd.prepareRelease X core release s = (inr (Some (files, client)), s1) ->
  Releasecmd.generateReleaseNotes X core commitish (Releasecmd.releaseDirOf X core release)
    release client (Releasecmd.releaseInfoOf core commitish release) s1 = (inr info, s2) ->
  Releasecmd.Client_Release X client info (world s2) = (inr releaseID, w3) ->
  files = (Releasecmd.archiveFilenamesOf X core release
           ++ [Releasecmd.checksumFilenameOf X (Releasecmd.releaseDirOf X core release)])%list
  /\ (exists uploaded dropped,
        Permutation files (uploaded ++ dropped)
        /\ trace (snd (Releasecmd.handleRelease X core commitish release s))
           = (trace s2 ++ Releasecmd.EvRelease client info
                :: map (Releasecmd.EvUpload client info releaseID) uploaded)%list
        /\ Releasecmd.uploadedFiles
             (Releasecmd.EvRelease client info
                :: map (Releasecmd.EvUpload client info releaseID) uploaded)
           = uploaded
        /\ (fst (Releasecmd.handleRelease X core commitish release s) = inr tt ->
            dropped = [])
        /\ (neverCancels (Config.core_Workforce core) -> dropped = []))
  /\ info
     = if Config.Generate (Config.rs_ReleaseNotesSettings (Config.r_ReleaseSettings release))
       then Releasecmd.setFilename (Releasecmd.releaseInfoOf core commitish release)
              (Releasecmd.releaseNotesFilenameOf X (Releasecmd.releaseDirOf X core release))
       else Releasecmd.releaseInfoOf core commitish release.
Proof.
  intros Hprep Hnotes Hrel.
  assert (Hfiles : files
                   = (Releasecmd.archiveFilenamesOf X core release
                      ++ [Releasecmd.checksumFilenameOf X
                            (Releasecmd.releaseDirOf X core release)])%list).
  { revert Hprep. unfold Releasecmd.prepareRelease, bind.
    destruct (Releasecmd.prepareReleaseDir X _ s) as [[e|u] s0]; [discriminate|].
    intros H. now apply prepareFiles_files in H. }
  split; [exact Hfiles|]. split.
  - assert (Hbody : Releasecmd.handleRelease X core commitish release s
                    = Releasecmd.releaseAndUpload X core client info files s2).
    { unfold Releasecmd.handleRelease, bind. rewrite Hprep.
      unfold Releasecmd.publish, bind. now rewrite Hnotes. }
    rewrite Hbody.
    pose proof (releaseAndUpload_shape X core client info files s2) as Hs.
    cbv zeta in Hs. rewrite Hrel in Hs. cbn [fst] in Hs.
    destruct Hs as (uploaded & dropped & Hperm & Ht & Hok & Hnever & _).
    exists uploaded, dropped. split; [exact Hperm|]. split; [exact Ht|].
    split; [|auto].
    change (Releasecmd.uploadedFiles
              (Releasecmd.EvRelease client info
                 :: map (Releasecmd.EvUpload client info releaseID) uploaded))
      with (Releasecmd.uploadedFiles
              (map (Releasecmd.EvUpload client info releaseID) uploaded)).
    apply uploadedFiles_uploads.
  - apply generateReleaseNotes_info in Hnotes. exact Hnotes.
Qed.

(** One release over the two archives, with notes to generate and a pool that
    runs every task: the three files are uploaded. *)
Lemma uploads_are_archives_and_checksum_witness :
  exists uploaded,
    Permutation [Sim.linuxArchive; Sim.darwinArchive; Sim.releaseDir ++ "/checksum.txt"]
      uploaded
    /\ Releasecmd.uploadedFiles
         (trace (snd (Releasecmd.handleRelease (Sim.releaseX (fun _ => None))
                        (Sim.theCore false [Sim.theRelease true "" (fun _ => true)]) "main"
                        (Sim.theRelease true "" (fun _ => true)) Sim.start)))
       = uploaded.
Proof.
  destruct (uploads_are_archives_and_checksum (Sim.releaseX (fun _ => None))
              (Sim.theCore false [Sim.theRelease true "" (fun _ => true)]) "main"
              (Sim.theRelease true "" (fun _ => true)) Sim.start
              _ _ _ _ _ _ _ eq_refl eq_refl eq_refl)
    as (_ & (uploaded & dropped & Hperm & Ht & _ & _ & Hnever) & _).
  rewrite (Hnever (fun _ => eq_refl)), app_nil_r in Hperm.
  exists uploaded. split; [exact Hperm|].
  rewrite Ht. unfold Releasecmd.uploadedFiles. rewrite flat_map_app. cbn [flat_map app].
  fold (Releasecmd.uploadedFiles (map (Releasecmd.EvUpload
          (Releasecmd.ProviderClient 1)
          (Releasecmd.setFilename
             (Releasecmd.releaseInfoOf
                (Sim.theCore false [Sim.theRelease true "" (fun _ => true)]) "main"
                (Sim.theRelease true "" (fun _ => true)))
             (Sim.releaseDir ++ "/release-notes.md")) 42%Z) uploaded)).
  rewrite uploadedFiles_uploads. reflexivity.
Defined.

(** C3, as it is worded, fails: a release over the two archives with notes
    to generate goes through; [release-notes.md] is created, and the files
    uploaded are the two archives and [checksum.txt]: the release notes are
    not among them. *)
Lemma release_notes_are_not_uploaded :
  let run := Releasecmd.handleRelease (Sim.releaseX (fun _ => None))
               (Sim.theCore false [Sim.theRelease true "" (fun _ => true)]) "main"
               (Sim.theRelease true "" (fun _ => true)) Sim.start in
  fst run = inr tt
  /\ In (Sim.releaseDir ++ "/release-notes.md") (Releasecmd.createdFiles (trace (snd run)))
  /\ Releasecmd.uploadedFiles (trace (snd run))
     = [Sim.linuxArchive; Sim.darwinArchive; Sim.releaseDir ++ "/checksum.txt"]
  /\ ~ In (Sim.releaseDir ++ "/release-notes.md")
         (Releasecmd.uploadedFiles (trace (snd run))).
Proof.
  vm_compute. split; [reflexivity|]. split; [right; left; reflexivity|].
  split; [reflexivity|]. intros [H|[H|[H|[]]]]; discriminate.
Qed.

(** ** Grouping the changes *)

Section GroupingFacts.
Import Config Releasecmd.

(** The function of lines 230-240 answers with the first rule that matches. *)
Lemma groupOf_first_match (groups : list ReleaseNotesGroup) (change : Change)
    (i : nat) (g : ReleaseNotesGroup) :
  nth_error groups i = Some g ->
  RegexpCompiled g (Subject change) = true ->
  (forall j g', j < i -> nth_error groups j = Some g' ->
                RegexpCompiled g' (Subject change) = false) ->
  groupOf groups change = if Ignore g then ("", false) else (Title g, true).
Proof.
  revert i. induction groups as [|g0 rest IH]; intros i Hnth Hm Hfirst.
  - destruct i; discriminate.
  - destruct i as [|i]; cbn in *.
    + inversion Hnth; subst. now rewrite Hm.
    + rewrite (Hfirst 0 g0) by (auto; lia).
      apply (IH i); auto.
      intros j g' Hj Hn. apply (Hfirst (S j) g'); [lia|exact Hn].
Qed.

Lemma groupOf_no_match (groups : list ReleaseNotesGroup) (change : Change) :
  (forall g, In g groups -> RegexpCompiled g (Subject change) = false) ->
  groupOf groups change = ("", false).
Proof.
  induction groups as [|g0 rest IH]; intros Hno; cbn; [reflexivity|].
  rewrite (Hno g0) by now left.
  apply IH. intros g Hin. apply Hno. now right.
Qed.

Variable f : Change -> string * bool.

Lemma addChange_sound (title : string) (change : Change) (g : list TitleChanges) :
  f change = (title, true) -> groupsSound f g -> groupsSound f (addChange title change g).
Proof.
  intros Hf. induction g as [|tc0 rest IH]; intros Hs tc c Hin Hc.
  - destruct Hin as [<-|[]]. destruct Hc as [<-|[]]. exact Hf.
  - cbn in Hin. destruct (String.eqb (tc_Title tc0) title) eqn:Ht.
    + apply String.eqb_eq in Ht. destruct Hin as [<-|Hin].
      * cbn in *. apply in_app_or in Hc. destruct Hc as [Hc|[<-|[]]].
        -- apply (Hs tc0 c); [now left|exact Hc].
        -- now rewrite Ht.
      * apply (Hs tc c); [now right|exact Hc].
    + destruct Hin as [<-|Hin].
      * apply (Hs tc0 c); [now left|exact Hc].
      * apply IH; auto. intros tc' c' Hin' Hc'. apply (Hs tc' c'); [now right|exact Hc'].
Qed.

Lemma addChange_adds (title : string) (change : Change) (g : list TitleChanges) :
  exists tc, In tc (addChange title change g)
             /\ tc_Title tc = title /\ In change (Changes tc).
Proof.
  induction g as [|tc0 rest IH]; cbn.
  - eexists; split; [now left|]. cbn. auto.
  - destruct (String.eqb (tc_Title tc0) title) eqn:Ht.
    + apply String.eqb_eq in Ht. eexists; split; [now left|]. cbn.
      split; [exact Ht|]. apply in_or_app. right. now left.
    + destruct IH as (tc & Hin & Htc & Hc). exists tc. split; [now right|auto].
Qed.

Lemma addChange_keeps (title : string) (change c : Change) (g : list TitleChanges)
    (tc : TitleChanges) :
  In tc g -> In c (Changes tc) ->
  exists tc', In tc' (addChange title change g)
              /\ tc_Title tc' = tc_Title tc /\ In c (Changes tc').
Proof.
  induction g as [|tc0 rest IH]; intros Hin Hc; [destruct Hin|]. cbn.
  destruct (String.eqb (tc_Title tc0) title) eqn:Ht.
  - destruct Hin as [<-|Hin].
    + eexists; split; [now left|]. cbn. split; [reflexivity|].
      apply in_or_app. now left.
    + exists tc. split; [now right|auto].
  - destruct Hin as [<-|Hin].
    + exists tc0. split; [now left|auto].
    + destruct (IH Hin Hc) as (tc' & Hin' & Ht' & Hc'). exists tc'.
      split; [now right|auto].
Qed.

Lemma fold_sound (infos : list Change) (g : list TitleChanges) :
  groupsSound f g -> groupsSound f (fold_left (groupStep f) infos g).
Proof.
  revert g. induction infos as [|c0 rest IH]; intros g Hs; [exact Hs|].
  cbn. apply IH. unfold groupStep. destruct (f c0) as [title [|]] eqn:Hf; [|exact Hs].
  now apply addChange_sound.
Qed.

Lemma fold_keeps (infos : list Change) (g : list TitleChanges) (tc : TitleChanges)
    (c : Change) :
  In tc g -> In c (Changes tc) ->
  exists tc', In tc' (fold_left (groupStep f) infos g)
              /\ tc_Title tc' = tc_Title tc /\ In c (Changes tc').
Proof.
  revert g tc. induction infos as [|c0 rest IH]; intros g tc Hin Hc; [eauto|].
  cbn. unfold groupStep at 2. destruct (f c0) as [title [|]]; [|eauto].
  destruct (addChange_keeps title c0 c g tc Hin Hc) as (tc1 & Hin1 & Ht1 & Hc1).
  destruct (IH _ tc1 Hin1 Hc1) as (tc2 & Hin2 & Ht2 & Hc2).
  exists tc2. split; [exact Hin2|]. split; [congruence|exact Hc2].
Qed.

Lemma fold_complete (infos : list Change) (g : list TitleChanges) (c : Change)
    (title : string) :
  In c infos -> f c = (title, true) ->
  exists tc, In tc (fold_left (groupStep f) infos g)
             /\ tc_Title tc = title /\ In c (Changes tc).
Proof.
  revert g. induction infos as [|c0 rest IH]; intros g Hin Hf; [destruct Hin|].
  cbn. destruct Hin as [->|Hin]; [|now apply IH].
  unfold groupStep at 2. rewrite Hf.
  destruct (addChange_adds title c g) as (tc1 & Hin1 & Ht1 & Hc1).
  destruct (fold_keeps rest _ tc1 c Hin1 Hc1) as (tc2 & Hin2 & Ht2 & Hc2).
  exists tc2. split; [exact Hin2|]. split; [congruence|exact Hc2].
Qed.

(** A change is a member of the group titled [title] exactly when [f] sent it
    there. *)
Lemma GroupByFunc_sound (infos : list Change) (tc : TitleChanges) (c : Change) :
  In tc (GroupByFunc infos f) -> In c (Changes tc) -> f c = (tc_Title tc, true).
Proof.
  intros Hin Hc. apply (fold_sound infos []); [intros ? ? []|exact Hin|exact Hc].
Qed.

Lemma GroupByFunc_complete (infos : list Change) (c : Change) (title : string) :
  In c infos -> f c = (title, true) ->
  exists tc, In tc (GroupByFunc infos f) /\ tc_Title tc = title /\ In c (Changes tc).
Proof. intros Hin Hf. now apply fold_complete. Qed.

End GroupingFacts.

(** C5. For a change and an ordered list of grouping rules: when rule [i]
    matches the subject and no earlier rule does, the change is sent to the
    title of rule [i] and is a member of the group with that title and of no
    group with another title, unless rule [i] is flagged ignore, in which
    case the change is a member of no group; a change whose subject matches
    no rule is a member of no group. *)
Theorem first_matching_rule_wins (groups : list Config.ReleaseNotesGroup)
    (infos : list Releasecmd.Change) (change : Releasecmd.Change) :
  let result := Releasecmd.GroupByFunc infos (Releasecmd.groupOf groups) in
  (forall i g,
      nth_error groups i = Some g ->
      Config.RegexpCompiled g (Releasecmd.Subject change) = true ->
      (forall j g', j < i -> nth_error groups j = Some g' ->
                    Config.RegexpCompiled g' (Releasecmd.Subject change) = false) ->
      (Config.Ignore g = false ->
       Releasecmd.groupOf groups change = (Config.Title g, true)
       /\ (In change infos ->
           exists tc, In tc result
                      /\ Releasecmd.tc_Title tc = Config.Title g
                      /\ In change (Releasecmd.Changes tc))
       /\ (forall tc, In tc result -> In change (Releasecmd.Changes tc) ->
                      Releasecmd.tc_Title tc = Config.Title g))
      /\ (Config.Ignore g = true ->
          Releasecmd.groupOf groups change = ("", false)
          /\ forall tc, In tc result -> ~ In change (Releasecmd.Changes tc)))
  /\ ((forall g, In g groups ->
                 Config.RegexpCompiled g (Releasecmd.Subject change) = false) ->
      Releasecmd.groupOf groups change = ("", false)
      /\ forall tc, In tc result -> ~ In change (Releasecmd.Changes tc)).
Proof.
  intros result. split.
  - intros i g Hnth Hm Hfirst.
    pose proof (groupOf_first_match groups change i g Hnth Hm Hfirst) as Hf.
    split; intros Hig; rewrite Hig in Hf.
    + split; [exact Hf|]. split.
      * intros Hin. now apply GroupByFunc_complete.
      * intros tc Hin Hc.
        pose proof (GroupByFunc_sound _ infos tc change Hin Hc) as Hs.
        congruence.
    + split; [exact Hf|]. intros tc Hin Hc.
      pose proof (GroupByFunc_sound _ infos tc change Hin Hc). congruence.
  - intros Hno. pose proof (groupOf_no_match groups change Hno) as Hf.
    split; [exact Hf|]. intros tc Hin Hc.
    pose proof (GroupByFunc_sound _ infos tc change Hin Hc). congruence.
Qed.

(** The subject [fix typo in a fix for Merge] is matched by the second rule,
    [^fix], and not by the first, [^Merge]: the change is under
    [Bug fixes]. *)
Lemma first_matching_rule_wins_witness :
  Releasecmd.groupOf Sim.groups Sim.fixTypo = ("Bug fixes", true)
  /\ exists tc,
       In tc (Releasecmd.GroupByFunc Sim.changes (Releasecmd.groupOf Sim.groups))
       /\ Releasecmd.tc_Title tc = "Bug fixes"
       /\ In Sim.fixTypo (Releasecmd.Changes tc).
Proof.
  destruct (first_matching_rule_wins Sim.groups Sim.changes Sim.fixTypo) as (Hfirst & _).
  destruct (Hfirst 1 (Config.mkReleaseNotesGroup (Sim.hasPrefix "fix") "Bug fixes" false))
    as (Hkeep & _).
  - reflexivity.
  - reflexivity.
  - intros j g' Hj Hn. destruct j as [|j]; [|lia].
    cbn in Hn. inversion Hn. reflexivity.
  - destruct (Hkeep eq_refl) as (Hf & Hin & _).
    split; [exact Hf|]. apply Hin. right. right. left. reflexivity.
Defined.


(** * Further properties of the archive writer *)

Section TargzMore.
Import Targz.

Lemma remaining_snoc_entry (es : list Entry) (e : Entry) :
  remaining (es ++ [e]) = (bodySize (e_header e) - len (e_body e))%Z.
Proof. unfold remaining. now rewrite rev_snoc_entries. Qed.

(** The copy only grows the stream below the tar writer. *)
Lemma io_Copy_fresh (t : TarWriter) (f : File) (es : list Entry) (h : Header) :
  tw_entries t = (es ++ [mkEntry h []])%list ->
  (exists k, tw_entries (snd (fst (io_Copy t f)))
             = (es ++ [mkEntry h (firstn k (f_data f))])%list)
  /\ grows (tw_w t) (tw_w (snd (fst (io_Copy t f)))).
Proof.
  intros Hes. unfold io_Copy, File_ReadAll.
  destruct (f_data f) as [|x d] eqn:Hd; cbn [fst snd].
  - split; [now exists 0|apply grows_refl].
  - destruct (tw_Write_fresh t es h (x :: d) Hes) as ((k & Hk) & Hg).
    destruct (tw_Write t (x :: d)) as [[n [e|]] t1]; cbn [fst snd] in *; eauto.
Qed.

Lemma receive_takesAll (g : GzipWriter) (blocks : list Block) :
  takesAll g -> takesAll (receive g blocks).
Proof. intros (_ & _ & Ho). repeat split. exact Ho. Qed.

Lemma receive_receive (g : GzipWriter) (b1 b2 : list Block) :
  receive (receive g b1) b2 = receive g (b1 ++ b2).
Proof. unfold receive. cbn. now rewrite app_assoc. Qed.

Lemma gw_Write_takesAll (g : GzipWriter) (blk : Block) :
  takesAll g -> gw_Write g blk = (None, receive g [blk]).
Proof. intros (He & Hc & Ho). unfold gw_Write. now rewrite He, Hc, Ho. Qed.

Lemma tw_Flush_takesAll (t : TarWriter) :
  tw_state t = TwOpen -> (remaining (tw_entries t) <= 0)%Z -> takesAll (tw_w t) ->
  tw_Flush t
  = (None, tw_set t (receive (tw_w t) [BlockPadding (tw_pad t)]) (tw_entries t) 0%Z TwOpen).
Proof.
  intros Hst Hr Hg. unfold tw_Flush, tw_err. rewrite Hst.
  destruct (0 <? remaining (tw_entries t))%Z eqn:Hlt; [apply Z.ltb_lt in Hlt; lia|].
  now rewrite gw_Write_takesAll.
Qed.

(** On a writer that can take an entry and whose stream takes every write,
    [WriteHeader] does what the check of the header says. *)
Lemma tw_WriteHeader_takesAll (t : TarWriter) (h : Header) :
  tw_state t = TwOpen -> (remaining (tw_entries t) <= 0)%Z -> takesAll (tw_w t) ->
  tw_WriteHeader t h
  = match allowedFormats t h with
    | Some e =>
        (Some e,
         tw_set t (receive (tw_w t) [BlockPadding (tw_pad t)]) (tw_entries t) 0%Z TwOpen)
    | None =>
        (None,
         tw_set t (receive (tw_w t) [BlockPadding (tw_pad t); BlockPadding 0%Z; BlockHeader h])
           (tw_entries t ++ [mkEntry h []]) (blockPadding (bodySize h)) TwOpen)
    end.
Proof.
  intros Hst Hr Hg. unfold tw_WriteHeader. rewrite tw_Flush_takesAll by assumption.
  change (allowedFormats (tw_set t (receive (tw_w t) [BlockPadding (tw_pad t)])
                            (tw_entries t) 0%Z TwOpen) h)
    with (allowedFormats t h).
  destruct (allowedFormats t h); [reflexivity|].
  unfold writeRawHeader. rewrite tw_Flush_takesAll.
  - cbn [tw_set tw_w tw_entries tw_pad tw_refuses].
    rewrite gw_Write_takesAll by (apply receive_takesAll, receive_takesAll, Hg).
    now rewrite !receive_receive.
  - reflexivity.
  - exact Hr.
  - apply receive_takesAll, Hg.
Qed.

(** The whole body of an entry just begun, written at once to a stream that
    takes every write. *)
Lemma tw_Write_takesAll (t : TarWriter) (es : list Entry) (h : Header)
    (x : Byte.byte) (b : list Byte.byte) :
  tw_state t = TwOpen -> tw_entries t = (es ++ [mkEntry h []])%list ->
  bodySize h = len (x :: b) -> takesAll (tw_w t) ->
  tw_Write t (x :: b)
  = ((len (x :: b), None),
     tw_set t (receive (tw_w t) [BlockData (x :: b)]) (es ++ [mkEntry h (x :: b)])
       (tw_pad t) TwOpen).
Proof.
  intros Hst Hes Hsz Hg. unfold tw_Write, tw_err. rewrite Hst, Hes, remaining_snoc_entry.
  cbn [e_header e_body]. rewrite Hsz.
  change (len []) with 0%Z. rewrite Z.sub_0_r, Z.ltb_irrefl.
  rewrite gw_Write_takesAll by assumption. now rewrite appendBody_snoc.
Qed.

(** Closing the gzip writer or the sink leaves the tar writer's entries and
    state as they are. *)
Lemma gw_Close_tw (a : Archive) :
  tw_entries (tw (snd (gw_Close a))) = tw_entries (tw a)
  /\ tw_state (tw (snd (gw_Close a))) = tw_state (tw a).
Proof. unfold gw_Close. now destruct (GzipWriter_Close (gw a)). Qed.

Lemma out_Close_tw (a : Archive) :
  tw_entries (tw (snd (out_Close a))) = tw_entries (tw a)
  /\ tw_state (tw (snd (out_Close a))) = tw_state (tw a).
Proof. now unfold out_Close. Qed.

(** After [Close], the tar writer is closed, unless it held an error. *)
Lemma TarWriter_Close_state (t : TarWriter) :
  tw_entries (snd (TarWriter_Close t)) = tw_entries t
  /\ tw_state (snd (TarWriter_Close t))
     = match tw_state t with TwFailed e => TwFailed e | _ => TwClosed end
  /\ (forall e, tw_state t = TwFailed e -> fst (TarWriter_Close t) = Some e).
Proof.
  unfold TarWriter_Close. destruct (tw_state t) eqn:Hst.
  - pose proof (tw_Flush_shape t) as (He & _ & _).
    destruct (tw_Flush t) as [err t1]. cbn in He.
    destruct (match err with
              | Some e => (Some e, tw_w t1)
              | None => writeTrailer (tw_w t1)
              end) as [err' g].
    cbn. split; [exact He|]. split; [reflexivity|discriminate].
  - cbn. rewrite Hst. split; [reflexivity|]. split; [reflexivity|discriminate].
  - cbn. rewrite Hst. split; [reflexivity|]. split; [reflexivity|].
    intros e0 H; now inversion H.
Qed.

End TargzMore.

(** X1. Whatever [AddAndClose(targetPath, f)] returns, it only appends to the
    archive: the entries that were there are kept as they were, at most one
    entry is added, and an added entry is named [targetPath] and holds a
    prefix of the bytes of the file.  The stream below the tar writer has
    only taken in more blocks, and no layer of the archive is closed. *)
Theorem AddAndClose_appends_only (a : Targz.Archive) (targetPath : string) (f : Targz.File) :
  let a1 := snd (fst (Targz.AddAndClose a targetPath f)) in
  (Targz.tw_entries (Targz.tw a1) = Targz.tw_entries (Targz.tw a)
   \/ exists h k,
        Targz.tw_entries (Targz.tw a1)
        = (Targz.tw_entries (Targz.tw a)
           ++ [Targz.mkEntry h (firstn k (Targz.f_data f))])%list
        /\ Targz.h_Name h = targetPath)
  /\ Targz.grows (Targz.gw a) (Targz.gw a1)
  /\ Targz.closeLog a1 = Targz.closeLog a.
Proof.
  unfold Targz.AddAndClose, Targz.addBody, Targz.File_Stat.
  destruct (Targz.f_statResult f) as [e|info]; cbn [fst snd];
    [auto using grows_refl|].
  destruct (Targz.FileInfoHeader info "") as [e|header]; cbn [fst snd];
    [auto using grows_refl|].
  pose proof (tw_WriteHeader_shape (Targz.tw a) (Targz.setName header targetPath))
    as (Hsh & Hg).
  destruct (Targz.tw_WriteHeader (Targz.tw a) (Targz.setName header targetPath))
    as [[e|] t1] eqn:Hwh; cbn [fst snd] in *.
  { destruct Hsh as [Hsh|Hsh]; [|discriminate]. cbn. auto. }
  apply tw_WriteHeader_ok in Hwh. destruct Hwh as (Hes & _ & _).
  destruct (io_Copy_fresh t1 (Targz.logOp f Targz.OpStat) _ _ Hes) as ((k & Hk) & Hg2).
  destruct (Targz.io_Copy t1 (Targz.logOp f Targz.OpStat)) as [[[n err] t2] f2].
  cbn [fst snd] in *.
  assert (Hgoal : (Targz.tw_entries t2 = Targz.tw_entries (Targz.tw a)
                   \/ exists h k0,
                        Targz.tw_entries t2
                        = (Targz.tw_entries (Targz.tw a)
                           ++ [Targz.mkEntry h (firstn k0 (Targz.f_data f))])%list
                        /\ Targz.h_Name h = targetPath)
                  /\ Targz.grows (Targz.gw a) (Targz.tw_w t2)).
  { split; [|eapply grows_trans; eauto].
    right. exists (Targz.setName header targetPath), k. auto. }
  destruct err as [e|]; cbn; destruct Hgoal; auto.
Qed.

(** X2. When the metadata of the file cannot be read, or the file is of a
    kind [tar.FileInfoHeader] refuses, [AddAndClose] returns that very error,
    the archive is exactly as it was, and the file has only been asked for
    its metadata and closed. *)
Theorem AddAndClose_unreadable (a : Targz.Archive) (targetPath : string) (f : Targz.File)
    (err : error) :
  Targz.f_statResult f = inl err
  \/ (exists info, Targz.f_statResult f = inr info
                   /\ Targz.FileInfoHeader info "" = inl err) ->
  Targz.AddAndClose a targetPath f
  = (Some err, a, Targz.File_Close (Targz.logOp f Targz.OpStat)).
Proof.
  unfold Targz.AddAndClose, Targz.addBody, Targz.File_Stat.
  intros [Hst|(info & Hst & Hh)]; rewrite Hst; [reflexivity|].
  now rewrite Hh.
Qed.

(** A socket is refused, and the archive is still empty. *)
Lemma AddAndClose_unreadable_witness :
  Targz.AddAndClose Sim.healthyArchive "bin/hugo.sock" Sim.socketFile
  = (Some (errorsNew "archive/tar: sockets not supported"), Sim.healthyArchive,
     Targz.File_Close (Targz.logOp Sim.socketFile Targz.OpStat)).
Proof.
  apply AddAndClose_unreadable. right. eexists. split; reflexivity.
Defined.

(** X3. A regular file whose content has the size its metadata announces and
    reads without error, added under a name that does not end with a slash
    and that the tar encoding does not refuse, to an archive that can take a
    new entry and whose stream takes every write: [AddAndClose] returns nil,
    the entry is complete, the stream has taken in that one header and the
    content of the file, and the archive can take a new entry again, so such
    additions can follow one another.  A name that ends with a slash is
    refused, and no entry is added. *)
Theorem AddAndClose_succeeds (a : Targz.Archive) (targetPath : string) (f : Targz.File)
    (info : Targz.FileInfo) (header : Targz.Header) :
  Targz.ready a ->
  Targz.sound a ->
  Targz.f_statResult f = inr info ->
  Targz.fi_Type info = Targz.ModeRegular ->
  Targz.fi_Size info = Targz.len (Targz.f_data f) ->
  Targz.f_readErr f = None ->
  Targz.FileInfoHeader info "" = inr header ->
  Targz.tw_refuses (Targz.tw a) (Targz.setName header targetPath) = None ->
  let r := Targz.AddAndClose a targetPath f in
  if Targz.endsWithSlash targetPath
  then fst (fst r)
       = Some (Targz.headerError "filename may not have trailing slash")
       /\ Targz.tw_entries (Targz.tw (snd (fst r))) = Targz.tw_entries (Targz.tw a)
  else fst (fst r) = None
       /\ Targz.tw_entries (Targz.tw (snd (fst r)))
          = (Targz.tw_entries (Targz.tw a)
             ++ [Targz.mkEntry (Targz.setName header targetPath) (Targz.f_data f)])%list
       /\ Targz.h_Size header = Targz.len (Targz.f_data f)
       /\ (exists blocks,
             Targz.gw_received (Targz.gw (snd (fst r)))
             = (Targz.gw_received (Targz.gw a) ++ blocks)%list
             /\ Targz.headersOf blocks = [Targz.setName header targetPath]
             /\ Targz.dataOf blocks = Targz.f_data f)
       /\ Targz.ready (snd (fst r))
       /\ Targz.sound (snd (fst r)).
Proof.
  intros (Hst0 & Hrem) Hsound Hst Hty Hsz Hrd Hh Href.
  assert (Hheader : header = Targz.mkHeader Targz.TypeReg (Targz.fi_Name info) ""
                               (Targz.fi_Size info) (Targz.fi_Perm info)
                               (Targz.fi_ModTime info)).
  { revert Hh. unfold Targz.FileInfoHeader. rewrite Hty. intros H; now inversion H. }
  assert (Hlen : (0 <= Targz.len (Targz.f_data f))%Z) by (unfold Targz.len; lia).
  assert (Hsize : Targz.h_Size header = Targz.len (Targz.f_data f))
    by (rewrite Hheader; cbn; exact Hsz).
  assert (Hbody : Targz.bodySize (Targz.setName header targetPath)
                  = Targz.len (Targz.f_data f))
    by (rewrite Hheader; cbn; exact Hsz).
  assert (Hallowed : Targz.allowedFormats (Targz.tw a) (Targz.setName header targetPath)
                     = if Targz.endsWithSlash targetPath
                       then Some (Targz.headerError "filename may not have trailing slash")
                       else None).
  { unfold Targz.allowedFormats. rewrite Href.
    replace (Targz.h_Typeflag (Targz.setName header targetPath)) with Targz.TypeReg
      by (now rewrite Hheader).
    replace (Targz.h_Size (Targz.setName header targetPath))
      with (Targz.len (Targz.f_data f)) by (now rewrite <- Hsize).
    cbn [Targz.setName Targz.h_Name Targz.isHeaderOnlyType negb andb].
    destruct (Targz.endsWithSlash targetPath); [reflexivity|].
    destruct (Targz.len (Targz.f_data f) <? 0)%Z eqn:Hneg; [apply Z.ltb_lt in Hneg; lia|].
    reflexivity. }
  unfold Targz.AddAndClose, Targz.addBody, Targz.File_Stat. rewrite Hst, Hh.
  rewrite tw_WriteHeader_takesAll, Hallowed by assumption.
  destruct (Targz.endsWithSlash targetPath); [cbn; auto|].
  unfold Targz.io_Copy, Targz.File_ReadAll.
  cbn [Targz.f_data Targz.logOp Targz.f_readErr].
  assert (Hready : forall g pad,
             Targz.ready
               (Targz.setTw a
                  (Targz.tw_set (Targz.tw a) g
                     (Targz.tw_entries (Targz.tw a)
                      ++ [Targz.mkEntry (Targz.setName header targetPath) (Targz.f_data f)])
                     pad Targz.TwOpen))).
  { intros g pad. split; [reflexivity|]. cbn [Targz.tw Targz.setTw Targz.tw_entries Targz.tw_set].
    rewrite remaining_snoc_entry. cbn [Targz.e_header Targz.e_body]. rewrite Hbody. lia. }
  destruct (Targz.f_data f) as [|x d] eqn:Hd.
  - rewrite Hrd. cbn [fst snd].
    split; [reflexivity|]. split; [reflexivity|]. split; [exact Hsize|].
    split; [eexists; split; [reflexivity|split; reflexivity]|]. split; [apply Hready|].
    apply (receive_takesAll (Targz.gw a)), Hsound.
  - rewrite (tw_Write_takesAll _ (Targz.tw_entries (Targz.tw a))
               (Targz.setName header targetPath) x d);
      [|reflexivity|reflexivity|exact Hbody|apply (receive_takesAll (Targz.gw a)), Hsound].
    rewrite Hrd. cbn [fst snd Targz.tw_set Targz.tw_w]. rewrite receive_receive.
    split; [reflexivity|]. split; [reflexivity|]. split; [exact Hsize|].
    split; [eexists; split; [reflexivity|split; [reflexivity|cbn; now rewrite app_nil_r]]|].
    split; [apply Hready|].
    apply (receive_takesAll (Targz.gw a)), Hsound.
Qed.

(** The five-byte file, added to an empty archive. *)
Lemma AddAndClose_succeeds_witness :
  fst (fst (Targz.AddAndClose Sim.healthyArchive "bin/hugo" Sim.helloFile)) = None
  /\ Targz.ready (snd (fst (Targz.AddAndClose Sim.healthyArchive "bin/hugo" Sim.helloFile))).
Proof.
  pose proof (AddAndClose_succeeds Sim.healthyArchive "bin/hugo" Sim.helloFile Sim.helloInfo
                (Targz.mkHeader Targz.TypeReg "hugo" "" 5%Z 493%Z 1660000000%Z)) as H.
  cbv zeta in H. change (Targz.endsWithSlash "bin/hugo") with false in H.
  destruct H as (Hnil & _ & _ & _ & Hready & _).
  - unfold Targz.ready. cbn. split; [reflexivity|]. lia.
  - repeat split.
  - reflexivity.
  - reflexivity.
  - reflexivity.
  - reflexivity.
  - reflexivity.
  - reflexivity.
  - split; [exact Hnil|exact Hready].
Defined.

(** X4. [Finalize] leaves the entries as they are and, whatever it returns,
    leaves a tar writer that takes no more entries: it is closed, unless it
    held the error of a failed write, which it keeps and which [Finalize]
    returns.  A file added after [Finalize] is refused once its metadata is
    read, with [archive/tar: write after close] in the first case and with
    the error the writer held in the second, and is not added. *)
Theorem AddAndClose_after_Finalize (a : Targz.Archive) (targetPath : string)
    (f : Targz.File) (info : Targz.FileInfo) (header : Targz.Header) :
  Targz.f_statResult f = inr info ->
  Targz.FileInfoHeader info "" = inr header ->
  let a1 := snd (Targz.Finalize a) in
  Targz.tw_entries (Targz.tw a1) = Targz.tw_entries (Targz.tw a)
  /\ Targz.tw_state (Targz.tw a1)
     = match Targz.tw_state (Targz.tw a) with
       | Targz.TwFailed e => Targz.TwFailed e
       | _ => Targz.TwClosed
       end
  /\ (forall e, Targz.tw_state (Targz.tw a) = Targz.TwFailed e ->
                fst (Targz.Finalize a) = Some e)
  /\ fst (fst (Targz.AddAndClose a1 targetPath f))
     = Some match Targz.tw_state (Targz.tw a) with
            | Targz.TwFailed e => e
            | _ => Targz.ErrWriteAfterClose
            end
  /\ Targz.tw_entries (Targz.tw (snd (fst (Targz.AddAndClose a1 targetPath f))))
     = Targz.tw_entries (Targz.tw a).
Proof.
  intros Hst Hh a1.
  assert (Hfin : Targz.tw_entries (Targz.tw a1) = Targz.tw_entries (Targz.tw a)
                 /\ Targz.tw_state (Targz.tw a1)
                    = match Targz.tw_state (Targz.tw a) with
                      | Targz.TwFailed e => Targz.TwFailed e
                      | _ => Targz.TwClosed
                      end
                 /\ (forall e, Targz.tw_state (Targz.tw a) = Targz.TwFailed e ->
                               fst (Targz.Finalize a) = Some e)).
  { subst a1. unfold Targz.Finalize, Targz.tw_Close.
    pose proof (TarWriter_Close_state (Targz.tw a)) as (He & Hs & Hf).
    destruct (Targz.TarWriter_Close (Targz.tw a)) as [[e|] t1]; cbn [fst snd] in *.
    { split; [exact He|]. split; [exact Hs|]. exact Hf. }
    pose proof (gw_Close_tw (Targz.logClose (Targz.setTw a t1) Targz.LayerTar))
      as (He2 & Hs2).
    destruct (Targz.gw_Close (Targz.logClose (Targz.setTw a t1) Targz.LayerTar))
      as [[e|] a2]; cbn [fst snd Targz.tw Targz.logClose Targz.setTw] in *.
    { split; [congruence|]. split; [congruence|].
      intros e0 H0. specialize (Hf e0 H0). discriminate. }
    pose proof (out_Close_tw a2) as (He3 & Hs3).
    cbn [Targz.tw Targz.logClose Targz.setTw] in He2, Hs2.
    split; [congruence|]. split; [congruence|].
    intros e0 H0. specialize (Hf e0 H0). discriminate. }
  destruct Hfin as (He & Hs & Hf).
  split; [exact He|]. split; [exact Hs|]. split; [exact Hf|].
  unfold Targz.AddAndClose, Targz.addBody, Targz.File_Stat. rewrite Hst, Hh.
  unfold Targz.tw_WriteHeader, Targz.tw_Flush, Targz.tw_err. rewrite Hs.
  destruct (Targz.tw_state (Targz.tw a)); cbn; auto.
Qed.

(** The five-byte file, offered to an archive that has been finalized. *)
Lemma AddAndClose_after_Finalize_witness :
  fst (fst (Targz.AddAndClose (snd (Targz.Finalize Sim.healthyArchive)) "bin/hugo"
              Sim.helloFile))
  = Some Targz.ErrWriteAfterClose.
Proof.
  destruct (AddAndClose_after_Finalize Sim.healthyArchive "bin/hugo" Sim.helloFile
              Sim.helloInfo
              (Targz.mkHeader Targz.TypeReg "hugo" "" 5%Z 493%Z 1660000000%Z)
              eq_refl eq_refl) as (_ & _ & _ & H & _).
  exact H.
Defined.

(** * Further properties of the archive command *)

Section ArchivecmdMore.
Import Config Archivecmd.

Context {World : Type} (X : Externals World) (b : Archivist).

(** The task of a target, call by call: each call is made on the world the
    call before left, and only when that call returned nil. *)
Lemma archiveTask_steps (archive : Archive) (archPath : BuildArchPath)
    (s : State World Event) :
  let outDir := outDirOf X b archPath in
  let binaryFilename := binaryFilenameOf X b archPath in
  let dir := filepath_Dir X (outFilenameOf X b archive archPath) in
  let buildRequest := buildRequestOf X b archive archPath in
  let r1 := ioh_RemoveAllMkdirAll X outDir (world s) in
  let r2 := os_Stat X binaryFilename (snd r1) in
  let r3 := os_MkdirAll X dir (snd r2) in
  let r4 := archives_Build X (archive_ArchiveSettings archive) buildRequest (snd r3) in
  let calls :=
    [EvRemoveAllMkdirAll outDir; EvStat binaryFilename; EvMkdirAll dir;
     EvBuild buildRequest] in
  archiveTask X b archive archPath s
  = match fst r1, fst r2, fst r3, fst r4 with
    | Some e, _, _, _ => (inl e, mkState (snd r1) (trace s ++ firstn 1 calls))
    | None, Some _, _, _ =>
        (inl (binaryNotFound X binaryFilename),
         mkState (snd r2) (trace s ++ firstn 2 calls))
    | None, None, Some e, _ => (inl e, mkState (snd r3) (trace s ++ firstn 3 calls))
    | None, None, None, Some e => (inl e, mkState (snd r4) (trace s ++ calls))
    | None, None, None, None => (inr tt, mkState (snd r4) (trace s ++ calls))
    end.
Proof.
  unfold archiveTask, bind, call, check, throw, ret. cbv zeta.
  destruct (ioh_RemoveAllMkdirAll X _ (world s)) as [[e|] w1]; cbn; [reflexivity|].
  destruct (os_Stat X _ w1) as [[e|] w2]; cbn; [now rewrite <- app_assoc|].
  destruct (os_MkdirAll X _ w2) as [[e|] w3]; cbn; [now rewrite <- !app_assoc|].
  destruct (archives_Build X _ _ w3) as [[e|] w4]; cbn; now rewrite <- !app_assoc.
Qed.

(** A task that returns nil has made its four calls. *)
Lemma archiveTask_nil (archive : Archive) (archPath : BuildArchPath)
    (s : State World Event) :
  fst (archiveTask X b archive archPath s) = inr tt ->
  trace (snd (archiveTask X b archive archPath s))
  = (trace s
     ++ [EvRemoveAllMkdirAll (outDirOf X b archPath);
         EvStat (binaryFilenameOf X b archPath);
         EvMkdirAll (filepath_Dir X (outFilenameOf X b archive archPath));
         EvBuild (buildRequestOf X b archive archPath)])%list.
Proof.
  pose proof (archiveTask_steps archive archPath s) as H. cbv zeta in H. rewrite H.
  destruct (fst (ioh_RemoveAllMkdirAll X _ (world s))); [discriminate|].
  destruct (fst (os_Stat X _ _)); [discriminate|].
  destruct (fst (os_MkdirAll X _ _)); [discriminate|].
  destruct (fst (archives_Build X _ _ _)); [discriminate|reflexivity].
Qed.

Lemma builds_app (t1 t2 : list Event) :
  builds (t1 ++ t2) = (builds t1 ++ builds t2)%list.
Proof. unfold builds. apply flat_map_app. Qed.

(** When no task failed, the tasks that were run built one archive each,
    in the order in which they were run. *)
Lemma runInOrder_ok_builds (l : list (Archive * BuildArchPath)) (s : State World Event) :
  firstError
    (fst (runInOrder (map (fun t => archiveTask X b (fst t) (snd t)) l) s)) = None ->
  exists evs,
    trace (snd (runInOrder (map (fun t => archiveTask X b (fst t) (snd t)) l) s))
    = (trace s ++ evs)%list
    /\ builds evs = map (fun t => buildRequestOf X b (fst t) (snd t)) l.
Proof.
  revert s. induction l as [|[archive archPath] r IH]; intros s.
  - intros _. exists []. cbn. now rewrite app_nil_r.
  - cbn [map]. unfold Task in *. rewrite runInOrder_cons. cbn [fst snd firstError].
    pose proof (archiveTask_nil archive archPath s) as Ht.
    destruct (fst (archiveTask X b archive archPath s)) as [e|[]] eqn:Hr;
      [discriminate|].
    intros Hrest. specialize (Ht eq_refl).
    destruct (IH _ Hrest) as (evs & Ht2 & Hb).
    eexists. split.
    + rewrite Ht2, Ht, <- app_assoc. reflexivity.
    + rewrite builds_app, Hb. reflexivity.
Qed.

(** When [Wait] returns nil, every target was built, once. *)
Lemma pool_ok_builds (pool : Workforce) (l : list (Archive * BuildArchPath))
    (s : State World Event) :
  firstError
    (fst (Workforce_run pool (map (fun t => archiveTask X b (fst t) (snd t)) l) s)) = None ->
  exists evs,
    trace (snd (Workforce_run pool (map (fun t => archiveTask X b (fst t) (snd t)) l) s))
    = (trace s ++ evs)%list
    /\ Permutation (builds evs) (map (fun t => buildRequestOf X b (fst t) (snd t)) l).
Proof.
  intros Hnil. unfold Task in *.
  destruct (Workforce_run_nil pool _ s Hnil) as (ran & Hperm & Hrun).
  apply Permutation_sym, Permutation_map_inv in Hperm.
  destruct Hperm as (l' & -> & Hperm).
  rewrite Hrun in Hnil |- *.
  destruct (runInOrder_ok_builds l' s Hnil) as (evs & Ht & Hb).
  exists evs. split; [exact Ht|]. rewrite Hb.
  apply Permutation_map. now symmetry.
Qed.

Lemma pool_all_ok (pool : Workforce) (l : list (Archive * BuildArchPath))
    (s : State World Event) :
  (forall t, In t l -> healthy X b (fst t) (snd t)) ->
  firstError
    (fst (Workforce_run pool (map (fun t => archiveTask X b (fst t) (snd t)) l) s)) = None.
Proof.
  intros Hall. unfold Task in *. apply Workforce_run_all_nil.
  intros t Hin s0. apply in_map_iff in Hin. destruct Hin as ([archive archPath] & <- & Hin).
  destruct (archiveTask_healthy X b archive archPath s0 (Hall _ Hin)) as (Hok & _).
  exact Hok.
Qed.

End ArchivecmdMore.

(** X5. The task of a target makes its calls in one order, each on the world
    the call before left and only when that call returned nil: the output
    directory is recreated; when that fails the task returns its error and
    makes no other call.  Then the binary is looked for; when [os.Stat]
    returns an error, whatever it is, the task returns
    [archive: binary file not found] with the quoted path.  Then the
    directory of the output file is made, then [archives.Build] is called
    with the request of the target; the error of either is returned as it
    is.  The task returns nil exactly when the four calls returned nil. *)
Theorem archiveTask_calls_in_order {World : Type}
    (X : Archivecmd.Externals World) (b : Archivecmd.Archivist)
    (archive : Config.Archive) (archPath : Config.BuildArchPath)
    (s : State World Archivecmd.Event) :
  let outDir := Archivecmd.outDirOf X b archPath in
  let binaryFilename := Archivecmd.binaryFilenameOf X b archPath in
  let dir := Archivecmd.filepath_Dir X (Archivecmd.outFilenameOf X b archive archPath) in
  let buildRequest := Archivecmd.buildRequestOf X b archive archPath in
  let r1 := Archivecmd.ioh_RemoveAllMkdirAll X outDir (world s) in
  let r2 := Archivecmd.os_Stat X binaryFilename (snd r1) in
  let r3 := Archivecmd.os_MkdirAll X dir (snd r2) in
  let r4 :=
    Archivecmd.archives_Build X (Config.archive_ArchiveSettings archive) buildRequest
      (snd r3) in
  let calls :=
    [Archivecmd.EvRemoveAllMkdirAll outDir; Archivecmd.EvStat binaryFilename;
     Archivecmd.EvMkdirAll dir; Archivecmd.EvBuild buildRequest] in
  Archivecmd.archiveTask X b archive archPath s
  = match fst r1, fst r2, fst r3, fst r4 with
    | Some e, _, _, _ => (inl e, mkState (snd r1) (trace s ++ firstn 1 calls))
    | None, Some _, _, _ =>
        (inl (Archivecmd.binaryNotFound X binaryFilename),
         mkState (snd r2) (trace s ++ firstn 2 calls))
    | None, None, Some e, _ => (inl e, mkState (snd r3) (trace s ++ firstn 3 calls))
    | None, None, None, Some e => (inl e, mkState (snd r4) (trace s ++ calls))
    | None, None, None, None => (inr tt, mkState (snd r4) (trace s ++ calls))
    end.
Proof. apply archiveTask_steps. Qed.

(** X6. When [Exec] returns nil, [archives.Build] has been called exactly
    once for every target that [ForEachArchiveArch] visits, each time with
    the request of the target, in the order the pool chose: no target was
    skipped, and nothing else was built. *)
Theorem Exec_nil_builds_every_target {World : Type}
    (X : Archivecmd.Externals World) (b : Archivecmd.Archivist)
    (pathsCompiled : Config.Matcher) (s : State World Archivecmd.Event) :
  Archivecmd.BuildPaths_Init X (Archivecmd.buildPaths b) = inr pathsCompiled ->
  fst (Archivecmd.Exec X b s) = inr tt ->
  exists evs,
    trace (snd (Archivecmd.Exec X b s)) = (trace s ++ evs)%list
    /\ Permutation (Archivecmd.builds evs)
         (map (fun t => Archivecmd.buildRequestOf X b (fst t) (snd t))
            (Archivecmd.targets b pathsCompiled)).
Proof.
  intros Hinit. unfold Archivecmd.Exec. rewrite Hinit.
  pose proof (pool_ok_builds X b (Config.core_Workforce (Archivecmd.core b))
                (Archivecmd.targets b pathsCompiled) s) as Hp.
  destruct (Workforce_run _ _ s) as [errs s1]. cbn in Hp.
  unfold check. destruct (firstError errs); cbn; [discriminate|].
  intros _. apply Hp. reflexivity.
Qed.

(** X7. When nothing fails for any target (and in particular when there is
    no target), [Exec] returns nil. *)
Theorem Exec_all_healthy {World : Type}
    (X : Archivecmd.Externals World) (b : Archivecmd.Archivist)
    (pathsCompiled : Config.Matcher) (s : State World Archivecmd.Event) :
  Archivecmd.BuildPaths_Init X (Archivecmd.buildPaths b) = inr pathsCompiled ->
  (forall t, In t (Archivecmd.targets b pathsCompiled) ->
             Archivecmd.healthy X b (fst t) (snd t)) ->
  fst (Archivecmd.Exec X b s) = inr tt.
Proof.
  intros Hinit Hall. unfold Archivecmd.Exec. rewrite Hinit.
  pose proof (pool_all_ok X b (Config.core_Workforce (Archivecmd.core b))
                (Archivecmd.targets b pathsCompiled) s Hall) as Hp.
  destruct (Workforce_run _ _ s) as [errs s1]. cbn in Hp. rewrite Hp. reflexivity.
Qed.

(** Both binaries are on disk: [Exec] returns nil. *)
Lemma Exec_all_healthy_witness :
  fst (Archivecmd.Exec (Sim.archiveX []) Sim.archivist Sim.start) = inr tt.
Proof.
  apply (Exec_all_healthy (Sim.archiveX []) Sim.archivist (fun _ => true)).
  - reflexivity.
  - intros t Hin w. vm_compute. repeat split; reflexivity.
Defined.

(** Both binaries are on disk, and the pool starts with the last target and
    cancels at the first failure: the two archives are built. *)
Lemma Exec_nil_builds_every_target_witness :
  exists evs,
    trace (snd (Archivecmd.Exec (Sim.archiveX [])
                  (Sim.archivistWith Sim.lastFirstCancelling) Sim.start))
    = (trace (@Sim.start Archivecmd.Event) ++ evs)%list
    /\ Permutation (Archivecmd.builds evs)
         [Archivecmd.buildRequestOf (Sim.archiveX [])
            (Sim.archivistWith Sim.lastFirstCancelling) Sim.theArchive Sim.linuxAmd64;
          Archivecmd.buildRequestOf (Sim.archiveX [])
            (Sim.archivistWith Sim.lastFirstCancelling) Sim.theArchive Sim.darwinArm64].
Proof.
  apply (Exec_nil_builds_every_target (Sim.archiveX [])
           (Sim.archivistWith Sim.lastFirstCancelling) (fun _ => true)).
  - reflexivity.
  - reflexivity.
Defined.

(** * Further properties of the release command *)

Section ReleasecmdMore.
Import Config Releasecmd.

Context {World : Type} (X : Externals World) (core : Core) (commitish : string).

(** [validateAll] answers with the error of a release of the list, and with
    an error as soon as one release is refused. *)
Lemma validateAll_error (l : list Release) (e : error) :
  validateAll X l = Some e ->
  exists r, In r l /\ releases_Validate X (TypeParsed (r_ReleaseSettings r)) = Some e.
Proof.
  induction l as [|r0 rest IH]; cbn; [discriminate|].
  destruct (releases_Validate X (TypeParsed (r_ReleaseSettings r0))) as [e0|] eqn:Hv.
  - intros H; inversion H; subst. exists r0. auto.
  - intros H. destruct (IH H) as (r & Hin & Hr). exists r. auto.
Qed.

Lemma validateAll_refuses (l : list Release) (r : Release) (e : error) :
  In r l -> releases_Validate X (TypeParsed (r_ReleaseSettings r)) = Some e ->
  exists e', validateAll X l = Some e'.
Proof.
  induction l as [|r0 rest IH]; intros Hin Hv; [destruct Hin|]. cbn.
  destruct (releases_Validate X (TypeParsed (r_ReleaseSettings r0))) as [e0|] eqn:Hv0;
    [eauto|].
  destruct Hin as [->|Hin]; [congruence|]. now apply IH.
Qed.

(** When [Init] fails, [Exec] returns its error and has made no call. *)
Lemma Exec_init_error (e : error) (s : State World Event) :
  Init X core commitish = Some e -> Exec X core commitish s = (inl e, s).
Proof. intros H. unfold Exec, bind, check. now rewrite H. Qed.

(** The loop ends at the first iteration that fails. *)
Lemma forEach_stops {A : Type} (l1 l2 : list A) (x : A) (body : A -> M World Event unit)
    (s s1 s2 : State World Event) (e : error) :
  forEach l1 body s = (inr tt, s1) ->
  body x s1 = (inl e, s2) ->
  forEach (l1 ++ x :: l2) body s = (inl e, s2).
Proof.
  revert s. induction l1 as [|y r IH]; intros s H1 Hx; cbn in *.
  - inversion H1; subst. unfold bind. now rewrite Hx.
  - unfold bind in *. destruct (body y s) as [[e'|u] s'] eqn:Hy; [discriminate|].
    now apply IH.
Qed.

Lemma dirEvents_local (evs : list Event) :
  Forall (fun ev => isDirEvent ev = true) evs ->
  createdFiles evs = [] /\ uploadedFiles evs = [] /\ releaseCalls evs = []
  /\ Forall (fun ev => isRemoteEvent ev = false) evs.
Proof.
  induction 1 as [|ev evs Hev _ IH]; [cbn; auto|].
  destruct IH as (A & B & C & D).
  destruct ev; cbn in *; try discriminate; auto.
Qed.

End ReleasecmdMore.

(** X8. With an empty [-commitish], [Exec] returns [release: flag -commitish
    is required] without making any call, whatever the configuration. *)
Theorem Exec_requires_commitish {World : Type}
    (X : Releasecmd.Externals World) (core : Config.Core)
    (s : State World Releasecmd.Event) :
  Releasecmd.Exec X core "" s
  = (inl (errorsNew "release: flag -commitish is required"), s).
Proof. apply Exec_init_error. reflexivity. Qed.

(** X9. When no release matches the paths, [Exec] returns [release: no
    releases found matching -paths] followed by the paths, without making any
    call. *)
Theorem Exec_no_release_matches {World : Type}
    (X : Releasecmd.Externals World) (core : Config.Core) (commitish : string)
    (s : State World Releasecmd.Event) :
  commitish <> "" ->
  Releasecmd.FindReleases X (Config.core_Config core) (Config.PathsReleasesCompiled core)
  = [] ->
  Releasecmd.Exec X core commitish s
  = (inl (errorsNew ("release: no releases found matching -paths ["
                     ++ String.concat " " (Config.Paths core) ++ "]")), s).
Proof.
  intros Hc Hnone. apply Exec_init_error. unfold Releasecmd.Init.
  apply String.eqb_neq in Hc. rewrite Hc, Hnone. reflexivity.
Qed.

(** No release is configured. *)
Lemma Exec_no_release_matches_witness :
  Releasecmd.Exec (Sim.releaseX (fun _ => None)) (Sim.theCore false []) "main" Sim.start
  = (inl (errorsNew "release: no releases found matching -paths []"), Sim.start).
Proof.
  apply (Exec_no_release_matches (Sim.releaseX (fun _ => None)) (Sim.theCore false [])
           "main" Sim.start).
  - discriminate.
  - reflexivity.
Defined.

(** X10. The release types are validated before anything is done: when
    [releases.Validate] refuses the type of one matched release, [Exec]
    returns the validation error of a matched release without making any
    call, so that no release is processed, not even those listed before the
    refused one. *)
Theorem Exec_validates_first {World : Type}
    (X : Releasecmd.Externals World) (core : Config.Core) (commitish : string)
    (release : Config.Release) (err : error) (s : State World Releasecmd.Event) :
  commitish <> "" ->
  In release (Releasecmd.FindReleases X (Config.core_Config core)
                (Config.PathsReleasesCompiled core)) ->
  Releasecmd.releases_Validate X (Config.TypeParsed (Config.r_ReleaseSettings release))
  = Some err ->
  exists e r,
    Releasecmd.Exec X core commitish s = (inl e, s)
    /\ In r (Releasecmd.FindReleases X (Config.core_Config core)
               (Config.PathsReleasesCompiled core))
    /\ Releasecmd.releases_Validate X (Config.TypeParsed (Config.r_ReleaseSettings r))
       = Some e.
Proof.
  intros Hc Hin Hv.
  destruct (validateAll_refuses X _ release err Hin Hv) as (e & He).
  destruct (validateAll_error X _ e He) as (r & Hr & Hvr).
  exists e, r. split; [|auto].
  apply Exec_init_error. unfold Releasecmd.Init.
  apply String.eqb_neq in Hc. rewrite Hc.
  destruct (Releasecmd.FindReleases X _ _) as [|r0 rest]; [destruct Hin|].
  cbn [length Nat.eqb]. exact He.
Qed.

(** A release of a known type followed by one of an unknown type: nothing is
    done for either. *)
Lemma Exec_validates_first_witness :
  Releasecmd.Exec Sim.strictX
    (Sim.theCore false [Sim.theRelease false "" (fun _ => true); Sim.strangeRelease])
    "main" Sim.start
  = (inl Sim.unknownType, Sim.start).
Proof.
  destruct (Exec_validates_first Sim.strictX
              (Sim.theCore false [Sim.theRelease false "" (fun _ => true); Sim.strangeRelease])
              "main" Sim.strangeRelease Sim.unknownType Sim.start) as (e & r & He & _ & _).
  - discriminate.
  - right. left. reflexivity.
  - reflexivity.
  - rewrite He. vm_compute in He. inversion He. reflexivity.
Defined.

(** X11. When [FindReleases] only returns releases of the configuration, the
    test of line 96 never fires: once [Init] has passed, the configuration
    holds a release, and [Exec] is the loop over the matched releases. *)
Theorem Exec_is_the_loop {World : Type}
    (X : Releasecmd.Externals World) (core : Config.Core) (commitish : string)
    (s : State World Releasecmd.Event) :
  incl (Releasecmd.FindReleases X (Config.core_Config core)
          (Config.PathsReleasesCompiled core))
       (Config.Releases (Config.core_Config core)) ->
  Releasecmd.Init X core commitish = None ->
  Releasecmd.Exec X core commitish s
  = forEach (Releasecmd.FindReleases X (Config.core_Config core)
               (Config.PathsReleasesCompiled core))
      (Releasecmd.handleRelease X core commitish) s.
Proof.
  intros Hincl Hinit. unfold Releasecmd.Exec, bind, check. rewrite Hinit. cbn.
  unfold Releasecmd.Init in Hinit.
  destruct (String.eqb commitish ""); [discriminate|].
  destruct (Releasecmd.FindReleases X _ _) as [|r0 rest] eqn:Hfind; [discriminate|].
  destruct (Config.Releases (Config.core_Config core)) as [|c0 crest] eqn:Hrel.
  - destruct (Hincl r0 (or_introl eq_refl)).
  - reflexivity.
Qed.

(** One release over the two archives. *)
Lemma Exec_is_the_loop_witness :
  Releasecmd.Exec (Sim.releaseX (fun _ => None))
    (Sim.theCore false [Sim.theRelease false "" (fun _ => true)]) "main" Sim.start
  = forEach [Sim.theRelease false "" (fun _ => true)]
      (Releasecmd.handleRelease (Sim.releaseX (fun _ => None))
         (Sim.theCore false [Sim.theRelease false "" (fun _ => true)]) "main")
      Sim.start.
Proof.
  apply (Exec_is_the_loop (Sim.releaseX (fun _ => None))
           (Sim.theCore false [Sim.theRelease false "" (fun _ => true)]) "main" Sim.start).
  - intros r Hin. exact Hin.
  - reflexivity.
Defined.

(** X12. The releases are handled one after the other, and the first one
    that fails ends the command: [Exec] returns its error, and the releases
    listed after it are not handled at all, no call is made for them. *)
Theorem Exec_stops_at_first_failure {World : Type}
    (X : Releasecmd.Externals World) (core : Config.Core) (commitish : string)
    (before after : list Config.Release) (release : Config.Release)
    (s s1 s2 : State World Releasecmd.Event) (e : error) :
  Releasecmd.Init X core commitish = None ->
  Config.Releases (Config.core_Config core) <> [] ->
  Releasecmd.FindReleases X (Config.core_Config core) (Config.PathsReleasesCompiled core)
  = (before ++ release :: after)%list ->
  forEach before (Releasecmd.handleRelease X core commitish) s = (inr tt, s1) ->
  Releasecmd.handleRelease X core commitish release s1 = (inl e, s2) ->
  Releasecmd.Exec X core commitish s = (inl e, s2).
Proof.
  intros Hinit Hrel Hfind Hbefore Hfail.
  unfold Releasecmd.Exec, bind, check. rewrite Hinit. cbn.
  destruct (Config.Releases (Config.core_Config core)); [congruence|]. cbn.
  rewrite Hfind. eapply forEach_stops; eauto.
Qed.

(** A release that matches no archive, followed by one that matches both:
    the command ends with the error of the first, after the three calls on
    its directory. *)
Lemma Exec_stops_at_first_failure_witness :
  fst (Releasecmd.Exec (Sim.releaseX (fun _ => None))
         (Sim.theCore false [Sim.theRelease false "" (fun _ => false);
                             Sim.theRelease false "" (fun _ => true)]) "main" Sim.start)
  = inl (errorsNew ("release: no files found for release " ++ Sim.quote "main"))
  /\ length (trace (snd (Releasecmd.Exec (Sim.releaseX (fun _ => None))
         (Sim.theCore false [Sim.theRelease false "" (fun _ => false);
                             Sim.theRelease false "" (fun _ => true)]) "main" Sim.start)))
     = 3.
Proof.
  rewrite (Exec_stops_at_first_failure (Sim.releaseX (fun _ => None))
             (Sim.theCore false [Sim.theRelease false "" (fun _ => false);
                                 Sim.theRelease false "" (fun _ => true)]) "main"
             [] [Sim.theRelease false "" (fun _ => true)]
             (Sim.theRelease false "" (fun _ => false))
             Sim.start Sim.start
             (snd (Releasecmd.handleRelease (Sim.releaseX (fun _ => None))
                     (Sim.theCore false [Sim.theRelease false "" (fun _ => false);
                                         Sim.theRelease false "" (fun _ => true)]) "main"
                     (Sim.theRelease false "" (fun _ => false)) Sim.start))
             (errorsNew ("release: no files found for release " ++ Sim.quote "main"))).
  - split; reflexivity.
  - reflexivity.
  - discriminate.
  - reflexivity.
  - reflexivity.
  - reflexivity.
Defined.

(** X13. In dry-run mode every call of [Exec] looks at, removes or creates a
    directory: the whole command creates no file, makes no client, creates no
    release and uploads nothing. *)
Theorem Exec_dry_run_touches_directories_only {World : Type}
    (X : Releasecmd.Externals World) (core : Config.Core) (commitish : string)
    (s : State World Releasecmd.Event) :
  Config.Try core = true ->
  exists evs,
    trace (snd (Releasecmd.Exec X core commitish s)) = (trace s ++ evs)%list
    /\ Forall (fun ev => Releasecmd.isDirEvent ev = true) evs
    /\ Releasecmd.createdFiles evs = []
    /\ Releasecmd.uploadedFiles evs = []
    /\ Releasecmd.releaseCalls evs = []
    /\ Forall (fun ev => Releasecmd.isRemoteEvent ev = false) evs.
Proof.
  intros Htry.
  assert (Hem : emits (fun ev => Releasecmd.isDirEvent ev = true)
                  (Releasecmd.Exec X core commitish)).
  { unfold Releasecmd.Exec. apply emits_bind; [apply emits_check|]. intros _.
    destruct (Nat.eqb _ 0); [apply emits_throw|].
    apply emits_forEach. intros release.
    eapply emits_weaken;
      [|apply (handleRelease_short_emits X core commitish release (or_introl Htry))].
    intros [] H; cbn in *; try contradiction; reflexivity. }
  destruct (Hem s) as (evs & Ht & F).
  exists evs. destruct (dirEvents_local evs F) as (A & B & C & D). auto 10.
Qed.

(** A dry run over one release: three calls, all on its directory. *)
Lemma Exec_dry_run_touches_directories_only_witness :
  exists evs,
    trace (snd (Releasecmd.Exec (Sim.releaseX (fun _ => None))
                  (Sim.theCore true [Sim.theRelease true "" (fun _ => true)]) "main"
                  Sim.start))
    = (trace (@Sim.start Releasecmd.Event) ++ evs)%list
    /\ Releasecmd.createdFiles evs = [].
Proof.
  destruct (Exec_dry_run_touches_directories_only (Sim.releaseX (fun _ => None))
              (Sim.theCore true [Sim.theRelease true "" (fun _ => true)]) "main"
              Sim.start eq_refl) as (evs & Ht & _ & Hc & _).
  exists evs. auto.
Defined.

(** X14. What lines 116-127 do to the release directory follows from what
    [os.Stat] answers, and each call is made on the world the call before
    left.  When [os.Stat] returns nil the directory is removed and then
    created again, unless the removal fails, which ends the iteration with
    [release: failed to remove release directory %q: %s] before anything is
    created.  When [os.Stat] says that the directory does not exist it is
    only created, never removed.  A creation that fails ends the iteration
    with [release: failed to create release directory %q: %s].  On any other
    error of [os.Stat] nothing is removed or created, and no error is
    returned. *)
Theorem prepareReleaseDir_by_stat {World : Type}
    (X : Releasecmd.Externals World) (dir : string) (s : State World Releasecmd.Event) :
  let st := Releasecmd.os_Stat X dir (world s) in
  let rm := Releasecmd.os_RemoveAll X dir (snd st) in
  let removeFailed e :=
    errorsNew ("release: failed to remove release directory "
               ++ Releasecmd.fmt_q X dir ++ ": " ++ errMsg e) in
  let createFailed e :=
    errorsNew ("release: failed to create release directory "
               ++ Releasecmd.fmt_q X dir ++ ": " ++ errMsg e) in
  let create w evs :=
    let mk := Releasecmd.os_MkdirAll X dir w in
    (match fst mk with Some e => inl (createFailed e) | None => inr tt end,
     mkState (snd mk) (trace s ++ evs ++ [Releasecmd.EvMkdirAll dir])) in
  Releasecmd.prepareReleaseDir X dir s
  = match fst st with
    | None =>
        match fst rm with
        | Some e =>
            (inl (removeFailed e),
             mkState (snd rm)
               (trace s ++ [Releasecmd.EvStat dir; Releasecmd.EvRemoveAll dir]))
        | None => create (snd rm) [Releasecmd.EvStat dir; Releasecmd.EvRemoveAll dir]
        end
    | Some e =>
        if errNotExist e
        then create (snd st) [Releasecmd.EvStat dir]
        else (inr tt, mkState (snd st) (trace s ++ [Releasecmd.EvStat dir]))
    end.
Proof.
  cbv zeta. unfold Releasecmd.prepareReleaseDir, bind, call.
  destruct (Releasecmd.os_Stat X dir (world s)) as [[e|] w1]; cbn.
  - destruct (errNotExist e); cbn; [|reflexivity].
    destruct (Releasecmd.os_MkdirAll X dir w1) as [[e3|] w3]; cbn;
      now rewrite <- app_assoc.
  - destruct (Releasecmd.os_RemoveAll X dir w1) as [[e2|] w2]; cbn;
      [now rewrite <- app_assoc|].
    destruct (Releasecmd.os_MkdirAll X dir w2) as [[e3|] w3]; cbn;
      now rewrite <- !app_assoc.
Qed.

Section ChecksumFacts.
Import Config Releasecmd.

Context {World : Type} (X : Externals World).

Lemma forEach_cons {A : Type} (x : A) (r : list A) (body : A -> M World Event unit)
    (s : State World Event) :
  forEach (x :: r) body s
  = match body x s with
    | (inl e, s1) => (inl e, s1)
    | (inr _, s1) => forEach r body s1
    end.
Proof. reflexivity. Qed.

(** The loop of lines 170-175: the lines are written in order, each with its
    line feed, up to the first write that fails. *)
Lemma writeLines_shape (name : string) (lines : list string) (s : State World Event) :
  let r :=
    forEach lines
      (fun line =>
         bind (call (EvWriteString name (line ++ newline))
                 (File_WriteString X name (line ++ newline)))
           (fun err => check err)) s in
  exists k,
    k <= length lines
    /\ trace (snd r)
       = (trace s
          ++ map (fun line => EvWriteString name (line ++ newline)) (firstn k lines))%list
    /\ (fst r = inr tt -> k = length lines)
    /\ (k < length lines -> exists e, fst r = inl e).
Proof.
  cbv zeta. revert s.
  set (body := fun line =>
         bind (call (EvWriteString name (line ++ newline))
                 (File_WriteString X name (line ++ newline)))
           (fun err => check err)).
  induction lines as [|line rest IH]; intros s.
  - exists 0. cbn. rewrite app_nil_r. repeat split; auto; lia.
  - rewrite forEach_cons.
    assert (Hb : body line s
                 = match File_WriteString X name (line ++ newline) (world s) with
                   | (Some e, w1) =>
                       (inl e, mkState w1 (trace s ++ [EvWriteString name (line ++ newline)]))
                   | (None, w1) =>
                       (inr tt, mkState w1 (trace s ++ [EvWriteString name (line ++ newline)]))
                   end).
    { unfold body, bind, call, check.
      destruct (File_WriteString X name (line ++ newline) (world s)) as [[e|] w1];
        reflexivity. }
    rewrite Hb.
    destruct (File_WriteString X name (line ++ newline) (world s)) as [[e|] w1].
    + exists 1. cbn. repeat split; try lia; try discriminate; eauto.
    + destruct (IH (mkState w1 (trace s ++ [EvWriteString name (line ++ newline)])))
        as (k & Hk & Ht & Hok & Herr).
      exists (S k). cbn in *. rewrite Ht, <- app_assoc. cbn.
      split; [lia|]. split; [reflexivity|].
      split; [intros H; f_equal; auto|intros H; apply Herr; lia].
Qed.

(** The loop of lines 170-175, write by write: the first [k] writes return
    nil, and the loop ends there, or with the error of the next write. *)
Lemma writeLines_answers (name : string) (lines : list string) (s : State World Event) :
  let r :=
    forEach lines
      (fun line =>
         bind (call (EvWriteString name (line ++ newline))
                 (File_WriteString X name (line ++ newline)))
           (fun err => check err)) s in
  exists k,
    k <= length lines
    /\ (forall i, i < k -> writeAnswer X name lines (world s) i = None)
    /\ trace (snd r)
       = (trace s
          ++ map (fun line => EvWriteString name (line ++ newline))
               (firstn (S k) lines))%list
    /\ world (snd r) = afterWrites X name (firstn (S k) lines) (world s)
    /\ ((k = length lines /\ fst r = inr tt)
        \/ (k < length lines
            /\ exists e, writeAnswer X name lines (world s) k = Some e /\ fst r = inl e)).
Proof.
  cbv zeta. revert s.
  set (body := fun line =>
         bind (call (EvWriteString name (line ++ newline))
                 (File_WriteString X name (line ++ newline)))
           (fun err => check err)).
  induction lines as [|line rest IH]; intros s.
  - exists 0. cbn. rewrite app_nil_r. split; [lia|]. split; [intros i Hi; lia|].
    split; [reflexivity|]. split; [reflexivity|]. left. auto.
  - rewrite forEach_cons.
    assert (Hb : body line s
                 = match File_WriteString X name (line ++ newline) (world s) with
                   | (Some e, w1) =>
                       (inl e, mkState w1 (trace s ++ [EvWriteString name (line ++ newline)]))
                   | (None, w1) =>
                       (inr tt, mkState w1 (trace s ++ [EvWriteString name (line ++ newline)]))
                   end).
    { unfold body, bind, call, check.
      destruct (File_WriteString X name (line ++ newline) (world s)) as [[e|] w1];
        reflexivity. }
    rewrite Hb. unfold writeAnswer.
    destruct (File_WriteString X name (line ++ newline) (world s)) as [[e|] w1] eqn:Hw.
    + exists 0. cbn. rewrite Hw. cbn. split; [lia|]. split; [intros i Hi; lia|].
      split; [reflexivity|]. split; [reflexivity|]. right. split; [lia|]. eauto.
    + destruct (IH (mkState w1 (trace s ++ [EvWriteString name (line ++ newline)])))
        as (k & Hk & Hans & Ht & Hwd & Hres).
      exists (S k). cbn [length world trace] in *.
      split; [lia|]. split.
      { intros [|i] Hi; cbn [nth firstn afterWrites]; [now rewrite Hw|].
        rewrite Hw. cbn [snd]. apply Hans. lia. }
      split; [rewrite Ht, <- app_assoc; reflexivity|].
      split; [rewrite Hwd; cbn [firstn afterWrites]; now rewrite Hw|].
      destruct Hres as [(Hl & Hr)|(Hl & e & He & Hr)].
      * left. split; [lia|exact Hr].
      * right. split; [lia|]. exists e. cbn [nth firstn afterWrites]. rewrite Hw.
        cbn [snd]. auto.
Qed.

(** [writeChecksumFile], call by call. *)
Lemma writeChecksumFile_steps (name : string) (lines : list string)
    (s : State World Event) :
  writeChecksumFile X name lines s
  = match os_Create X name (world s) with
    | (Some e, w1) => (inl e, mkState w1 (trace s ++ [EvCreate name]))
    | (None, w1) =>
        let r :=
          forEach lines
            (fun line =>
               bind (call (EvWriteString name (line ++ newline))
                       (File_WriteString X name (line ++ newline)))
                 (fun err => check err))
            (mkState w1 (trace s ++ [EvCreate name])) in
        (fst r,
         mkState (snd (File_Close X name (world (snd r))))
           (trace (snd r) ++ [EvFileClose name]))
    end.
Proof.
  unfold writeChecksumFile, bind at 1. unfold call at 1.
  destruct (os_Create X name (world s)) as [[e|] w1]; cbn; [reflexivity|].
  unfold defer.
  destruct (forEach lines _ _) as [res s2]. cbn. unfold call.
  destruct (File_Close X name (world s2)) as [c w3]. reflexivity.
Qed.

End ChecksumFacts.

(** X15. Writing the checksum file (lines 163-178).  When [os.Create] fails
    its error is returned, nothing is written and nothing is closed.  When it
    succeeds the lines are written in their order, each followed by a line
    feed and each on the world the write before left, up to the first write
    that fails; the file is then closed, whether a write failed or not, and
    what [Close] answers is ignored.  The function returns nil exactly when
    every write returned nil, and otherwise the error of the write that
    failed. *)
Theorem writeChecksumFile_writes_in_order {World : Type}
    (X : Releasecmd.Externals World) (name : string) (lines : list string)
    (s : State World Releasecmd.Event) :
  let r := Releasecmd.writeChecksumFile X name lines s in
  let c := Releasecmd.os_Create X name (world s) in
  match fst c with
  | Some e => r = (inl e, mkState (snd c) (trace s ++ [Releasecmd.EvCreate name]))
  | None =>
      exists k,
        k <= length lines
        /\ (forall i, i < k -> Releasecmd.writeAnswer X name lines (snd c) i = None)
        /\ trace (snd r)
           = (trace s
              ++ Releasecmd.EvCreate name
                 :: map (fun line =>
                           Releasecmd.EvWriteString name (line ++ Releasecmd.newline))
                      (firstn (S k) lines)
                 ++ [Releasecmd.EvFileClose name])%list
        /\ world (snd r)
           = snd (Releasecmd.File_Close X name
                    (Releasecmd.afterWrites X name (firstn (S k) lines) (snd c)))
        /\ ((k = length lines /\ fst r = inr tt)
            \/ (k < length lines
                /\ exists e,
                     Releasecmd.writeAnswer X name lines (snd c) k = Some e
                     /\ fst r = inl e))
  end.
Proof.
  cbv zeta. rewrite writeChecksumFile_steps.
  destruct (Releasecmd.os_Create X name (world s)) as [[e|] w1]; cbn [fst snd];
    [reflexivity|].
  destruct (writeLines_answers X name lines
              (mkState w1 (trace s ++ [Releasecmd.EvCreate name])))
    as (k & Hk & Hans & Ht & Hw & Hres).
  exists k. cbn [fst snd trace world] in *. rewrite Ht, Hw.
  rewrite <- !app_assoc. cbn. auto.
Qed.

(** X16. The checksum file is written from the digests or not at all.  When
    [releases.CreateChecksumLines] fails, its error is returned as it is and
    no file is created.  When lines 157-186 return without error, the digests
    of the archive files were computed, [checksum.txt] was created in the
    release directory, one line was written per digest line, in order and
    with its line feed, the file was closed, and the checksum file comes last
    in the list of files handed on. *)
Theorem createChecksumFile_all_or_nothing {World : Type}
    (X : Releasecmd.Externals World) (releaseDir : string) (archiveFilenames : list string)
    (s : State World Releasecmd.Event) :
  let r := Releasecmd.createChecksumFile X releaseDir archiveFilenames s in
  let checksumFilename := Releasecmd.checksumFilenameOf X releaseDir in
  (forall err,
      fst (Releasecmd.releases_CreateChecksumLines X archiveFilenames (world s)) = inl err ->
      fst r = inl err
      /\ trace (snd r)
         = (trace s ++ [Releasecmd.EvCreateChecksumLines archiveFilenames])%list)
  /\ (forall files,
        fst r = inr files ->
        files = (archiveFilenames ++ [checksumFilename])%list
        /\ exists checksumLines,
             fst (Releasecmd.releases_CreateChecksumLines X archiveFilenames (world s))
             = inr checksumLines
             /\ trace (snd r)
                = (trace s
                   ++ Releasecmd.EvCreateChecksumLines archiveFilenames
                      :: Releasecmd.EvCreate checksumFilename
                      :: map (fun line =>
                                Releasecmd.EvWriteString checksumFilename
                                  (line ++ Releasecmd.newline))
                           checksumLines
                      ++ [Releasecmd.EvFileClose checksumFilename])%list).
Proof.
  cbv zeta.
  destruct (Releasecmd.createChecksumFile X releaseDir archiveFilenames s) as [res s1] eqn:Hr.
  cbn [fst snd]. revert Hr.
  unfold Releasecmd.createChecksumFile, bind, call, asError.
  destruct (Releasecmd.releases_CreateChecksumLines X archiveFilenames (world s))
    as [[e|checksumLines] w1]; cbn [fst snd].
  - intros Hr. inversion Hr; subst. split.
    + intros err H. inversion H; subst. auto.
    + intros files H. discriminate.
  - rewrite writeChecksumFile_steps. cbn [world trace].
    destruct (Releasecmd.os_Create X _ w1) as [[e|] w2];
      [intros Hr; inversion Hr; subst; split; intros ? H; discriminate|].
    destruct (writeLines_shape X (Releasecmd.checksumFilenameOf X releaseDir) checksumLines
                (mkState w2 ((trace s ++ [Releasecmd.EvCreateChecksumLines archiveFilenames])
                             ++ [Releasecmd.EvCreate
                                   (Releasecmd.checksumFilenameOf X releaseDir)])))
      as (k & Hk & Ht & Hok & Herr).
    cbv zeta in *.
    destruct (forEach checksumLines _ _) as [[e|[]] s3]; cbn in *;
      intros Hr; inversion Hr; subst; (split; [intros ? H; discriminate|]);
      intros files H; [discriminate|].
    inversion H; subst. split; [reflexivity|].
    exists checksumLines. split; [reflexivity|].
    rewrite Ht, (Hok eq_refl), firstn_all, <- !app_assoc. reflexivity.
Qed.

(** The digests of the two archives, written to [checksum.txt]. *)
Lemma createChecksumFile_all_or_nothing_witness :
  fst (Releasecmd.createChecksumFile (Sim.releaseX (fun _ => None)) Sim.releaseDir
         [Sim.linuxArchive; Sim.darwinArchive] Sim.start)
  = inr [Sim.linuxArchive; Sim.darwinArchive; Sim.releaseDir ++ "/checksum.txt"]
  /\ Releasecmd.createdFiles
       (trace (snd (Releasecmd.createChecksumFile (Sim.releaseX (fun _ => None))
                      Sim.releaseDir [Sim.linuxArchive; Sim.darwinArchive] Sim.start)))
     = [Sim.releaseDir ++ "/checksum.txt"].
Proof.
  destruct (createChecksumFile_all_or_nothing (Sim.releaseX (fun _ => None)) Sim.releaseDir
              [Sim.linuxArchive; Sim.darwinArchive] Sim.start) as (_ & Hok).
  destruct (Hok [Sim.linuxArchive; Sim.darwinArchive; Sim.releaseDir ++ "/checksum.txt"]
              eq_refl) as (_ & lines & Hl & Ht).
  split; [reflexivity|]. rewrite Ht. vm_compute in Hl. inversion Hl. reflexivity.
Defined.

Section NotesFacts.
Import Config Releasecmd.

Context {World : Type} (X : Externals World) (core : Core) (commitish : string).

(** [writeReleaseNotesFile], call by call. *)
Lemma writeReleaseNotesFile_steps (name : string) (rnc : ReleaseNotesContext)
    (s : State World Event) :
  writeReleaseNotesFile X name rnc s
  = match os_Create X name (world s) with
    | (Some e, w1) => (inl e, mkState w1 (trace s ++ [EvCreate name]))
    | (None, w1) =>
        let '(err, w2) := ReleaseNotesTemplate_Execute X name rnc w1 in
        (match err with Some e => inl e | None => inr tt end,
         mkState (snd (File_Close X name w2))
           (trace s ++ [EvCreate name; EvTemplateExecute name rnc; EvFileClose name]))
    end.
Proof.
  unfold writeReleaseNotesFile, bind at 1. unfold call at 1.
  destruct (os_Create X name (world s)) as [[e|] w1]; cbn; [reflexivity|].
  unfold defer, bind, call, check. cbn.
  destruct (ReleaseNotesTemplate_Execute X name rnc w1) as [[e|] w2]; cbn;
    destruct (File_Close X name w2) as [c w3]; cbn;
    now rewrite <- !app_assoc.
Qed.

End NotesFacts.

(** X17. The release-notes step (lines 204-276), call by call.  With
    generation disabled it makes no call and hands the release info on
    unchanged, a configured notes filename included.  With generation enabled
    and a filename configured it makes no call and returns the error of line
    208.  With generation enabled and no filename configured, it reads the
    environment and collects the changes, with a user-name resolver exactly
    when the client is one; an error of the collection, and then an error of
    the grouping, is returned as it is, before any file is created.
    Otherwise [release-notes.md] is created in the release directory; when
    that fails the step returns [release: failed to create release notes
    file] with the error, and nothing is executed or closed.  When it
    succeeds the template is executed on the changes grouped by the rules of
    the release, and the file is closed whether the template failed or not;
    the step returns the error of the template in the same wrapping, or the
    info with the path of the notes as its filename. *)
Theorem generateReleaseNotes_steps {World : Type}
    (X : Releasecmd.Externals World) (core : Config.Core) (commitish : string)
    (releaseDir : string) (release : Config.Release) (client : Releasecmd.Client)
    (info : Releasecmd.ReleaseInfo) (s : State World Releasecmd.Event) :
  let r := Releasecmd.generateReleaseNotes X core commitish releaseDir release client info s in
  let notes := Releasecmd.releaseNotesFilenameOf X releaseDir in
  let rns := Config.rs_ReleaseNotesSettings (Releasecmd.Settings info) in
  let key := "HUGORELEASER_CHANGELOG_GITREPO" in
  let env := Releasecmd.os_Getenv X key (world s) in
  let opts :=
    Releasecmd.mkOptions (Config.Tag core) commitish (fst env)
      (if Releasecmd.implementsUsernameResolver X client then Some (client, info) else None) in
  let collected := Releasecmd.changelog_CollectChanges X opts (snd env) in
  let title := Releasecmd.groupOf (Config.Groups rns) in
  let notesFailed e :=
    errorsNew ("release: failed to create release notes file "
               ++ Releasecmd.fmt_q X notes ++ ": " ++ errMsg e) in
  let read := [Releasecmd.EvGetenv key; Releasecmd.EvCollectChanges opts] in
  (Config.Generate rns = false -> r = (inr info, s))
  /\ (Config.Generate rns = true -> Config.Filename rns <> "" ->
      r = (inl (Releasecmd.bothSet X release), s))
  /\ (Config.Generate rns = true -> Config.Filename rns = "" ->
      match fst collected with
      | inl err => r = (inl err, mkState (snd collected) (trace s ++ read))
      | inr infos =>
          match Releasecmd.GroupByFunc_err X infos title with
          | Some err => r = (inl err, mkState (snd collected) (trace s ++ read))
          | None =>
              let rnc :=
                Releasecmd.mkReleaseNotesContext (Releasecmd.GroupByFunc infos title) in
              let created := Releasecmd.os_Create X notes (snd collected) in
              match fst created with
              | Some e =>
                  r = (inl (notesFailed e),
                       mkState (snd created)
                         (trace s ++ read ++ [Releasecmd.EvCreate notes]))
              | None =>
                  let executed :=
                    Releasecmd.ReleaseNotesTemplate_Execute X notes rnc (snd created) in
                  r = (match fst executed with
                       | Some e => inl (notesFailed e)
                       | None => inr (Releasecmd.setFilename info notes)
                       end,
                       mkState (snd (Releasecmd.File_Close X notes (snd executed)))
                         (trace s ++ read
                          ++ [Releasecmd.EvCreate notes;
                              Releasecmd.EvTemplateExecute notes rnc;
                              Releasecmd.EvFileClose notes]))
              end
          end
      end).
Proof.
  cbv zeta. split; [|split].
  - intros Hg. unfold Releasecmd.generateReleaseNotes. rewrite Hg. reflexivity.
  - intros Hg Hf. unfold Releasecmd.generateReleaseNotes. rewrite Hg.
    destruct (String.eqb _ "") eqn:Heq; [|reflexivity].
    apply String.eqb_eq in Heq. contradiction.
  - intros Hg Hf.
    unfold Releasecmd.generateReleaseNotes. rewrite Hg, Hf. cbn [String.eqb negb].
    unfold bind, call, asError, check.
    destruct (Releasecmd.os_Getenv X _ (world s)) as [repoPath w1]. cbn [fst snd world trace].
    destruct (Releasecmd.changelog_CollectChanges X _ w1) as [[e|infos] w2];
      cbn [fst snd world trace].
    + now rewrite <- app_assoc.
    + destruct (Releasecmd.GroupByFunc_err X infos _); [now rewrite <- app_assoc|].
      unfold ret, throw. cbv beta iota.
      rewrite writeReleaseNotesFile_steps. cbn [world trace].
      destruct (Releasecmd.os_Create X _ w2) as [[e|] w3]; cbn [fst snd].
      * now rewrite <- !app_assoc.
      * destruct (Releasecmd.ReleaseNotesTemplate_Execute X _ _ w3) as [[e|] w4];
          cbn [fst snd]; now rewrite <- !app_assoc.
Qed.

(** The notes of the release over the two archives: the four changes are
    collected and grouped, and the file is created, filled and closed. *)
Lemma generateReleaseNotes_steps_witness :
  Releasecmd.generateReleaseNotes (Sim.releaseX (fun _ => None))
    (Sim.theCore false []) "main" Sim.releaseDir
    (Sim.theRelease true "" (fun _ => true)) Releasecmd.FakeClient
    (Releasecmd.releaseInfoOf (Sim.theCore false []) "main"
       (Sim.theRelease true "" (fun _ => true))) Sim.start
  = (inr (Releasecmd.setFilename
            (Releasecmd.releaseInfoOf (Sim.theCore false []) "main"
               (Sim.theRelease true "" (fun _ => true)))
            (Sim.releaseDir ++ "/release-notes.md")),
     mkState tt
       [Releasecmd.EvGetenv "HUGORELEASER_CHANGELOG_GITREPO";
        Releasecmd.EvCollectChanges
          (Releasecmd.mkOptions "v1.2.0" "main" "" None);
        Releasecmd.EvCreate (Sim.releaseDir ++ "/release-notes.md");
        Releasecmd.EvTemplateExecute (Sim.releaseDir ++ "/release-notes.md")
          (Releasecmd.mkReleaseNotesContext
             (Releasecmd.GroupByFunc Sim.changes (Releasecmd.groupOf Sim.groups)));
        Releasecmd.EvFileClose (Sim.releaseDir ++ "/release-notes.md")]).
Proof.
  destruct (generateReleaseNotes_steps (Sim.releaseX (fun _ => None))
              (Sim.theCore false []) "main" Sim.releaseDir
              (Sim.theRelease true "" (fun _ => true)) Releasecmd.FakeClient
              (Releasecmd.releaseInfoOf (Sim.theCore false []) "main"
                 (Sim.theRelease true "" (fun _ => true))) Sim.start)
    as (_ & _ & Hon).
  specialize (Hon eq_refl eq_refl). exact Hon.
Defined.

Section PublishFacts.
Import Config Releasecmd.

Context {World : Type} (X : Externals World) (core : Core) (commitish : string).

(** The release-notes step only touches the environment, the changes and the
    notes file. *)
Lemma generateReleaseNotes_emits_notes (releaseDir : string) (release : Release)
    (client : Client) (info : ReleaseInfo) :
  emits (isNotesEvent (releaseNotesFilenameOf X releaseDir))
    (generateReleaseNotes X core commitish releaseDir release client info).
Proof.
  unfold generateReleaseNotes.
  destruct (Generate _); [|apply emits_ret].
  destruct (negb _); [apply emits_throw|].
  apply emits_bind; [apply emits_call; exact I|]. intros repoPath.
  apply emits_bind; [apply emits_call; exact I|]. intros [e|infos];
    [apply emits_throw|].
  apply emits_bind; [apply emits_check|]. intros _.
  apply emits_bind.
  - apply emits_asError. unfold writeReleaseNotesFile.
    apply emits_bind; [apply emits_call; reflexivity|]. intros err.
    apply emits_bind; [apply emits_check|]. intros _.
    apply emits_defer; [apply emits_call; reflexivity|].
    apply emits_bind; [apply emits_call; reflexivity|]. intros err'.
    auto with emits.
  - intros [e|]; auto with emits.
Qed.

End PublishFacts.

(** X18. Creating the release and uploading (lines 278-303).  When
    [Release] fails nothing is uploaded, and the error is [release: failed to
    create release:] followed by the error of the provider.  When it returns
    an identifier, uploads are started for files of the list, each file at
    most once, in an order that the pool chooses, with the client, the
    release info and the identifier of that release.  A file is left out only
    after an upload failed, and never by a pool that never cancels.  The
    result is nil exactly when every upload that was made returned nil, and
    otherwise [release: failed to upload files:] followed by the error of the
    first upload that failed. *)
Theorem releaseAndUpload_steps {World : Type}
    (X : Releasecmd.Externals World) (core : Config.Core) (client : Releasecmd.Client)
    (info : Releasecmd.ReleaseInfo) (files : list string)
    (s : State World Releasecmd.Event) :
  let r := Releasecmd.releaseAndUpload X core client info files s in
  match fst (Releasecmd.Client_Release X client info (world s)) with
  | inl err =>
      fst r = inl (errorsNew ("release: failed to create release: " ++ errMsg err))
      /\ trace (snd r) = (trace s ++ [Releasecmd.EvRelease client info])%list
  | inr releaseID =>
      exists uploaded dropped answers,
        Permutation files (uploaded ++ dropped)
        /\ trace (snd r)
           = (trace s ++ Releasecmd.EvRelease client info
                :: map (Releasecmd.EvUpload client info releaseID) uploaded)%list
        /\ Forall2 (fun name answer =>
                      exists w,
                        fst (Releasecmd.releases_UploadAssetsFileWithRetries X client info
                               releaseID name w)
                        = answer)
             uploaded answers
        /\ fst r
           = match firstError answers with
             | Some e => inl (errorsNew ("release: failed to upload files: " ++ errMsg e))
             | None => inr tt
             end
        /\ (dropped <> [] -> firstError answers <> None)
        /\ (neverCancels (Config.core_Workforce core) -> dropped = [])
  end.
Proof.
  cbv zeta.
  pose proof (releaseAndUpload_shape X core client info files s) as Hs. cbv zeta in Hs.
  destruct (fst (Releasecmd.Client_Release X client info (world s))) as [err|releaseID];
    [exact Hs|].
  destruct Hs as (uploaded & dropped & Hperm & Ht & _ & Hnever & _ & answers & Ha & Hr & Hd).
  exists uploaded, dropped, answers. auto 10.
Qed.

(** With a pool that starts with the last file and cancels at the first
    failure, and a provider that takes every file: the three files are
    uploaded. *)
Lemma releaseAndUpload_steps_witness :
  fst (Releasecmd.releaseAndUpload (Sim.releaseX (fun _ => None))
         (Sim.theCoreWith Sim.lastFirstCancelling false []) (Releasecmd.ProviderClient 1)
         (Releasecmd.releaseInfoOf (Sim.theCore false []) "main"
            (Sim.theRelease false "" (fun _ => true)))
         [Sim.linuxArchive; Sim.darwinArchive; Sim.releaseDir ++ "/checksum.txt"]
         Sim.start)
  = inr tt
  /\ exists uploaded,
       Permutation [Sim.linuxArchive; Sim.darwinArchive; Sim.releaseDir ++ "/checksum.txt"]
         uploaded
       /\ Releasecmd.uploadedFiles
            (trace (snd (Releasecmd.releaseAndUpload (Sim.releaseX (fun _ => None))
                           (Sim.theCoreWith Sim.lastFirstCancelling false [])
                           (Releasecmd.ProviderClient 1)
                           (Releasecmd.releaseInfoOf (Sim.theCore false []) "main"
                              (Sim.theRelease false "" (fun _ => true)))
                           [Sim.linuxArchive; Sim.darwinArchive;
                            Sim.releaseDir ++ "/checksum.txt"]
                           Sim.start)))
          = uploaded.
Proof.
  pose proof (releaseAndUpload_steps (Sim.releaseX (fun _ => None))
                (Sim.theCoreWith Sim.lastFirstCancelling false [])
                (Releasecmd.ProviderClient 1)
                (Releasecmd.releaseInfoOf (Sim.theCore false []) "main"
                   (Sim.theRelease false "" (fun _ => true)))
                [Sim.linuxArchive; Sim.darwinArchive; Sim.releaseDir ++ "/checksum.txt"]
                Sim.start) as H.
  cbv zeta in H.
  change (fst (Releasecmd.Client_Release (Sim.releaseX (fun _ => None))
                 (Releasecmd.ProviderClient 1)
                 (Releasecmd.releaseInfoOf (Sim.theCore false []) "main"
                    (Sim.theRelease false "" (fun _ => true)))
                 (world (@Sim.start Releasecmd.Event))))
    with (@inr error Releasecmd.ReleaseID 42%Z) in H.
  destruct H as (uploaded & dropped & answers & Hperm & Ht & _ & Hr & Hd & _).
  split; [reflexivity|].
  assert (Hnone : dropped = []).
  { destruct dropped; [reflexivity|]. exfalso.
    apply Hd; [discriminate|].
    destruct (firstError answers); [|reflexivity].
    vm_compute in Hr. discriminate. }
  subst dropped. rewrite app_nil_r in Hperm.
  exists uploaded. split; [exact Hperm|].
  rewrite Ht. unfold Releasecmd.uploadedFiles. rewrite flat_map_app. cbn [flat_map app].
  apply uploadedFiles_uploads.
Defined.

(** X19. In the handling of one release, [Release] is called at most once,
    no upload comes before it, and every upload that follows it is made with
    the client and the release info of that call: the calls of the iteration
    are calls that create no release and upload nothing, followed by nothing
    or by one [Release] and uploads only. *)
Theorem handleRelease_release_before_uploads {World : Type}
    (X : Releasecmd.Externals World) (core : Config.Core) (commitish : string)
    (release : Config.Release) (s : State World Releasecmd.Event) :
  exists pre post,
    trace (snd (Releasecmd.handleRelease X core commitish release s))
    = (trace s ++ pre ++ post)%list
    /\ Forall (fun ev => Releasecmd.isPublishEvent ev = false) pre
    /\ (post = []
        \/ exists client info ups,
             post = Releasecmd.EvRelease client info :: ups
             /\ Forall (fun ev => exists releaseID name,
                            ev = Releasecmd.EvUpload client info releaseID name) ups).
Proof.
  unfold Releasecmd.handleRelease, bind.
  destruct (prepareRelease_emits X core release s) as (evs1 & Ht1 & F1).
  assert (G1 : Forall (fun ev => Releasecmd.isPublishEvent ev = false) evs1).
  { eapply Forall_impl; [|exact F1]. intros [] H; cbn in *; try contradiction; reflexivity. }
  destruct (Releasecmd.prepareRelease X core release s) as [[e|[[files client]|]] s1];
    cbn [fst snd] in *.
  - exists evs1, []. rewrite app_nil_r. auto.
  - unfold Releasecmd.publish, bind.
    destruct (generateReleaseNotes_emits_notes X core commitish
                (Releasecmd.releaseDirOf X core release) release client
                (Releasecmd.releaseInfoOf core commitish release) s1) as (evs2 & Ht2 & F2).
    assert (G2 : Forall (fun ev => Releasecmd.isPublishEvent ev = false) evs2).
    { eapply Forall_impl; [|exact F2]. intros [] H; cbn in *; try contradiction; reflexivity. }
    destruct (Releasecmd.generateReleaseNotes X core commitish _ release client _ s1)
      as [[e|info] s2]; cbn [fst snd] in *.
    + exists (evs1 ++ evs2)%list, []. rewrite app_nil_r, Ht2, Ht1, app_assoc.
      split; [reflexivity|]. split; [apply Forall_app; auto|auto].
    + pose proof (releaseAndUpload_shape X core client info files s2) as Hs.
      cbv zeta in Hs.
      destruct (fst (Releasecmd.Client_Release X client info (world s2)))
        as [err|releaseID].
      * destruct Hs as (_ & Ht). rewrite Ht, Ht2, Ht1.
        exists (evs1 ++ evs2)%list, [Releasecmd.EvRelease client info].
        rewrite <- !app_assoc.
        split; [reflexivity|]. split; [apply Forall_app; auto|].
        right. exists client, info, []. split; [reflexivity|constructor].
      * destruct Hs as (uploaded & dropped & _ & Ht & _). rewrite Ht, Ht2, Ht1.
        exists (evs1 ++ evs2)%list. eexists. rewrite <- !app_assoc.
        split; [reflexivity|]. split; [apply Forall_app; auto|].
        right. exists client, info. eexists. split; [reflexivity|].
        apply Forall_forall. intros ev Hin. apply in_map_iff in Hin.
        destruct Hin as (name & <- & _). eauto.
  - exists evs1, []. rewrite app_nil_r. auto.
Qed.

(** X20. What the function of lines 230-240 answers always comes from a
    rule: a title with [true] is the title of a rule that matches the
    subject, is not flagged ignore, and has no matching rule before it; and
    the title that comes with [false] is empty. *)
Theorem groupOf_answers_come_from_rules (groups : list Config.ReleaseNotesGroup)
    (change : Releasecmd.Change) (title : string) :
  (Releasecmd.groupOf groups change = (title, true) ->
   exists i g,
     nth_error groups i = Some g
     /\ Config.RegexpCompiled g (Releasecmd.Subject change) = true
     /\ Config.Ignore g = false
     /\ Config.Title g = title
     /\ forall j g', j < i -> nth_error groups j = Some g' ->
                     Config.RegexpCompiled g' (Releasecmd.Subject change) = false)
  /\ (Releasecmd.groupOf groups change = (title, false) -> title = "").
Proof.
  induction groups as [|g0 rest IH]; cbn.
  - split; [discriminate|]. intros H; now inversion H.
  - destruct (Config.RegexpCompiled g0 (Releasecmd.Subject change)) eqn:Hm.
    + destruct (Config.Ignore g0) eqn:Hi.
      * split; [discriminate|]. intros H; now inversion H.
      * split; [|discriminate]. intros H; inversion H; subst.
        exists 0, g0. cbn. repeat split; auto. intros j g' Hj. lia.
    + destruct IH as (IH1 & IH2). split; [|exact IH2].
      intros H. destruct (IH1 H) as (i & g & Hn & Hg & Hig & Ht & Hfirst).
      exists (S i), g. cbn. repeat split; auto.
      intros [|j] g' Hj Hn'; cbn in Hn'.
      * inversion Hn'; subst. exact Hm.
      * apply (Hfirst j g'); [lia|exact Hn'].
Qed.

(** The change [fix typo in a fix for Merge] is sent to [Bug fixes]. *)
Lemma groupOf_answers_come_from_rules_witness :
  exists i g,
    nth_error Sim.groups i = Some g
    /\ Config.RegexpCompiled g (Releasecmd.Subject Sim.fixTypo) = true
    /\ Config.Ignore g = false
    /\ Config.Title g = "Bug fixes".
Proof.
  destruct (groupOf_answers_come_from_rules Sim.groups Sim.fixTypo "Bug fixes") as (H & _).
  destruct (H eq_refl) as (i & g & A & B & C & D & _).
  exists i, g. auto.
Defined.

(** X21. The rules are tried in their order.  Rules added after a rule that
    matches the subject change nothing to the answer, and rules that do not
    match the subject change nothing to the answer of the rules after
    them. *)
Theorem groupOf_rules_in_order (before after : list Config.ReleaseNotesGroup)
    (change : Releasecmd.Change) :
  ((exists g, In g before
              /\ Config.RegexpCompiled g (Releasecmd.Subject change) = true) ->
   Releasecmd.groupOf (before ++ after) change = Releasecmd.groupOf before change)
  /\ ((forall g, In g before ->
                 Config.RegexpCompiled g (Releasecmd.Subject change) = false) ->
      Releasecmd.groupOf (before ++ after) change = Releasecmd.groupOf after change).
Proof.
  induction before as [|g0 rest IH]; cbn.
  - split; [intros (g & [] & _)|reflexivity].
  - destruct IH as (IH1 & IH2).
    destruct (Config.RegexpCompiled g0 (Releasecmd.Subject change)) eqn:Hm.
    + split; [reflexivity|]. intros Hno.
      rewrite (Hno g0 (or_introl eq_refl)) in Hm. discriminate.
    + split.
      * intros (g & [->|Hin] & Hg); [congruence|]. apply IH1. eauto.
      * intros Hno. apply IH2. intros g Hin. apply Hno. now right.
Qed.

(** A catch-all rule put after the rules: the change that [^fix] matches
    stays under [Bug fixes]. *)
Lemma groupOf_rules_in_order_witness :
  Releasecmd.groupOf
    (Sim.groups ++ [Config.mkReleaseNotesGroup (fun _ => true) "Everything" false])
    Sim.fixCrash
  = ("Bug fixes", true).
Proof.
  destruct (groupOf_rules_in_order Sim.groups
              [Config.mkReleaseNotesGroup (fun _ => true) "Everything" false]
              Sim.fixCrash) as (H & _).
  rewrite H; [reflexivity|].
  exists (Config.mkReleaseNotesGroup (Sim.hasPrefix "fix") "Bug fixes" false).
  split; [right; left; reflexivity|reflexivity].
Defined.

(** X22. The archive files of a release (lines 129-147) are the files of
    the architectures its filter matches: a name is in the list exactly when
    it is the name, under the archive directory of its path, of a configured
    architecture whose path the filter matches; and the list is empty, which
    is the error of line 150, exactly when the filter matches no configured
    architecture. *)
Theorem archiveFilenamesOf_matches {World : Type}
    (X : Releasecmd.Externals World) (core : Config.Core) (release : Config.Release) :
  (forall name,
      In name (Releasecmd.archiveFilenamesOf X core release) <->
      exists archive archPath,
        In archive (Config.Archives (Config.core_Config core))
        /\ In archPath (Config.ArchsCompiled archive)
        /\ Config.r_PathsCompiled release (Config.bap_Path archPath) = true
        /\ name
           = Releasecmd.filepath_Join X
               [Releasecmd.filepath_Join X
                  [Config.DistDir core; Config.Project (Config.core_Config core);
                   Config.Tag core; Config.DistRootArchives core;
                   Releasecmd.filepath_FromSlash X (Config.bap_Path archPath)];
                Config.bap_Name archPath])
  /\ (Releasecmd.archiveFilenamesOf X core release = [] <->
      forall archive archPath,
        In archive (Config.Archives (Config.core_Config core)) ->
        In archPath (Config.ArchsCompiled archive) ->
        Config.r_PathsCompiled release (Config.bap_Path archPath) = false).
Proof.
  assert (Hin : forall name,
             In name (Releasecmd.archiveFilenamesOf X core release) <->
             exists archive archPath,
               In archive (Config.Archives (Config.core_Config core))
               /\ In archPath (Config.ArchsCompiled archive)
               /\ Config.r_PathsCompiled release (Config.bap_Path archPath) = true
               /\ name
                  = Releasecmd.filepath_Join X
                      [Releasecmd.filepath_Join X
                         [Config.DistDir core; Config.Project (Config.core_Config core);
                          Config.Tag core; Config.DistRootArchives core;
                          Releasecmd.filepath_FromSlash X (Config.bap_Path archPath)];
                       Config.bap_Name archPath]).
  { intros name. unfold Releasecmd.archiveFilenamesOf. rewrite in_flat_map. split.
    - intros (archive & Ha & Hn). apply in_flat_map in Hn.
      destruct Hn as (archPath & Hp & Hn).
      destruct (Config.r_PathsCompiled release (Config.bap_Path archPath)) eqn:Hm;
        cbn in Hn; [|destruct Hn].
      destruct Hn as [<-|[]]. exists archive, archPath. auto.
    - intros (archive & archPath & Ha & Hp & Hm & ->).
      exists archive. split; [exact Ha|]. apply in_flat_map.
      exists archPath. split; [exact Hp|]. rewrite Hm. cbn. now left. }
  split; [exact Hin|]. split.
  - intros Hnil archive archPath Ha Hp.
    destruct (Config.r_PathsCompiled release (Config.bap_Path archPath)) eqn:Hm;
      [|reflexivity].
    exfalso.
    assert (Hn : In (Releasecmd.filepath_Join X
                       [Releasecmd.filepath_Join X
                          [Config.DistDir core; Config.Project (Config.core_Config core);
                           Config.Tag core; Config.DistRootArchives core;
                           Releasecmd.filepath_FromSlash X (Config.bap_Path archPath)];
                        Config.bap_Name archPath])
                  (Releasecmd.archiveFilenamesOf X core release)).
    { apply Hin. exists archive, archPath. auto. }
    rewrite Hnil in Hn. destruct Hn.
  - intros Hno.
    destruct (Releasecmd.archiveFilenamesOf X core release) as [|name rest] eqn:Hl;
      [reflexivity|].
    exfalso.
    destruct (proj1 (Hin name)) as (archive & archPath & Ha & Hp & Hm & _).
    { first [rewrite Hl; now left|now left]. }
    rewrite (Hno archive archPath Ha Hp) in Hm. discriminate.
Qed.

(** X23. Where the error of a task comes from: it is the error of line 152
    about the binary, or the error, returned as it is, that recreating the
    output directory, making the directory of the output file or
    [archives.Build] answered.  The error that [os.Stat] itself answered is
    not passed on: line 152 puts its own in its place. *)
Theorem archiveTask_error_origin {World : Type}
    (X : Archivecmd.Externals World) (b : Archivecmd.Archivist)
    (archive : Config.Archive) (archPath : Config.BuildArchPath)
    (s : State World Archivecmd.Event) (e : error) :
  fst (Archivecmd.archiveTask X b archive archPath s) = inl e ->
  e = Archivecmd.binaryNotFound X (Archivecmd.binaryFilenameOf X b archPath)
  \/ (exists w,
        fst (Archivecmd.ioh_RemoveAllMkdirAll X (Archivecmd.outDirOf X b archPath) w)
        = Some e)
  \/ (exists w,
        fst (Archivecmd.os_MkdirAll X
               (Archivecmd.filepath_Dir X (Archivecmd.outFilenameOf X b archive archPath)) w)
        = Some e)
  \/ (exists w,
        fst (Archivecmd.archives_Build X (Config.archive_ArchiveSettings archive)
               (Archivecmd.buildRequestOf X b archive archPath) w)
        = Some e).
Proof.
  unfold Archivecmd.archiveTask, bind, call, check, throw, ret.
  destruct (Archivecmd.ioh_RemoveAllMkdirAll X _ (world s)) as [[e1|] w1] eqn:H1; cbn.
  { intros H; inversion H; subst. right. left. exists (world s). now rewrite H1. }
  destruct (Archivecmd.os_Stat X _ w1) as [[e2|] w2]; cbn.
  { intros H; inversion H; subst. now left. }
  destruct (Archivecmd.os_MkdirAll X _ w2) as [[e3|] w3] eqn:H3; cbn.
  { intros H; inversion H; subst. right. right. left. exists w2. now rewrite H3. }
  destruct (Archivecmd.archives_Build X _ _ w3) as [[e4|] w4] eqn:H4; cbn;
    [|discriminate].
  intros H; inversion H; subst. right. right. right. exists w3. now rewrite H4.
Qed.

(** The binary of [darwin/arm64] is absent. *)
Lemma archiveTask_error_origin_witness :
  errorsNew ("archive: binary file not found: " ++ Sim.quote Sim.darwinBinary)
  = Archivecmd.binaryNotFound (Sim.archiveX [Sim.darwinBinary])
      (Archivecmd.binaryFilenameOf (Sim.archiveX [Sim.darwinBinary]) Sim.archivist
         Sim.darwinArm64)
  \/ (exists w,
        fst (Archivecmd.ioh_RemoveAllMkdirAll (Sim.archiveX [Sim.darwinBinary])
               (Archivecmd.outDirOf (Sim.archiveX [Sim.darwinBinary]) Sim.archivist
                  Sim.darwinArm64) w)
        = Some (errorsNew ("archive: binary file not found: " ++ Sim.quote Sim.darwinBinary)))
  \/ (exists w,
        fst (Archivecmd.os_MkdirAll (Sim.archiveX [Sim.darwinBinary])
               (Archivecmd.filepath_Dir (Sim.archiveX [Sim.darwinBinary])
                  (Archivecmd.outFilenameOf (Sim.archiveX [Sim.darwinBinary]) Sim.archivist
                     Sim.theArchive Sim.darwinArm64)) w)
        = Some (errorsNew ("archive: binary file not found: " ++ Sim.quote Sim.darwinBinary)))
  \/ (exists w,
        fst (Archivecmd.archives_Build (Sim.archiveX [Sim.darwinBinary])
               (Config.archive_ArchiveSettings Sim.theArchive)
               (Archivecmd.buildRequestOf (Sim.archiveX [Sim.darwinBinary]) Sim.archivist
                  Sim.theArchive Sim.darwinArm64) w)
        = Some (errorsNew ("archive: binary file not found: " ++ Sim.quote Sim.darwinBinary))).
Proof.
  apply (archiveTask_error_origin (Sim.archiveX [Sim.darwinBinary]) Sim.archivist
           Sim.theArchive Sim.darwinArm64 Sim.start).
  reflexivity.
Defined.

(** X24. The client that creates the release and uploads the files is the
    one [releases.NewClient] returned for the type of the release: when lines
    129-196 hand a client on, dry-run mode is off, and the client is an
    answer of [releases.NewClient]; the fake client of line 195 is never put
    in its place. *)
Theorem prepareFiles_client_origin {World : Type}
    (X : Releasecmd.Externals World) (core : Config.Core) (release : Config.Release)
    (s s1 : State World Releasecmd.Event) (files : list string)
    (client : Releasecmd.Client) :
  Releasecmd.prepareFiles X core release s = (inr (Some (files, client)), s1) ->
  Config.Try core = false
  /\ exists w,
       fst (Releasecmd.releases_NewClient X
              (Config.TypeParsed (Config.r_ReleaseSettings release)) w)
       = inr client.
Proof.
  unfold Releasecmd.prepareFiles.
  destruct (Nat.eqb _ 0); [discriminate|].
  destruct (Config.Try core) eqn:Htry; [discriminate|].
  unfold bind at 1.
  destruct (Releasecmd.createChecksumFile X _ _ s) as [[e|files0] s0]; [discriminate|].
  unfold bind, Releasecmd.newClient, bind, call. rewrite Htry.
  destruct (Releasecmd.releases_NewClient X _ (world s0)) as [[e|c] w1] eqn:Hn; cbn;
    [discriminate|].
  intros H; inversion H; subst. split; [reflexivity|].
  exists (world s0). now rewrite Hn.
Qed.

(** The release over the two archives: the client of the provider. *)
Lemma prepareFiles_client_origin_witness :
  exists w,
    fst (Releasecmd.releases_NewClient (Sim.releaseX (fun _ => None)) 1 w)
    = inr (Releasecmd.ProviderClient 1).
Proof.
  destruct (prepareFiles_client_origin (Sim.releaseX (fun _ => None))
              (Sim.theCore false [Sim.theRelease false "" (fun _ => true)])
              (Sim.theRelease false "" (fun _ => true)) Sim.start
              (snd (Releasecmd.prepareFiles (Sim.releaseX (fun _ => None))
                      (Sim.theCore false [Sim.theRelease false "" (fun _ => true)])
                      (Sim.theRelease false "" (fun _ => true)) Sim.start))
              [Sim.linuxArchive; Sim.darwinArchive; Sim.releaseDir ++ "/checksum.txt"]
              (Releasecmd.ProviderClient 1) eq_refl) as (_ & H).
  exact H.
Defined.

(** ** The same properties on concrete runs *)

(** A filter that matches nothing. *)
Lemma archiveFilenamesOf_matches_witness :
  Releasecmd.archiveFilenamesOf (Sim.releaseX (fun _ => None)) (Sim.theCore false [])
    (Sim.theRelease false "" (fun _ => false))
  = [].
Proof.
  apply (archiveFilenamesOf_matches (Sim.releaseX (fun _ => None)) (Sim.theCore false [])
           (Sim.theRelease false "" (fun _ => false))).
  intros archive archPath _ _. reflexivity.
Defined.
